(** * Velox window operator (velox/exec/Window.cpp): frame bounds, validity
      repair and the output batching loop.

    The operator is embedded shallowly.  Row indices and counters are
    [vector_size_t] (a signed 32-bit integer) and are modelled as [Z] with the
    wrap-around of every arithmetic operation written out; raw buffers are
    lists updated by index; C++ exceptions are modelled by a state-and-error
    monad in which the state survives a throw. *)

From Stdlib Require Import ZArith List Lia Bool.
From stdpp Require Import base tactics option list.

Local Open Scope Z_scope.

(** ** Machine integers *)

Module Int.

(** Two's-complement reduction of [x] into the signed range of width [bits]. *)
Definition wrap (bits : Z) (x : Z) : Z :=
  (x + 2 ^ (bits - 1)) mod 2 ^ bits - 2 ^ (bits - 1).

Definition min_signed (bits : Z) : Z := - 2 ^ (bits - 1).
Definition max_signed (bits : Z) : Z := 2 ^ (bits - 1) - 1.

Definition in_range (bits : Z) (x : Z) : Prop :=
  min_signed bits <= x <= max_signed bits.

(** [int32_t] and [int].  Modelled from the spec: the alias [vector_size_t]
    is declared outside the given sources; row indices and row counts are
    taken to be of this signed 32-bit type. *)
Definition to_int32 (x : Z) : Z := wrap 32 x.
(** [int64_t]. *)
Definition to_int64 (x : Z) : Z := wrap 64 x.

End Int.

Export Int.

(** The element types the offset-column template is instantiated at. *)
Inductive IntKind := Int32 | Int64.

Definition cast (T : IntKind) (x : Z) : Z :=
  match T with
  | Int32 => to_int32 x
  | Int64 => to_int64 x
  end.

(** Modelled from the spec: [kConstantChannel] is declared outside the given
    sources.  It is the channel that marks an offset argument as a constant
    rather than a column (section 3), taken to be the largest 32-bit column
    index. *)
Definition kConstantChannel : Z := 2 ^ 32 - 1.

(** ** Type kinds *)

Inductive TypeKind := INTEGER | BIGINT | SMALLINT | DOUBLE | VARCHAR.

Definition TypeKind_eqb (a b : TypeKind) : bool :=
  match a, b with
  | INTEGER, INTEGER | BIGINT, BIGINT | SMALLINT, SMALLINT
  | DOUBLE, DOUBLE | VARCHAR, VARCHAR => true
  | _, _ => false
  end.

(** ** Errors *)

Inductive Message :=
| KFrameBoundMustBeIntegerOrBigint
| OffsetMustNotBeNull
| OffsetMustNotBeNegative (value : Z)
| KPrecedingOnlyInRowsMode
| KFollowingOnlyInRowsMode
| WindowFunctionNotRegistered (name : nat)
| WindowFunctionSignatureNotSupported (name : nat) (argTypes : list TypeKind).

Inductive VeloxError :=
| VeloxUserError (m : Message)        (* VELOX_USER_CHECK, VELOX_USER_CHECK_GE *)
| VeloxRuntimeError (m : Message)     (* VELOX_CHECK *)
| VeloxNYI (m : Message)              (* VELOX_NYI *)
| BadOptionalAccess                   (* std::optional::value() on nullopt *)
| NullDereference                     (* a null pointer was dereferenced *)
| OutOfFuel.                          (* the loop bound of the model was hit *)

Inductive Outcome (A : Type) :=
| Returned (a : A)
| Thrown (e : VeloxError).
Arguments Returned {A} a.
Arguments Thrown {A} e.

(** A computation over a mutable state [S]: the state is returned in both
    outcomes, as the writes made before a throw stay made. *)
Definition Exec (S A : Type) : Type := S -> S * Outcome A.

Definition ret {S A} (a : A) : Exec S A := fun s => (s, Returned a).

Definition bind {S A B} (m : Exec S A) (k : A -> Exec S B) : Exec S B :=
  fun s =>
    match m s with
    | (s', Returned a) => k a s'
    | (s', Thrown e) => (s', Thrown e)
    end.

Definition throw {S A} (e : VeloxError) : Exec S A := fun s => (s, Thrown e).
Definition get {S} : Exec S S := fun s => (s, Returned s).
Definition gets {S A} (f : S -> A) : Exec S A := fun s => (s, Returned (f s)).
Definition modify {S} (f : S -> S) : Exec S unit := fun s => (f s, Returned tt).

Declare Scope exec_scope.
Delimit Scope exec_scope with exec.
Notation "x <- m ;; k" := (bind m (fun x => k))
  (at level 100, m at next level, right associativity) : exec_scope.
Notation "m ;;; k" := (bind m (fun _ => k))
  (at level 100, right associativity) : exec_scope.
Local Open Scope exec_scope.

(** [for (auto i = 0; i < n; i++) body(i)], leaving at the first throw. *)
Fixpoint for_each {S} (indices : list nat) (body : nat -> Exec S unit)
  : Exec S unit :=
  match indices with
  | [] => ret tt
  | i :: rest => body i ;;; for_each rest body
  end.

Definition for_loop {S} (n : Z) (body : nat -> Exec S unit) : Exec S unit :=
  for_each (seq 0 (Z.to_nat n)) body.

(** ** Raw buffers *)

(** A raw [vector_size_t*] buffer.  A store past the end of the list leaves it
    unchanged and a load past the end gives 0; the operator sizes its buffers
    to the output budget, so neither happens on slices within the budget. *)
Definition Buffer := list Z.

Definition store (i : nat) (v : Z) : Exec (list Z) unit :=
  modify (fun buf => <[i := v]> buf).

Definition load (buf : list Z) (i : nat) : Z := default 0 (buf !! i).

(** [std::fill_n(first, n, v)]. *)
Definition fill_n (n : Z) (v : Z) : Exec (list Z) unit :=
  for_loop n (fun i => store i v).

(** [std::copy(src, src + n, first)]. *)
Definition copy (src : list Z) (n : Z) : Exec (list Z) unit :=
  for_loop n (fun i => store i (load src i)).

(** [std::iota(first, first + n, value)] with a running value of type [T]
    stored into 32-bit slots: each store narrows, each [++value] is in [T]. *)
Fixpoint iota_from (T : IntKind) (indices : list nat) (value : Z)
  : Exec (list Z) unit :=
  match indices with
  | [] => ret tt
  | i :: rest =>
      store i (to_int32 value) ;;; iota_from T rest (cast T (value + 1))
  end.

Definition iota (T : IntKind) (n : Z) (value : Z) : Exec (list Z) unit :=
  iota_from T (seq 0 (Z.to_nat n)) value.

(** ** Plan-node data (core::WindowNode) *)

Inductive WindowType := kRange | kRows.

Inductive BoundType :=
| kUnboundedPreceding
| kPreceding
| kCurrentRow
| kFollowing
| kUnboundedFollowing.

(** Modelled from the spec: the typed expressions of the plan are declared
    outside the given sources.  A frame-bound expression is a constant (a
    variant that is null or holds an integer) or a reference to an input
    column (section 3: an offset argument is a constant or a column
    channel). *)
Inductive TypedExpr :=
| ConstantTypedExpr (type : TypeKind) (value : option Z)
| FieldAccessTypedExpr (type : TypeKind) (channel : Z).

Definition expr_type (e : TypedExpr) : TypeKind :=
  match e with
  | ConstantTypedExpr t _ => t
  | FieldAccessTypedExpr t _ => t
  end.

(** Modelled from the spec: [exprToChannel] is defined outside the given
    sources.  A constant maps to [kConstantChannel], a column reference to
    its channel. *)
Definition exprToChannel (e : TypedExpr) : Z :=
  match e with
  | ConstantTypedExpr _ _ => kConstantChannel
  | FieldAccessTypedExpr _ c => c
  end.

(** core::WindowNode::Frame; a null [startValue]/[endValue] is [None]. *)
Record Frame := {
  type : WindowType;
  startType : BoundType;
  startValue : option TypedExpr;
  endType : BoundType;
  endValue : option TypedExpr
}.

(** ** Operator-side frame description *)

(** Modelled from the spec: the columnar vectors are given infrastructure
    (section 1).  A flat integer vector is its type kind and its rows, a
    null row being [None]. *)
Record Vector := {
  typeKind : TypeKind;
  rows : list (option Z)
}.

(** Window::FrameChannelArg.  [value] is the scratch vector of a column
    offset; every use overwrites it with the extracted slice before it is
    read, so only its type is kept. *)
Record FrameChannelArg := {
  index : Z;
  value : option TypeKind;
  constant : option Z
}.

(** Window::WindowFrame. *)
Record WindowFrame := {
  wf_type : WindowType;
  wf_startType : BoundType;
  wf_endType : BoundType;
  start : option FrameChannelArg;
  end_ : option FrameChannelArg
}.

(** The [frameBoundCheck] lambda of createWindowFrame. *)
Definition frameBoundCheck (frame : option TypedExpr) : Outcome unit :=
  match frame with
  | None => Returned tt
  | Some e =>
      if TypeKind_eqb (expr_type e) INTEGER || TypeKind_eqb (expr_type e) BIGINT
      then Returned tt
      else Thrown (VeloxUserError KFrameBoundMustBeIntegerOrBigint)
  end.

(** The [createFrameChannelArg] lambda of createWindowFrame. *)
Definition createFrameChannelArg (frame : option TypedExpr)
  : Outcome (option FrameChannelArg) :=
  match frame with
  | None => Returned None
  | Some e =>
      let frameChannel := exprToChannel e in
      if frameChannel =? kConstantChannel then
        match e with
        | ConstantTypedExpr _ None =>
            Thrown (VeloxRuntimeError OffsetMustNotBeNull)
        | ConstantTypedExpr _ (Some v) =>
            if 0 <=? v then
              Returned (Some {| index := kConstantChannel; value := None;
                                constant := Some v |})
            else Thrown (VeloxUserError (OffsetMustNotBeNegative v))
        | FieldAccessTypedExpr _ _ =>
            (* the dynamic cast to a constant expression gives null *)
            Thrown NullDereference
        end
      else
        Returned (Some {| index := frameChannel; value := Some (expr_type e);
                          constant := None |})
  end.

(** Window::createWindowFrame. *)
Definition createWindowFrame (frame : Frame) : Outcome WindowFrame :=
  match
    match type frame with
    | kRows =>
        match frameBoundCheck (startValue frame) with
        | Thrown e => Thrown e
        | Returned _ => frameBoundCheck (endValue frame)
        end
    | kRange => Returned tt
    end
  with
  | Thrown e => Thrown e
  | Returned _ =>
      match createFrameChannelArg (startValue frame) with
      | Thrown e => Thrown e
      | Returned s =>
          match createFrameChannelArg (endValue frame) with
          | Thrown e => Thrown e
          | Returned e =>
              Returned {| wf_type := type frame;
                          wf_startType := startType frame;
                          wf_endType := endType frame;
                          start := s;
                          end_ := e |}
          end
      end
  end.

(** ** The partition (external collaborator) *)

(** Modelled from the spec: the partition is an external collaborator
    (section 6).  The operator uses its row count, its integer columns by
    channel, and its peer computation, which fills the two raw peer buffers
    for rows [startRow, endRow) from the continuation pair of the previous
    call and returns the new continuation pair.  The peer computation is a
    field, so the statements hold for any such computation. *)
Module WindowPartition.
Record t := {
  numRows : Z;
  columns : Z -> list (option Z);
  computePeerBuffers :
    Z -> Z -> Z -> Z -> list Z -> list Z -> (Z * Z) * (list Z * list Z)
}.
End WindowPartition.
Abbreviation WindowPartition := WindowPartition.t.

(** Modelled from the spec: [extractColumn(channel, offset, numRows, 0,
    result)] copies a column slice into the destination (section 6), which
    keeps its type and holds rows [offset, offset + numRows). *)
Definition extractColumn (p : WindowPartition) (channel : Z)
    (offset numRows : Z) (kind : TypeKind) : Vector :=
  {| typeKind := kind;
     rows := take (Z.to_nat numRows) (drop (Z.to_nat offset) (WindowPartition.columns p channel)) |}.

(** ** Offset and frame-bound resolution *)

(** Modelled from the spec: [value->isNullAt(i)] of the vector
    infrastructure; a row past the end of the vector reads as null. *)
Definition isNullAt (v : Vector) (i : nat) : bool :=
  match rows v !! i with
  | Some (Some _) => false
  | _ => true
  end.

(** Modelled from the spec: [value->values()->as<T>()[i]] of the vector
    infrastructure; a null row reads as 0. *)
Definition offset_at (v : Vector) (i : nat) : Z :=
  match rows v !! i with
  | Some (Some x) => x
  | _ => 0
  end.

Definition check {S} (b : bool) (e : VeloxError) : Exec S unit :=
  if b then ret tt else throw e.

(** updateKRowsOffsetsColumn<T>. *)
Definition updateKRowsOffsetsColumn (T : IntKind) (isKPreceding : bool)
    (value : Vector) (startRow numRows : Z) : Exec (list Z) unit :=
  for_loop numRows (fun i =>
    check (negb (isNullAt value i)) (VeloxUserError OffsetMustNotBeNull) ;;;
    check (0 <=? offset_at value i)
      (VeloxUserError (OffsetMustNotBeNegative (offset_at value i)))) ;;;
  let precedingFactor := if isKPreceding then -1 else 1 in
  for_loop numRows (fun i =>
    store i
      (to_int32 (to_int32 (startRow + Z.of_nat i)
                 + to_int32 (cast T (precedingFactor * offset_at value i))))).

(** Window::updateKRowsFrameBounds, with the two members it reads. *)
Definition updateKRowsFrameBounds (currentPartition_ : WindowPartition)
    (partitionOffset_ : Z) (isKPreceding : bool) (frameArg : FrameChannelArg)
    (startRow numRows : Z) : Exec (list Z) unit :=
  if index frameArg =? kConstantChannel then
    match constant frameArg with
    | None => throw BadOptionalAccess
    | Some constantOffset =>
        let startValue :=
          to_int64 (startRow + (if isKPreceding
                                then to_int64 (- constantOffset)
                                else constantOffset)) in
        iota Int64 numRows startValue
    end
  else
    match value frameArg with
    | None => throw NullDereference
    | Some kind =>
        let value := extractColumn currentPartition_ (index frameArg)
                       partitionOffset_ numRows kind in
        match typeKind value with
        | INTEGER =>
            updateKRowsOffsetsColumn Int32 isKPreceding value startRow numRows
        | _ =>
            updateKRowsOffsetsColumn Int64 isKPreceding value startRow numRows
        end
    end.

(** Window::updateFrameBounds, with the two members it reads.  The five
    enumerators are all there is, so the [default] branch has no case. *)
Definition updateFrameBounds (currentPartition_ : WindowPartition)
    (partitionOffset_ : Z) (windowFrame : WindowFrame) (isStartBound : bool)
    (startRow numRows : Z) (rawPeerStarts rawPeerEnds : list Z)
  : Exec (list Z) unit :=
  let windowType := wf_type windowFrame in
  let boundType :=
    if isStartBound then wf_startType windowFrame else wf_endType windowFrame in
  let frameArg := if isStartBound then start windowFrame else end_ windowFrame in
  match boundType with
  | kUnboundedPreceding => fill_n numRows 0
  | kUnboundedFollowing =>
      fill_n numRows (to_int32 (WindowPartition.numRows currentPartition_ - 1))
  | kCurrentRow =>
      match windowType with
      | kRange =>
          let rawPeerBuffer := if isStartBound then rawPeerStarts else rawPeerEnds in
          copy rawPeerBuffer numRows
      | kRows => iota Int32 numRows startRow
      end
  | kPreceding =>
      match windowType with
      | kRows =>
          match frameArg with
          | None => throw BadOptionalAccess
          | Some arg =>
              updateKRowsFrameBounds currentPartition_ partitionOffset_
                true arg startRow numRows
          end
      | kRange => throw (VeloxNYI KPrecedingOnlyInRowsMode)
      end
  | kFollowing =>
      match windowType with
      | kRows =>
          match frameArg with
          | None => throw BadOptionalAccess
          | Some arg =>
              updateKRowsFrameBounds currentPartition_ partitionOffset_
                false arg startRow numRows
          end
      | kRange => throw (VeloxNYI KFollowingOnlyInRowsMode)
      end
  end.

(** ** Validity repair *)

(** One iteration of the loop of computeValidFrames over the two raw frame
    buffers and the selector. *)
Definition computeValidFrames_body (lastRow : Z) (i : nat)
    (st : list Z * list Z * list bool) : list Z * list Z * list bool :=
  let '(rawFrameStarts, rawFrameEnds, validFrames) := st in
  let frameStart := load rawFrameStarts i in
  let frameEnd := load rawFrameEnds i in
  if (frameStart <=? frameEnd) && (0 <=? frameEnd) && (frameStart <=? lastRow)
  then (<[i := Z.max frameStart 0]> rawFrameStarts,
        <[i := Z.min frameEnd lastRow]> rawFrameEnds,
        validFrames)
  else (rawFrameStarts, rawFrameEnds, <[i := false]> validFrames).

(** computeValidFrames.  [setValid(i, false)] clears bit [i] of the selector;
    [updateBounds] only refreshes the selector's cached range and is not
    modelled. *)
Definition computeValidFrames (lastRow numRows : Z)
    (st : list Z * list Z * list bool) : list Z * list Z * list bool :=
  fold_left (fun st i => computeValidFrames_body lastRow i st)
    (seq 0 (Z.to_nat numRows)) st.

(** Modelled from the spec: [SelectivityVector::resizeFill(size, true)] is
    defined outside the given sources; the selector gets [size] rows, all
    of them valid (section 4.4: all rows default valid). *)
Definition resizeFill (size : Z) (b : bool) : list bool :=
  replicate (Z.to_nat size) b.

(** ** The operator state *)

(** Modelled from the spec: a window function is an external object
    (section 6).  The record is the function call of the plan node (its name,
    its argument expressions and the ignore-nulls flag) and, once
    [WindowFunction::create] has returned, the instance the operator holds;
    the operator only resets an instance per partition and applies it per
    slice, and these calls are logged.  [signatures] is what the registry of
    window functions, which lies outside the given sources, holds for
    [name]: nothing when the name is not registered, else the argument types
    of each registered signature.  It is a field, so the statements hold for
    any registry. *)
Record WindowFunction := {
  name : nat;
  inputs : list TypedExpr;
  ignoreNulls : bool;
  signatures : option (list (list TypeKind))
}.

(** WindowFunctionArg: the type of an argument, its constant vector if it is
    a constant (the value, null being [None]), else its column. *)
Record WindowFunctionArg := {
  arg_type : TypeKind;
  constantValue : option (option Z);
  arg_index : option Z
}.

(** The calls the operator makes on its collaborators, in order.  The slice
    [startRow, endRow) of an [Apply] is the one its buffers were filled for. *)
Inductive Call :=
| ResetPartition (w : nat) (partition : nat)
| ComputePeerBuffers (partition : nat) (startRow endRow : Z)
    (prevPeerStart prevPeerEnd : Z) (newPeerStart newPeerEnd : Z)
| Apply (w : nat) (partition : nat) (startRow endRow : Z) (resultOffset : Z).

(** Modelled from the spec: the window build is an external collaborator
    (section 6).  After [noMoreInput] it holds the partitions in output
    order and the position of the next one to hand out. *)
Record WindowBuild := {
  partitions : list WindowPartition;
  nextIndex : nat
}.

(** Modelled from the spec: [hasNextPartition()] of the window build. *)
Definition hasNextPartition (b : WindowBuild) : bool :=
  bool_decide (nextIndex b < length (partitions b))%nat.

(** Modelled from the spec: [nextPartition()] of the window build gives the
    partition handed out, tagged with its position, and the advanced
    build. *)
Definition nextPartition (b : WindowBuild)
  : option ((nat * WindowPartition) * WindowBuild) :=
  match partitions b !! nextIndex b with
  | Some p =>
      Some ((nextIndex b, p),
            {| partitions := partitions b; nextIndex := S (nextIndex b) |})
  | None => None
  end.

(** The members of the operator that Window.cpp reads and writes.  A current
    partition is the partition with its position in the build; [calls] is
    the log of the calls made on the collaborators. *)
Record Window := {
  windowFunctions_ : list WindowFunction;
  windowFrames_ : list WindowFrame;
  windowBuild_ : WindowBuild;
  currentPartition_ : option (nat * WindowPartition);
  numRows_ : Z;
  numRowsPerOutput_ : Z;
  numProcessedRows_ : Z;
  partitionOffset_ : Z;
  peerStartRow_ : Z;
  peerEndRow_ : Z;
  peerStartBuffer_ : list Z;
  peerEndBuffer_ : list Z;
  frameStartBuffers_ : list (list Z);
  frameEndBuffers_ : list (list Z);
  validFrames_ : list (list bool);
  calls : list Call
}.

Definition set_windowBuild_ (x : WindowBuild) (w : Window) : Window :=
  {| windowFunctions_ := windowFunctions_ w;
     windowFrames_ := windowFrames_ w;
     windowBuild_ := x;
     currentPartition_ := currentPartition_ w;
     numRows_ := numRows_ w;
     numRowsPerOutput_ := numRowsPerOutput_ w;
     numProcessedRows_ := numProcessedRows_ w;
     partitionOffset_ := partitionOffset_ w;
     peerStartRow_ := peerStartRow_ w;
     peerEndRow_ := peerEndRow_ w;
     peerStartBuffer_ := peerStartBuffer_ w;
     peerEndBuffer_ := peerEndBuffer_ w;
     frameStartBuffers_ := frameStartBuffers_ w;
     frameEndBuffers_ := frameEndBuffers_ w;
     validFrames_ := validFrames_ w;
     calls := calls w |}.

Definition set_currentPartition_ (x : option (nat * WindowPartition)) (w : Window) : Window :=
  {| windowFunctions_ := windowFunctions_ w;
     windowFrames_ := windowFrames_ w;
     windowBuild_ := windowBuild_ w;
     currentPartition_ := x;
     numRows_ := numRows_ w;
     numRowsPerOutput_ := numRowsPerOutput_ w;
     numProcessedRows_ := numProcessedRows_ w;
     partitionOffset_ := partitionOffset_ w;
     peerStartRow_ := peerStartRow_ w;
     peerEndRow_ := peerEndRow_ w;
     peerStartBuffer_ := peerStartBuffer_ w;
     peerEndBuffer_ := peerEndBuffer_ w;
     frameStartBuffers_ := frameStartBuffers_ w;
     frameEndBuffers_ := frameEndBuffers_ w;
     validFrames_ := validFrames_ w;
     calls := calls w |}.

Definition set_numRows_ (x : Z) (w : Window) : Window :=
  {| windowFunctions_ := windowFunctions_ w;
     windowFrames_ := windowFrames_ w;
     windowBuild_ := windowBuild_ w;
     currentPartition_ := currentPartition_ w;
     numRows_ := x;
     numRowsPerOutput_ := numRowsPerOutput_ w;
     numProcessedRows_ := numProcessedRows_ w;
     partitionOffset_ := partitionOffset_ w;
     peerStartRow_ := peerStartRow_ w;
     peerEndRow_ := peerEndRow_ w;
     peerStartBuffer_ := peerStartBuffer_ w;
     peerEndBuffer_ := peerEndBuffer_ w;
     frameStartBuffers_ := frameStartBuffers_ w;
     frameEndBuffers_ := frameEndBuffers_ w;
     validFrames_ := validFrames_ w;
     calls := calls w |}.

Definition set_numProcessedRows_ (x : Z) (w : Window) : Window :=
  {| windowFunctions_ := windowFunctions_ w;
     windowFrames_ := windowFrames_ w;
     windowBuild_ := windowBuild_ w;
     currentPartition_ := currentPartition_ w;
     numRows_ := numRows_ w;
     numRowsPerOutput_ := numRowsPerOutput_ w;
     numProcessedRows_ := x;
     partitionOffset_ := partitionOffset_ w;
     peerStartRow_ := peerStartRow_ w;
     peerEndRow_ := peerEndRow_ w;
     peerStartBuffer_ := peerStartBuffer_ w;
     peerEndBuffer_ := peerEndBuffer_ w;
     frameStartBuffers_ := frameStartBuffers_ w;
     frameEndBuffers_ := frameEndBuffers_ w;
     validFrames_ := validFrames_ w;
     calls := calls w |}.

Definition set_partitionOffset_ (x : Z) (w : Window) : Window :=
  {| windowFunctions_ := windowFunctions_ w;
     windowFrames_ := windowFrames_ w;
     windowBuild_ := windowBuild_ w;
     currentPartition_ := currentPartition_ w;
     numRows_ := numRows_ w;
     numRowsPerOutput_ := numRowsPerOutput_ w;
     numProcessedRows_ := numProcessedRows_ w;
     partitionOffset_ := x;
     peerStartRow_ := peerStartRow_ w;
     peerEndRow_ := peerEndRow_ w;
     peerStartBuffer_ := peerStartBuffer_ w;
     peerEndBuffer_ := peerEndBuffer_ w;
     frameStartBuffers_ := frameStartBuffers_ w;
     frameEndBuffers_ := frameEndBuffers_ w;
     validFrames_ := validFrames_ w;
     calls := calls w |}.

Definition set_peerStartRow_ (x : Z) (w : Window) : Window :=
  {| windowFunctions_ := windowFunctions_ w;
     windowFrames_ := windowFrames_ w;
     windowBuild_ := windowBuild_ w;
     currentPartition_ := currentPartition_ w;
     numRows_ := numRows_ w;
     numRowsPerOutput_ := numRowsPerOutput_ w;
     numProcessedRows_ := numProcessedRows_ w;
     partitionOffset_ := partitionOffset_ w;
     peerStartRow_ := x;
     peerEndRow_ := peerEndRow_ w;
     peerStartBuffer_ := peerStartBuffer_ w;
     peerEndBuffer_ := peerEndBuffer_ w;
     frameStartBuffers_ := frameStartBuffers_ w;
     frameEndBuffers_ := frameEndBuffers_ w;
     validFrames_ := validFrames_ w;
     calls := calls w |}.

Definition set_peerEndRow_ (x : Z) (w : Window) : Window :=
  {| windowFunctions_ := windowFunctions_ w;
     windowFrames_ := windowFrames_ w;
     windowBuild_ := windowBuild_ w;
     currentPartition_ := currentPartition_ w;
     numRows_ := numRows_ w;
     numRowsPerOutput_ := numRowsPerOutput_ w;
     numProcessedRows_ := numProcessedRows_ w;
     partitionOffset_ := partitionOffset_ w;
     peerStartRow_ := peerStartRow_ w;
     peerEndRow_ := x;
     peerStartBuffer_ := peerStartBuffer_ w;
     peerEndBuffer_ := peerEndBuffer_ w;
     frameStartBuffers_ := frameStartBuffers_ w;
     frameEndBuffers_ := frameEndBuffers_ w;
     validFrames_ := validFrames_ w;
     calls := calls w |}.

Definition set_peerStartBuffer_ (x : list Z) (w : Window) : Window :=
  {| windowFunctions_ := windowFunctions_ w;
     windowFrames_ := windowFrames_ w;
     windowBuild_ := windowBuild_ w;
     currentPartition_ := currentPartition_ w;
     numRows_ := numRows_ w;
     numRowsPerOutput_ := numRowsPerOutput_ w;
     numProcessedRows_ := numProcessedRows_ w;
     partitionOffset_ := partitionOffset_ w;
     peerStartRow_ := peerStartRow_ w;
     peerEndRow_ := peerEndRow_ w;
     peerStartBuffer_ := x;
     peerEndBuffer_ := peerEndBuffer_ w;
     frameStartBuffers_ := frameStartBuffers_ w;
     frameEndBuffers_ := frameEndBuffers_ w;
     validFrames_ := validFrames_ w;
     calls := calls w |}.

Definition set_peerEndBuffer_ (x : list Z) (w : Window) : Window :=
  {| windowFunctions_ := windowFunctions_ w;
     windowFrames_ := windowFrames_ w;
     windowBuild_ := windowBuild_ w;
     currentPartition_ := currentPartition_ w;
     numRows_ := numRows_ w;
     numRowsPerOutput_ := numRowsPerOutput_ w;
     numProcessedRows_ := numProcessedRows_ w;
     partitionOffset_ := partitionOffset_ w;
     peerStartRow_ := peerStartRow_ w;
     peerEndRow_ := peerEndRow_ w;
     peerStartBuffer_ := peerStartBuffer_ w;
     peerEndBuffer_ := x;
     frameStartBuffers_ := frameStartBuffers_ w;
     frameEndBuffers_ := frameEndBuffers_ w;
     validFrames_ := validFrames_ w;
     calls := calls w |}.

Definition set_frameStartBuffers_ (x : list (list Z)) (w : Window) : Window :=
  {| windowFunctions_ := windowFunctions_ w;
     windowFrames_ := windowFrames_ w;
     windowBuild_ := windowBuild_ w;
     currentPartition_ := currentPartition_ w;
     numRows_ := numRows_ w;
     numRowsPerOutput_ := numRowsPerOutput_ w;
     numProcessedRows_ := numProcessedRows_ w;
     partitionOffset_ := partitionOffset_ w;
     peerStartRow_ := peerStartRow_ w;
     peerEndRow_ := peerEndRow_ w;
     peerStartBuffer_ := peerStartBuffer_ w;
     peerEndBuffer_ := peerEndBuffer_ w;
     frameStartBuffers_ := x;
     frameEndBuffers_ := frameEndBuffers_ w;
     validFrames_ := validFrames_ w;
     calls := calls w |}.

Definition set_frameEndBuffers_ (x : list (list Z)) (w : Window) : Window :=
  {| windowFunctions_ := windowFunctions_ w;
     windowFrames_ := windowFrames_ w;
     windowBuild_ := windowBuild_ w;
     currentPartition_ := currentPartition_ w;
     numRows_ := numRows_ w;
     numRowsPerOutput_ := numRowsPerOutput_ w;
     numProcessedRows_ := numProcessedRows_ w;
     partitionOffset_ := partitionOffset_ w;
     peerStartRow_ := peerStartRow_ w;
     peerEndRow_ := peerEndRow_ w;
     peerStartBuffer_ := peerStartBuffer_ w;
     peerEndBuffer_ := peerEndBuffer_ w;
     frameStartBuffers_ := frameStartBuffers_ w;
     frameEndBuffers_ := x;
     validFrames_ := validFrames_ w;
     calls := calls w |}.

Definition set_validFrames_ (x : list (list bool)) (w : Window) : Window :=
  {| windowFunctions_ := windowFunctions_ w;
     windowFrames_ := windowFrames_ w;
     windowBuild_ := windowBuild_ w;
     currentPartition_ := currentPartition_ w;
     numRows_ := numRows_ w;
     numRowsPerOutput_ := numRowsPerOutput_ w;
     numProcessedRows_ := numProcessedRows_ w;
     partitionOffset_ := partitionOffset_ w;
     peerStartRow_ := peerStartRow_ w;
     peerEndRow_ := peerEndRow_ w;
     peerStartBuffer_ := peerStartBuffer_ w;
     peerEndBuffer_ := peerEndBuffer_ w;
     frameStartBuffers_ := frameStartBuffers_ w;
     frameEndBuffers_ := frameEndBuffers_ w;
     validFrames_ := x;
     calls := calls w |}.

Definition set_calls (x : list Call) (w : Window) : Window :=
  {| windowFunctions_ := windowFunctions_ w;
     windowFrames_ := windowFrames_ w;
     windowBuild_ := windowBuild_ w;
     currentPartition_ := currentPartition_ w;
     numRows_ := numRows_ w;
     numRowsPerOutput_ := numRowsPerOutput_ w;
     numProcessedRows_ := numProcessedRows_ w;
     partitionOffset_ := partitionOffset_ w;
     peerStartRow_ := peerStartRow_ w;
     peerEndRow_ := peerEndRow_ w;
     peerStartBuffer_ := peerStartBuffer_ w;
     peerEndBuffer_ := peerEndBuffer_ w;
     frameStartBuffers_ := frameStartBuffers_ w;
     frameEndBuffers_ := frameEndBuffers_ w;
     validFrames_ := validFrames_ w;
     calls := x |}.

(** [std::optional]'s conversion to [bool]. *)
Definition has_value {A} (o : option A) : bool :=
  match o with
  | Some _ => true
  | None => false
  end.

Definition log (c : Call) : Exec Window unit :=
  modify (fun w => set_calls (calls w ++ [c]) w).

(** Runs a raw-buffer computation on [frameStartBuffers_[i]]. *)
Definition on_frameStartBuffer {A} (i : nat) (m : Exec (list Z) A)
  : Exec Window A :=
  fun w =>
    let '(buf, r) := m (default [] (frameStartBuffers_ w !! i)) in
    (set_frameStartBuffers_ (<[i := buf]> (frameStartBuffers_ w)) w, r).

(** Runs a raw-buffer computation on [frameEndBuffers_[i]]. *)
Definition on_frameEndBuffer {A} (i : nat) (m : Exec (list Z) A)
  : Exec Window A :=
  fun w =>
    let '(buf, r) := m (default [] (frameEndBuffers_ w !! i)) in
    (set_frameEndBuffers_ (<[i := buf]> (frameEndBuffers_ w)) w, r).

(** [currentPartition_->], which needs the pointer to be set. *)
Definition currentPartition : Exec Window (nat * WindowPartition) :=
  w <- get ;;
  match currentPartition_ w with
  | Some p => ret p
  | None => throw NullDereference
  end.

Definition numFuncs (w : Window) : Z := Z.of_nat (length (windowFunctions_ w)).

(** Window::callResetPartition. *)
Definition callResetPartition : Exec Window unit :=
  modify (set_partitionOffset_ 0) ;;;
  modify (set_peerStartRow_ 0) ;;;
  modify (set_peerEndRow_ 0) ;;;
  modify (set_currentPartition_ None) ;;;
  w <- get ;;
  if hasNextPartition (windowBuild_ w) then
    match nextPartition (windowBuild_ w) with
    | Some (p, build) =>
        modify (set_windowBuild_ build) ;;;
        modify (set_currentPartition_ (Some p)) ;;;
        for_loop (numFuncs w) (fun i => log (ResetPartition i (fst p)))
    | None => throw NullDereference
    end
  else ret tt.

(** The body of the per-function loop of computePeerAndFrameBuffers. *)
Definition computeFrameBuffers (i : nat) (startRow numRows : Z)
  : Exec Window unit :=
  p <- currentPartition ;;
  w <- get ;;
  match windowFrames_ w !! i with
  | None => throw NullDereference
  | Some windowFrame =>
      modify (fun w =>
        set_validFrames_ (<[i := resizeFill numRows true]> (validFrames_ w)) w) ;;;
      on_frameStartBuffer i
        (updateFrameBounds (snd p) (partitionOffset_ w) windowFrame true
           startRow numRows (peerStartBuffer_ w) (peerEndBuffer_ w)) ;;;
      on_frameEndBuffer i
        (updateFrameBounds (snd p) (partitionOffset_ w) windowFrame false
           startRow numRows (peerStartBuffer_ w) (peerEndBuffer_ w)) ;;;
      if has_value (start windowFrame) || has_value (end_ windowFrame) then
        modify (fun w =>
          let '(starts, ends, valid) :=
            computeValidFrames
              (to_int32 (WindowPartition.numRows (snd p) - 1)) numRows
              (default [] (frameStartBuffers_ w !! i),
               default [] (frameEndBuffers_ w !! i),
               default [] (validFrames_ w !! i)) in
          set_frameStartBuffers_ (<[i := starts]> (frameStartBuffers_ w))
            (set_frameEndBuffers_ (<[i := ends]> (frameEndBuffers_ w))
               (set_validFrames_ (<[i := valid]> (validFrames_ w)) w)))
      else ret tt
  end.

(** Window::computePeerAndFrameBuffers.  The [setSize] calls only record the
    byte size of the buffers and are not modelled. *)
Definition computePeerAndFrameBuffers (startRow endRow : Z)
  : Exec Window unit :=
  let numRows := to_int32 (endRow - startRow) in
  p <- currentPartition ;;
  w <- get ;;
  let '((newPeerStart, newPeerEnd), (rawPeerStarts, rawPeerEnds)) :=
    WindowPartition.computePeerBuffers (snd p) startRow endRow
      (peerStartRow_ w) (peerEndRow_ w)
      (peerStartBuffer_ w) (peerEndBuffer_ w) in
  modify (set_peerStartBuffer_ rawPeerStarts) ;;;
  modify (set_peerEndBuffer_ rawPeerEnds) ;;;
  modify (set_peerStartRow_ newPeerStart) ;;;
  modify (set_peerEndRow_ newPeerEnd) ;;;
  log (ComputePeerBuffers (fst p) startRow endRow
         (peerStartRow_ w) (peerEndRow_ w) newPeerStart newPeerEnd) ;;;
  for_loop (numFuncs w) (fun i => computeFrameBuffers i startRow numRows).

(** Window::callApplyForPartitionRows.  [getInputColumns] copies the input
    columns of the slice into the result and touches no operator state. *)
Definition callApplyForPartitionRows (startRow endRow resultOffset : Z)
  : Exec Window unit :=
  computePeerAndFrameBuffers startRow endRow ;;;
  p <- currentPartition ;;
  w <- get ;;
  for_loop (numFuncs w) (fun i =>
    log (Apply i (fst p) startRow endRow resultOffset)) ;;;
  let numRows := to_int32 (endRow - startRow) in
  modify (fun w => set_numProcessedRows_ (to_int32 (numProcessedRows_ w + numRows)) w) ;;;
  modify (fun w => set_partitionOffset_ (to_int32 (partitionOffset_ w + numRows)) w).

(** The [while] loop of Window::callApplyLoop.  Every iteration that does not
    leave the loop takes a partition from the build, so the number of
    partitions left bounds the iterations; [fuel] carries that bound. *)
Fixpoint callApplyLoop_while (fuel : nat) (resultIndex numOutputRowsLeft : Z)
  : Exec Window unit :=
  if 0 <? numOutputRowsLeft then
    match fuel with
    | O => throw OutOfFuel
    | S fuel =>
        p <- currentPartition ;;
        w <- get ;;
        let rowsForCurrentPartition :=
          to_int32 (WindowPartition.numRows (snd p) - partitionOffset_ w) in
        if rowsForCurrentPartition <=? numOutputRowsLeft then
          callApplyForPartitionRows (partitionOffset_ w)
            (to_int32 (partitionOffset_ w + rowsForCurrentPartition))
            resultIndex ;;;
          let resultIndex := to_int32 (resultIndex + rowsForCurrentPartition) in
          let numOutputRowsLeft :=
            to_int32 (numOutputRowsLeft - rowsForCurrentPartition) in
          callResetPartition ;;;
          w <- get ;;
          match currentPartition_ w with
          | None => ret tt
          | Some _ => callApplyLoop_while fuel resultIndex numOutputRowsLeft
          end
        else
          callApplyForPartitionRows (partitionOffset_ w)
            (to_int32 (partitionOffset_ w + numOutputRowsLeft))
            resultIndex
    end
  else ret tt.

(** The partitions the build has not handed out yet. *)
Definition partitionsLeft (b : WindowBuild) : nat :=
  length (partitions b) - nextIndex b.

(** Window::callApplyLoop. *)
Definition callApplyLoop (numOutputRows : Z) : Exec Window unit :=
  p <- currentPartition ;;
  w <- get ;;
  callApplyLoop_while (S (partitionsLeft (windowBuild_ w))) 0 numOutputRows.

(** Window::getOutput: [None] is the null result, [Some n] a result vector
    of [n] rows. *)
Definition getOutput : Exec Window (option Z) :=
  w <- get ;;
  if numRows_ w =? 0 then ret None
  else
    let numRowsLeft := to_int32 (numRows_ w - numProcessedRows_ w) in
    if numRowsLeft =? 0 then ret None
    else
      (match currentPartition_ w with
       | None => callResetPartition
       | Some _ => ret tt
       end) ;;;
      w <- get ;;
      match currentPartition_ w with
      | None => ret None
      | Some _ =>
          let numOutputRows := Z.min (numRowsPerOutput_ w) numRowsLeft in
          callApplyLoop numOutputRows ;;;
          ret (Some numOutputRows)
      end.

(** Successive [getOutput] calls, up to the first that throws. *)
Fixpoint getOutputs (n : nat) : Exec Window (list (option Z)) :=
  match n with
  | O => ret []
  | S n => out <- getOutput ;; outs <- getOutputs n ;; ret (out :: outs)
  end.

(** ** Construction and input *)

(** The inner loop of Window::createWindowFunctions over the arguments of
    one function call: a constant argument gives its constant vector, any
    other argument its column. *)
Fixpoint functionArgs (args : list TypedExpr) : Outcome (list WindowFunctionArg) :=
  match args with
  | [] => Returned []
  | arg :: rest =>
      let channel := exprToChannel arg in
      match
        (if channel =? kConstantChannel then
           match arg with
           | ConstantTypedExpr t v =>
               Returned {| arg_type := t; constantValue := Some v;
                           arg_index := None |}
           | FieldAccessTypedExpr _ _ =>
               (* the dynamic cast to a constant expression gives null *)
               Thrown NullDereference
           end
         else
           Returned {| arg_type := expr_type arg; constantValue := None;
                       arg_index := Some channel |})
      with
      | Thrown e => Thrown e
      | Returned a =>
          match functionArgs rest with
          | Thrown e => Thrown e
          | Returned others => Returned (a :: others)
          end
      end
  end.

Fixpoint signature_eqb (a b : list TypeKind) : bool :=
  match a, b with
  | [], [] => true
  | x :: a, y :: b => TypeKind_eqb x y && signature_eqb a b
  | _, _ => false
  end.

(** Modelled from the spec: [WindowFunction::create] is defined outside the
    given sources.  It gives the function instance, and fails with a user
    error that names the function if the name is not registered, or that
    names the function and the attempted signature if no registered
    signature matches the argument types (section 6).  Its other arguments
    (result type, memory pool, string allocator, query configuration) do not
    enter the model. *)
Definition create (f : WindowFunction) (args : list WindowFunctionArg)
  : Outcome WindowFunction :=
  match signatures f with
  | None => Thrown (VeloxUserError (WindowFunctionNotRegistered (name f)))
  | Some registered =>
      if existsb (signature_eqb (map arg_type args)) registered
      then Returned f
      else Thrown (VeloxUserError
                     (WindowFunctionSignatureNotSupported (name f)
                        (map arg_type args)))
  end.

(** Window::createWindowFunctions: for each function of the plan node, in
    order, the arguments of the call, the function instance, then the frame;
    the first of these to fail aborts the construction. *)
Fixpoint createWindowFunctions (functions : list (WindowFunction * Frame))
  : Outcome (list WindowFunction * list WindowFrame) :=
  match functions with
  | [] => Returned ([], [])
  | (f, frame) :: rest =>
      match functionArgs (inputs f) with
      | Thrown e => Thrown e
      | Returned args =>
          match create f args with
          | Thrown e => Thrown e
          | Returned fn =>
              match createWindowFrame frame with
              | Thrown e => Thrown e
              | Returned wf =>
                  match createWindowFunctions rest with
                  | Thrown e => Thrown e
                  | Returned (fs, wfs) => Returned (fn :: fs, wf :: wfs)
                  end
              end
          end
      end
  end.

(** The constructor, with Window::createPeerAndFrameBuffers: every buffer is
    allocated once, sized to the output budget [numRowsPerOutput] (the value
    of [outputBatchRows]). *)
Definition Window_new (functions : list (WindowFunction * Frame))
    (numRowsPerOutput : Z) : Outcome Window :=
  match createWindowFunctions functions with
  | Thrown e => Thrown e
  | Returned (fs, wfs) =>
      let size := Z.to_nat numRowsPerOutput in
      Returned
        {| windowFunctions_ := fs;
           windowFrames_ := wfs;
           windowBuild_ := {| partitions := []; nextIndex := 0 |};
           currentPartition_ := None;
           numRows_ := 0;
           numRowsPerOutput_ := numRowsPerOutput;
           numProcessedRows_ := 0;
           partitionOffset_ := 0;
           peerStartRow_ := 0;
           peerEndRow_ := 0;
           peerStartBuffer_ := replicate size 0;
           peerEndBuffer_ := replicate size 0;
           frameStartBuffers_ := replicate (length fs) (replicate size 0);
           frameEndBuffers_ := replicate (length fs) (replicate size 0);
           validFrames_ := replicate (length fs) (replicate size true);
           calls := [] |}
  end.

(** Window::addInput for a batch of [size] rows; the rows themselves go to the
    window build. *)
Definition addInput (size : Z) : Exec Window unit :=
  modify (fun w => set_numRows_ (to_int32 (numRows_ w + size)) w).

(** Window::noMoreInput.  The window build sorts the rows it was given and
    cuts them into partitions; [built] stands for what it makes iterable. *)
Definition noMoreInput (built : list WindowPartition) : Exec Window unit :=
  w <- get ;;
  if numRows_ w =? 0 then ret tt
  else modify (set_windowBuild_ {| partitions := built; nextIndex := 0 |}).

(** ** A concrete partition, for the examples *)

(** The partitions of the examples group their rows into peers by one
    ORDER BY key per row.  [peerGroupEnd] is the first row at or after [from]
    whose key differs from [key], or the end of [keys]. *)
Fixpoint peerGroupEnd (key : Z) (keys : list Z) (from : Z) : Z :=
  match keys with
  | [] => from
  | k :: rest => if k =? key then peerGroupEnd key rest (from + 1) else from
  end.

(** Peer boundaries of the rows [i, i + length todo) of a partition with
    ORDER BY keys [keys], continuing from the peer group [peerStart, peerEnd). *)
Fixpoint peersFrom (keys : list Z) (todo : list nat) (i : Z) (j : nat)
    (peerStart peerEnd : Z) (rawPeerStarts rawPeerEnds : list Z)
  : (Z * Z) * (list Z * list Z) :=
  match todo with
  | [] => ((peerStart, peerEnd), (rawPeerStarts, rawPeerEnds))
  | _ :: todo =>
      let '(peerStart, peerEnd) :=
        if (i =? 0) || (peerEnd <=? i)
        then (i, peerGroupEnd (default 0 (keys !! Z.to_nat i))
                   (drop (Z.to_nat i) keys) i)
        else (peerStart, peerEnd) in
      peersFrom keys todo (i + 1) (S j) peerStart peerEnd
        (<[j := peerStart]> rawPeerStarts) (<[j := peerEnd - 1]> rawPeerEnds)
  end.

(** A partition with one ORDER BY key per row and the given integer columns. *)
Definition keyedPartition (keys : list Z) (cols : Z -> list (option Z))
  : WindowPartition :=
  {| WindowPartition.numRows := Z.of_nat (length keys);
     WindowPartition.columns := cols;
     WindowPartition.computePeerBuffers :=
       fun startRow endRow prevPeerStart prevPeerEnd rawPeerStarts rawPeerEnds =>
         peersFrom keys (seq 0 (Z.to_nat (endRow - startRow))) startRow 0
           prevPeerStart prevPeerEnd rawPeerStarts rawPeerEnds |}.

Definition noColumns : Z -> list (option Z) := fun _ => [].

(** An operator is set up, fed [numRows] rows and told there is no more
    input; [built] are the partitions of those rows. *)
Definition setup (functions : list (WindowFunction * Frame))
    (numRowsPerOutput : Z) (numRows : Z) (built : list WindowPartition)
  : Outcome Window :=
  match Window_new functions numRowsPerOutput with
  | Thrown e => Thrown e
  | Returned w =>
      match (addInput numRows ;;; noMoreInput built) w with
      | (w, Returned _) => Returned w
      | (_, Thrown e) => Thrown e
      end
  end.

Definition rowsFrame (startType endType : BoundType)
    (startValue endValue : option TypedExpr) : Frame :=
  {| type := kRows; startType := startType; startValue := startValue;
     endType := endType; endValue := endValue |}.

Definition rangeFrame (startType endType : BoundType)
    (startValue endValue : option TypedExpr) : Frame :=
  {| type := kRange; startType := startType; startValue := startValue;
     endType := endType; endValue := endValue |}.

(** A registered function over one BIGINT column. *)
Definition sum_fn : WindowFunction :=
  {| name := 0; inputs := [FieldAccessTypedExpr BIGINT 0];
     ignoreNulls := false; signatures := Some [[BIGINT]; [DOUBLE]] |}.

(** ** Notions used by the statements *)

(** The buffer after the stores [buf[i] = f i], for [i] through [indices]. *)
Definition stored (f : nat -> Z) (indices : list nat) (buf : list Z) : list Z :=
  fold_left (fun b i => <[i := f i]> b) indices buf.

(** The bound kind [updateFrameBounds] switches on. *)
Definition boundTypeOf (windowFrame : WindowFrame) (isStartBound : bool)
  : BoundType :=
  if isStartBound then wf_startType windowFrame else wf_endType windowFrame.

(** The peer buffer a RANGE CURRENT ROW bound is copied from. *)
Definition peerBufferOf (isStartBound : bool) (rawPeerStarts rawPeerEnds : list Z)
  : list Z :=
  if isStartBound then rawPeerStarts else rawPeerEnds.

(** The offset a K bound adds to the row index: negated for K PRECEDING. *)
Definition signedOffset (isKPreceding : bool) (offset : Z) : Z :=
  if isKPreceding then - offset else offset.

(** Row [i] of the offset column passes both checks. *)
Definition offsetValid (value : Vector) (i : nat) : bool :=
  negb (isNullAt value i) && (0 <=? offset_at value i).

(** The error the checks raise at an offending row [i]. *)
Definition offsetError (value : Vector) (i : nat) : VeloxError :=
  if isNullAt value i then VeloxUserError OffsetMustNotBeNull
  else VeloxUserError (OffsetMustNotBeNegative (offset_at value i)).

Definition checkOffset (value : Vector) (i : nat) : Exec (list Z) unit :=
  check (negb (isNullAt value i)) (VeloxUserError OffsetMustNotBeNull) ;;;
  check (0 <=? offset_at value i)
    (VeloxUserError (OffsetMustNotBeNegative (offset_at value i))).

(** The bound as the write loop computes it: the product with the factor is
    narrowed to 32 bits first, then added to the row index. *)
Definition narrowedBound (T : IntKind) (isKPreceding : bool) (startRow : Z)
    (offset : Z) (i : nat) : Z :=
  to_int32 (to_int32 (startRow + Z.of_nat i)
            + to_int32 (cast T ((if isKPreceding then -1 else 1) * offset))).

(** The exact bound, as an integer. *)
Definition exactBound (isKPreceding : bool) (startRow : Z) (offset : Z)
    (i : nat) : Z :=
  (startRow + Z.of_nat i) + signedOffset isKPreceding offset.

(** A BIGINT offset column whose only row holds 2^31. *)
Definition bigOffsetColumn : Vector :=
  {| typeKind := BIGINT; rows := [Some 2147483648] |}.

(** A BIGINT offset column with a null in its second row. *)
Definition nullOffsetColumn : Vector :=
  {| typeKind := BIGINT; rows := [Some 1; None; Some 3] |}.

(** A BIGINT offset column with small offsets. *)
Definition smallOffsetColumn : Vector :=
  {| typeKind := BIGINT; rows := [Some 1; Some 2] |}.

(** The frame argument of a constant offset, as createWindowFrame builds it. *)
Definition constantArg (offset : Z) : FrameChannelArg :=
  {| index := kConstantChannel; value := None; constant := Some offset |}.

(** The validity test of computeValidFrames on the raw bounds of one row. *)
Definition validFrame (lastRow frameStart frameEnd : Z) : bool :=
  (frameStart <=? frameEnd) && (0 <=? frameEnd) && (frameStart <=? lastRow).

(** What the loop of computeValidFrames has established after its first [n]
    iterations on the buffers [rawFrameStarts], [rawFrameEnds] and the
    selector [validFrames]. *)
Definition repaired_upto (lastRow : Z) (rawFrameStarts rawFrameEnds : list Z)
    (validFrames : list bool) (n : nat) (st : list Z * list Z * list bool)
  : Prop :=
  let '(starts, ends, valid) := st in
  length starts = length rawFrameStarts
  /\ length ends = length rawFrameEnds
  /\ forall i : nat,
      ((i < n)%nat ->
       let frameStart := load rawFrameStarts i in
       let frameEnd := load rawFrameEnds i in
       if validFrame lastRow frameStart frameEnd
       then load starts i = Z.max frameStart 0
            /\ load ends i = Z.min frameEnd lastRow
            /\ valid !! i = validFrames !! i
       else load starts i = frameStart
            /\ load ends i = frameEnd
            /\ valid !! i = (fun _ => false) <$> validFrames !! i)
      /\ ((n <= i)%nat ->
          starts !! i = rawFrameStarts !! i
          /\ ends !! i = rawFrameEnds !! i
          /\ valid !! i = validFrames !! i).

(** K PRECEDING or K FOLLOWING. *)
Definition isKBound (b : BoundType) : bool :=
  match b with
  | kPreceding | kFollowing => true
  | _ => false
  end.

(** A bound value createFrameChannelArg builds an argument from: absent, a
    non-null non-negative constant, or a column. *)
Definition boundValueAccepted (e : option TypedExpr) : bool :=
  match e with
  | None => true
  | Some (ConstantTypedExpr _ (Some v)) => 0 <=? v
  | Some (ConstantTypedExpr _ None) => false
  | Some (FieldAccessTypedExpr _ c) => negb (c =? kConstantChannel)
  end.

(** RANGE BETWEEN 1 PRECEDING AND CURRENT ROW. *)
Definition rangeKFrame : Frame :=
  rangeFrame kPreceding kCurrentRow (Some (ConstantTypedExpr BIGINT (Some 1))) None.

(** [m] leaves the observation [f] of the state as it found it, whether it
    returns or throws. *)
Definition preserves {S A X} (f : S -> X) (m : Exec S A) : Prop :=
  forall s, f (fst (m s)) = f s.

(** Everything of the operator state but the per-function frame buffers and
    validity selectors. *)
Definition core (w : Window) :=
  (windowFunctions_ w, windowFrames_ w, windowBuild_ w, currentPartition_ w,
   numRows_ w, numRowsPerOutput_ w, numProcessedRows_ w, partitionOffset_ w,
   peerStartRow_ w, peerEndRow_ w, peerStartBuffer_ w, peerEndBuffer_ w,
   calls w).

(** The frame buffers and the validity selector of function [i]. *)
Definition buffersOf (i : nat) (w : Window) :=
  (frameStartBuffers_ w !! i, frameEndBuffers_ w !! i, validFrames_ w !! i).

(** The operator state once computePeerAndFrameBuffers has filled the peer
    buffers of the slice and stored the continuation pair, before its loop
    over the functions. *)
Definition afterPeers (w : Window) (p : nat * WindowPartition)
    (startRow endRow : Z) : Window :=
  let '((newPeerStart, newPeerEnd), (rawPeerStarts, rawPeerEnds)) :=
    WindowPartition.computePeerBuffers (snd p) startRow endRow
      (peerStartRow_ w) (peerEndRow_ w)
      (peerStartBuffer_ w) (peerEndBuffer_ w) in
  let w1 :=
    set_peerEndRow_ newPeerEnd
      (set_peerStartRow_ newPeerStart
         (set_peerEndBuffer_ rawPeerEnds
            (set_peerStartBuffer_ rawPeerStarts w))) in
  set_calls
    (calls w1 ++ [ComputePeerBuffers (fst p) startRow endRow
                    (peerStartRow_ w) (peerEndRow_ w) newPeerStart newPeerEnd])
    w1.

(** The bound buffer of one side as [updateFrameBounds] leaves it. *)
Definition resolvedBounds (w : Window) (p : nat * WindowPartition)
    (windowFrame : WindowFrame) (isStartBound : bool) (startRow numRows : Z)
    (buf : list Z) : list Z :=
  fst (updateFrameBounds (snd p) (partitionOffset_ w) windowFrame isStartBound
         startRow numRows (peerStartBuffer_ w) (peerEndBuffer_ w) buf).

(** ROWS BETWEEN UNBOUNDED PRECEDING AND CURRENT ROW. *)
Definition runningFrame : Frame :=
  rowsFrame kUnboundedPreceding kCurrentRow None None.

(** ROWS BETWEEN UNBOUNDED FOLLOWING AND UNBOUNDED PRECEDING: no K bound, and
    inverted on every partition of two rows or more. *)
Definition invertedFrame : Frame :=
  rowsFrame kUnboundedFollowing kUnboundedPreceding None None.

(** An operator without functions, partitions or rows. *)
Definition emptyWindow : Window :=
  {| windowFunctions_ := []; windowFrames_ := [];
     windowBuild_ := {| partitions := []; nextIndex := 0 |};
     currentPartition_ := None; numRows_ := 0; numRowsPerOutput_ := 0;
     numProcessedRows_ := 0; partitionOffset_ := 0; peerStartRow_ := 0;
     peerEndRow_ := 0; peerStartBuffer_ := []; peerEndBuffer_ := [];
     frameStartBuffers_ := []; frameEndBuffers_ := []; validFrames_ := [];
     calls := [] |}.

(** The operator of [setup], or the empty one if the set-up throws. *)
Definition ready (functions : list (WindowFunction * Frame))
    (numRowsPerOutput : Z) (numRows : Z) (built : list WindowPartition)
  : Window :=
  match setup functions numRowsPerOutput numRows built with
  | Returned w => w
  | Thrown _ => emptyWindow
  end.

(** The same once its first partition is current. *)
Definition started (functions : list (WindowFunction * Frame))
    (numRowsPerOutput : Z) (numRows : Z) (built : list WindowPartition)
  : Window :=
  fst (callResetPartition (ready functions numRowsPerOutput numRows built)).

(** One function over the inverted frame, on one partition of three rows. *)
Definition invertedExample : Window :=
  started [(sum_fn, invertedFrame)] 4 3 [keyedPartition [1; 2; 3] noColumns].

(** ** Notions used by the statements about runs *)

(** The partition a call is about. *)
Definition partitionOf (c : Call) : nat :=
  match c with
  | ResetPartition _ q => q
  | ComputePeerBuffers q _ _ _ _ _ _ => q
  | Apply _ q _ _ _ => q
  end.

(** Where the cursor of its partition stands once the slice of a call is
    done: at the end of the slice, and at 0 after a reset. *)
Definition posAfter (c : Call) : Z :=
  match c with
  | ResetPartition _ _ => 0
  | ComputePeerBuffers _ _ endRow _ _ _ _ => endRow
  | Apply _ _ _ endRow _ => endRow
  end.

(** The first row of the slice of a call (0 for a reset). *)
Definition startOf (c : Call) : Z :=
  match c with
  | ResetPartition _ _ => 0
  | ComputePeerBuffers _ startRow _ _ _ _ _ => startRow
  | Apply _ _ startRow _ _ => startRow
  end.

Definition isReset (c : Call) : bool :=
  match c with
  | ResetPartition _ _ => true
  | _ => false
  end.

Definition isPeers (c : Call) : bool :=
  match c with
  | ComputePeerBuffers _ _ _ _ _ _ _ => true
  | _ => false
  end.

(** The row count of the partition at position [q] of the build. *)
Definition rowsOf (parts : list WindowPartition) (q : nat) : Z :=
  match parts !! q with
  | Some p => WindowPartition.numRows p
  | None => 0
  end.

(** The total row count of a list of partitions. *)
Definition totalRows (parts : list WindowPartition) : Z :=
  fold_right (fun p n => WindowPartition.numRows p + n) 0 parts.

(** The rows of the partitions before position [q]. *)
Definition rowsBefore (parts : list WindowPartition) (q : nat) : Z :=
  totalRows (take q parts).

(** The call is for a slice that ends at the last row of its partition. *)
Definition closes (parts : list WindowPartition) (c : Call) : Prop :=
  posAfter c = rowsOf parts (partitionOf c).

(** Whenever two successive calls are about different partitions, the first
    of the two closes its partition. *)
Fixpoint adjacentOk (parts : list WindowPartition) (tr : list Call) : Prop :=
  match tr with
  | c1 :: rest =>
      match rest with
      | c2 :: _ => (partitionOf c1 <> partitionOf c2 -> closes parts c1)
      | [] => True
      end /\ adjacentOk parts rest
  | [] => True
  end.

(** The calls about partition [q], in order. *)
Definition callsOn (q : nat) (tr : list Call) : list Call :=
  List.filter (fun c => partitionOf c =? q)%nat tr.

(** The peer computations on partition [q], in order. *)
Definition peersOf (q : nat) (tr : list Call) : list Call :=
  List.filter isPeers (callsOn q tr).

(** [resetPartition] on every function instance, in order. *)
Definition resets (numFuncs : nat) (q : nat) : list Call :=
  map (fun i => ResetPartition i q) (seq 0 numFuncs).

(** [apply] on every function instance, in order. *)
Definition applies (numFuncs : nat) (q : nat) (startRow endRow resultOffset : Z)
  : list Call :=
  map (fun i => Apply i q startRow endRow resultOffset) (seq 0 numFuncs).

(** A sequence of peer computations on one partition is chained from the
    continuation pair [(seedStart, seedEnd)] and the cursor [cursor]: each
    one starts at the cursor, is given the pair the one before returned and
    leaves the cursor at the end of its slice. *)
Fixpoint chained (seedStart seedEnd cursor : Z) (evs : list Call) : Prop :=
  match evs with
  | [] => True
  | ComputePeerBuffers _ startRow endRow prevStart prevEnd newStart newEnd :: rest =>
      startRow = cursor /\ prevStart = seedStart /\ prevEnd = seedEnd
      /\ chained newStart newEnd endRow rest
  | _ :: _ => False
  end.

(** The continuation pair and the cursor a chain ends with. *)
Fixpoint chainLast (st : Z * Z * Z) (evs : list Call) : Z * Z * Z :=
  match evs with
  | [] => st
  | ComputePeerBuffers _ _ endRow _ _ newStart newEnd :: rest =>
      chainLast (newStart, newEnd, endRow) rest
  | _ :: rest => chainLast st rest
  end.

(** The slices [(partition, startRow, endRow)] that were processed. *)
Definition slicesOf (tr : list Call) : list (nat * Z * Z) :=
  flat_map (fun c =>
    match c with
    | ComputePeerBuffers q startRow endRow _ _ _ _ => [(q, startRow, endRow)]
    | _ => []
    end) tr.

(** The batching rule in the words of the specification: with [budget] rows
    still wanted and the cursor at [cursor] in the first of [parts] (which
    has position [q]), take the rest of the partition when it fits in the
    budget and go on with the next partition, else take exactly the budget
    and stop inside the partition. *)
Fixpoint planSlices (parts : list WindowPartition) (q : nat)
    (cursor budget : Z) : list (nat * Z * Z) :=
  match parts with
  | [] => []
  | p :: rest =>
      if 0 <? budget then
        let remaining := WindowPartition.numRows p - cursor in
        if remaining <=? budget
        then (q, cursor, WindowPartition.numRows p)
             :: planSlices rest (S q) 0 (budget - remaining)
        else [(q, cursor, cursor + budget)]
      else []
  end.

(** The output sizes in the words of the specification: each of [n] calls
    yields [min(budget, rows not yet processed)] rows, and no output once no
    rows are left. *)
Fixpoint batchSizes (budget remaining : Z) (n : nat) : list (option Z) :=
  match n with
  | O => []
  | S n =>
      if remaining =? 0 then None :: batchSizes budget remaining n
      else Some (Z.min budget remaining)
           :: batchSizes budget (remaining - Z.min budget remaining) n
  end.

(** The partition the operator is in, with its continuation pair and cursor. *)
Definition position (w : Window) : option (nat * (Z * Z * Z)) :=
  match currentPartition_ w with
  | Some (q, _) => Some (q, (peerStartRow_ w, peerEndRow_ w, partitionOffset_ w))
  | None => None
  end.

(** What holds of the calls made so far, when [n] partitions have been handed
    out and the operator is at [cur]. *)
Record TraceInv (parts : list WindowPartition) (numFuncs : nat) (n : nat)
    (cur : option (nat * (Z * Z * Z))) (tr : list Call) : Prop := {
  tr_known : forall c, In c tr -> (partitionOf c < n)%nat;
  tr_resets : forall q, (q < n)%nat ->
    exists rest, callsOn q tr = resets numFuncs q ++ rest
                 /\ Forall (fun c => isReset c = false) rest;
  tr_adjacent : adjacentOk parts tr;
  tr_last : forall c, last tr = Some c ->
    closes parts c
    \/ exists a b, cur = Some (partitionOf c, (a, b, posAfter c));
  tr_chained : forall q, (q < n)%nat ->
    chained 0 0 0 (peersOf q tr)
    /\ forall st, cur = Some (q, st) -> chainLast (0, 0, 0) (peersOf q tr) = st;
  tr_inside : forall c, In c tr -> isReset c = false ->
    0 <= startOf c < posAfter c
    /\ posAfter c <= rowsOf parts (partitionOf c)
}.

(** The invariant of the operator between the steps of its batching loop. *)
Record Inv (w : Window) : Prop := {
  inv_frames : length (windowFrames_ w) = length (windowFunctions_ w);
  inv_nonempty :
    Forall (fun p => 1 <= WindowPartition.numRows p) (partitions (windowBuild_ w));
  inv_total : numRows_ w = totalRows (partitions (windowBuild_ w));
  inv_max : numRows_ w <= max_signed 32;
  inv_budget : 0 <= numRowsPerOutput_ w;
  inv_next : (nextIndex (windowBuild_ w) <= length (partitions (windowBuild_ w)))%nat;
  inv_current :
    match currentPartition_ w with
    | Some (q, p) =>
        partitions (windowBuild_ w) !! q = Some p
        /\ nextIndex (windowBuild_ w) = S q
        /\ 0 <= partitionOffset_ w <= WindowPartition.numRows p
        /\ numProcessedRows_ w
           = rowsBefore (partitions (windowBuild_ w)) q + partitionOffset_ w
    | None =>
        numProcessedRows_ w
        = rowsBefore (partitions (windowBuild_ w)) (nextIndex (windowBuild_ w))
    end;
  inv_trace :
    TraceInv (partitions (windowBuild_ w)) (length (windowFunctions_ w))
      (nextIndex (windowBuild_ w)) (position w) (calls w)
}.

(** Between output calls the cursor is inside the current partition. *)
Definition AtRest (w : Window) : Prop :=
  forall q p, currentPartition_ w = Some (q, p) ->
    partitionOffset_ w < WindowPartition.numRows p.

(** Bound resolution of this side cannot throw: no K bound, or a K bound
    under ROWS with a constant offset. *)
Definition sideResolves (windowFrame : WindowFrame) (isStartBound : bool) : bool :=
  if isKBound (boundTypeOf windowFrame isStartBound) then
    match wf_type windowFrame,
          (if isStartBound then start windowFrame else end_ windowFrame) with
    | kRows, Some arg =>
        (index arg =? kConstantChannel) && has_value (constant arg)
    | _, _ => false
    end
  else true.

(** No frame of the operator can make bound resolution throw. *)
Definition neverThrows (w : Window) : bool :=
  forallb (fun windowFrame =>
             sideResolves windowFrame true && sideResolves windowFrame false)
    (windowFrames_ w).

(** The state [callResetPartition] leaves. *)
Definition resetState (w : Window) : Window :=
  let w1 :=
    set_currentPartition_ None
      (set_peerEndRow_ 0 (set_peerStartRow_ 0 (set_partitionOffset_ 0 w))) in
  match partitions (windowBuild_ w) !! nextIndex (windowBuild_ w) with
  | Some p =>
      let q := nextIndex (windowBuild_ w) in
      set_calls (calls w ++ resets (length (windowFunctions_ w)) q)
        (set_currentPartition_ (Some (q, p))
           (set_windowBuild_
              {| partitions := partitions (windowBuild_ w); nextIndex := S q |}
              w1))
  | None => w1
  end.

(** The two states belong to the same operator over the same partitions. *)
Definition sameSetup (w w' : Window) : Prop :=
  windowFunctions_ w' = windowFunctions_ w
  /\ windowFrames_ w' = windowFrames_ w
  /\ numRows_ w' = numRows_ w
  /\ numRowsPerOutput_ w' = numRowsPerOutput_ w
  /\ partitions (windowBuild_ w') = partitions (windowBuild_ w).

(** The partition and the row the next slice starts at: the cursor in the
    current partition, or the first row of the next partition to hand out. *)
Definition nextRow (w : Window) : nat * Z :=
  match currentPartition_ w with
  | Some (q, _) => (q, partitionOffset_ w)
  | None => (nextIndex (windowBuild_ w), 0)
  end.

(** The rows the operator has still to output. *)
Definition rowsLeft (w : Window) : Z := numRows_ w - numProcessedRows_ w.

(** The slices one output call has to process, by the batching rule. *)
Definition plannedSlices (w : Window) : list (nat * Z * Z) :=
  planSlices (drop (fst (nextRow w)) (partitions (windowBuild_ w)))
    (fst (nextRow w)) (snd (nextRow w))
    (Z.min (numRowsPerOutput_ w) (rowsLeft w)).

(** Where the batching rule leaves the cursor: the partition and the row the
    slice after the planned ones starts at. *)
Fixpoint planEnd (parts : list WindowPartition) (q : nat)
    (cursor budget : Z) : nat * Z :=
  match parts with
  | [] => (q, cursor)
  | p :: rest =>
      if 0 <? budget then
        let remaining := WindowPartition.numRows p - cursor in
        if remaining <=? budget
        then planEnd rest (S q) 0 (budget - remaining)
        else (q, cursor + budget)
      else (q, cursor)
  end.

(** Where one output call has to leave the cursor, by the batching rule. *)
Definition plannedEnd (w : Window) : nat * Z :=
  planEnd (drop (fst (nextRow w)) (partitions (windowBuild_ w)))
    (fst (nextRow w)) (snd (nextRow w))
    (Z.min (numRowsPerOutput_ w) (rowsLeft w)).

(** [w] is an operator right after its input was finalized: it was set up
    for [functions] with the output budget [budget], took in [total] rows,
    and the build cut them into the non-empty partitions [built]. *)
Definition Finalized (functions : list (WindowFunction * Frame))
    (budget total : Z) (built : list WindowPartition) (w : Window) : Prop :=
  setup functions budget total built = Returned w
  /\ 0 <= budget
  /\ Forall (fun p => 1 <= WindowPartition.numRows p) built
  /\ totalRows built = total
  /\ total <= max_signed 32.

(** One partition of ten rows in five peer groups. *)
Definition tenRows : WindowPartition :=
  keyedPartition [1; 1; 2; 2; 2; 3; 4; 4; 5; 5] noColumns.

(** Two functions over a running frame and a frame of the two rows before,
    output budget 4, on one partition of ten rows. *)
Definition tenRowsExample : Window :=
  ready [(sum_fn, runningFrame);
         (sum_fn, rowsFrame kPreceding kCurrentRow
                    (Some (ConstantTypedExpr BIGINT (Some 2))) None)]
    4 10 [tenRows].

(** The same functions with output budget 4 on partitions of 3, 2 and 6 rows. *)
Definition threePartitionsExample : Window :=
  ready [(sum_fn, runningFrame);
         (sum_fn, rowsFrame kPreceding kCurrentRow
                    (Some (ConstantTypedExpr BIGINT (Some 2))) None)]
    4 11
    [keyedPartition [1; 1; 2] noColumns;
     keyedPartition [7; 8] noColumns;
     keyedPartition [1; 2; 2; 2; 3; 3] noColumns].

(** The frame buffers and the selector of function 0 after one output call,
    with the outcome of the call. *)
Definition firstBatch (w : Window)
  : Outcome (option Z) * (list Z * list Z * list bool) :=
  let '(w', out) := getOutput w in
  (out,
   (default [] (frameStartBuffers_ w' !! 0%nat),
    default [] (frameEndBuffers_ w' !! 0%nat),
    default [] (validFrames_ w' !! 0%nat))).

(** An offset column on channel 0. *)
Definition offsetColumn (offsets : list (option Z)) : Z -> list (option Z) :=
  fun channel => if channel =? 0 then offsets else [].

(** ** Notions used by the statements about set-up *)

(** The test of the [frameBoundCheck] lambda: the bound value is absent, or
    of type INTEGER or BIGINT. *)
Definition boundTypeChecked (e : option TypedExpr) : bool :=
  match e with
  | None => true
  | Some e =>
      TypeKind_eqb (expr_type e) INTEGER || TypeKind_eqb (expr_type e) BIGINT
  end.

(** The bound kind and the bound value of one side of a plan frame. *)
Definition planBoundType (frame : Frame) (isStartBound : bool) : BoundType :=
  if isStartBound then startType frame else endType frame.

Definition planBoundValue (frame : Frame) (isStartBound : bool)
  : option TypedExpr :=
  if isStartBound then startValue frame else endValue frame.

(** This side of the plan frame has no K bound, or a K bound under ROWS whose
    offset is a constant expression. *)
Definition constantOrNoK (frame : Frame) (isStartBound : bool) : bool :=
  if isKBound (planBoundType frame isStartBound) then
    match type frame, planBoundValue frame isStartBound with
    | kRows, Some (ConstantTypedExpr _ _) => true
    | _, _ => false
    end
  else true.

(** ROWS BETWEEN 2 PRECEDING AND CURRENT ROW. *)
Definition twoPrecedingFrame : Frame :=
  rowsFrame kPreceding kCurrentRow (Some (ConstantTypedExpr BIGINT (Some 2))) None.

(** ** Notions used by the statements about bound resolution *)

(** The raw-buffer computation [m] stores at rows below [n] only, keeps the
    length of the buffer, and has stored nothing when it throws. *)
Definition storesBelow (n : nat) (m : Exec (list Z) unit) : Prop :=
  forall buf,
    length (fst (m buf)) = length buf
    /\ (forall i, (n <= i)%nat -> fst (m buf) !! i = buf !! i)
    /\ (forall e, snd (m buf) = Thrown e -> fst (m buf) = buf).

(** The offset that row [i] of a slice reads from the column [channel] when
    the slice starts at row [offset] of the partition: [None] for a null. *)
Definition columnOffsetAt (p : WindowPartition) (channel offset : Z) (i : nat)
  : option Z :=
  default None (WindowPartition.columns p channel !! (Z.to_nat offset + i)%nat).

(** The sign a K bound gives its offset. *)
Definition precedingFactor (boundType : BoundType) : Z :=
  match boundType with
  | kPreceding => -1
  | _ => 1
  end.

(** The operator frame of ROWS BETWEEN (column 0) PRECEDING AND CURRENT ROW,
    with a BIGINT offset column. *)
Definition columnPrecedingFrame : WindowFrame :=
  {| wf_type := kRows; wf_startType := kPreceding; wf_endType := kCurrentRow;
     start := Some {| index := 0; value := Some BIGINT; constant := None |};
     end_ := None |}.

(** The constant offset of one side of an operator frame (0 if there is
    none). *)
Definition sideConstant (windowFrame : WindowFrame) (isStartBound : bool) : Z :=
  match (if isStartBound then start windowFrame else end_ windowFrame) with
  | Some arg => default 0 (constant arg)
  | None => 0
  end.

(** The raw bound of the partition row [row] under ROWS, as an integer, for
    a bound kind with the constant offset [offset] on a partition whose last
    row is [lastRow]. *)
Definition rowsBoundOf (boundType : BoundType) (offset lastRow row : Z) : Z :=
  match boundType with
  | kUnboundedPreceding => 0
  | kUnboundedFollowing => lastRow
  | kCurrentRow => row
  | kPreceding => row - offset
  | kFollowing => row + offset
  end.

(** A start bound at or before the current row, and an end bound at or after
    it. *)
Definition startsAtOrBeforeRow (boundType : BoundType) : bool :=
  match boundType with
  | kUnboundedPreceding | kPreceding | kCurrentRow => true
  | _ => false
  end.

Definition endsAtOrAfterRow (boundType : BoundType) : bool :=
  match boundType with
  | kCurrentRow | kFollowing | kUnboundedFollowing => true
  | _ => false
  end.

(** The constant offset of this side is non-negative and small enough for
    the row index of the partition [p] plus the offset to fit in 32 bits. *)
Definition offsetFits (p : WindowPartition) (windowFrame : WindowFrame)
    (isStartBound : bool) : Prop :=
  0 <= sideConstant windowFrame isStartBound
  /\ WindowPartition.numRows p + sideConstant windowFrame isStartBound
     <= max_signed 32.

(** What the frame buffers and the selector of a function hold for the rows
    of a slice that starts at [startRow], for a ROWS frame with constant
    offsets on a partition [p]: with a frame argument the raw bounds go
    through validity repair, without one they are taken as they are. *)
Definition rowsFrameResolved (p : WindowPartition) (windowFrame : WindowFrame)
    (startRow : Z) (n : nat) (starts ends : list Z) (valid : list bool) : Prop :=
  forall r, (r < n)%nat ->
    let lastRow := WindowPartition.numRows p - 1 in
    let row := startRow + Z.of_nat r in
    let s := rowsBoundOf (wf_startType windowFrame)
               (sideConstant windowFrame true) lastRow row in
    let e := rowsBoundOf (wf_endType windowFrame)
               (sideConstant windowFrame false) lastRow row in
    if has_value (start windowFrame) || has_value (end_ windowFrame) then
      valid !! r = Some (validFrame lastRow s e)
      /\ load starts r = (if validFrame lastRow s e then Z.max s 0 else s)
      /\ load ends r = (if validFrame lastRow s e then Z.min e lastRow else e)
    else
      valid !! r = Some true /\ load starts r = s /\ load ends r = e.

(** The operator frame createWindowFrame builds for [twoPrecedingFrame]. *)
Definition twoPrecedingWindowFrame : WindowFrame :=
  {| wf_type := kRows; wf_startType := kPreceding; wf_endType := kCurrentRow;
     start := Some (constantArg 2); end_ := None |}.

Definition fiveRows : WindowPartition :=
  keyedPartition [1; 1; 2; 3; 3] noColumns.

(** One function over ROWS BETWEEN 2 PRECEDING AND CURRENT ROW, output budget
    5, with its only partition, of five rows, current. *)
Definition slidingExample : Window :=
  started [(sum_fn, twoPrecedingFrame)] 5 5 [fiveRows].

(** ** Notions used by the statements about the order of the rows *)

(** The rows [(partition, row)] of a slice, in order. *)
Definition rowsOfSlice (s : nat * Z * Z) : list (nat * Z) :=
  let '(q, startRow, endRow) := s in
  map (fun r => (q, startRow + Z.of_nat r))
    (seq 0 (Z.to_nat (endRow - startRow))).

(** The rows of a sequence of slices, in order. *)
Definition rowsOfSlices (slices : list (nat * Z * Z)) : list (nat * Z) :=
  flat_map rowsOfSlice slices.

(** All rows of the partitions [parts], the first of which has position [q]
    in the build, in the order of the build. *)
Fixpoint allRows (parts : list WindowPartition) (q : nat) : list (nat * Z) :=
  match parts with
  | [] => []
  | p :: rest =>
      rowsOfSlice (q, 0, WindowPartition.numRows p) ++ allRows rest (S q)
  end.

(** The row count of the first of [parts] (0 if there is none). *)
Definition headRows (parts : list WindowPartition) : Z :=
  match parts with
  | p :: _ => WindowPartition.numRows p
  | [] => 0
  end.

(** The rows processed so far are the first [numProcessedRows_] rows of the
    build, in order. *)
Definition rowsInOrder (w : Window) : Prop :=
  rowsOfSlices (slicesOf (calls w))
  = take (Z.to_nat (numProcessedRows_ w))
      (allRows (partitions (windowBuild_ w)) 0).

(** One function whose K PRECEDING offset is column 0, output budget 4, with
    its only partition current; the column has a null in its second row. *)
Definition nullOffsetExample : Window :=
  started [(sum_fn, rowsFrame kPreceding kCurrentRow
                      (Some (FieldAccessTypedExpr BIGINT 0)) None)]
    4 3 [keyedPartition [1; 2; 3] (offsetColumn [Some 1; None; Some 2])].

(** ** Notions used by the statements about the result rows *)

Definition isApply (c : Call) : bool :=
  match c with
  | Apply _ _ _ _ _ => true
  | _ => false
  end.

(** The [apply] calls of the log, in order. *)
Definition appliesOf (tr : list Call) : list Call := List.filter isApply tr.

(** The [apply] calls that write the slices [slices] one after the other
    into the result, from the result row [resultOffset] on: for each slice
    one call per function, at the result row where the slices before it
    end. *)
Fixpoint appliesFor (numFuncs : nat) (resultOffset : Z)
    (slices : list (nat * Z * Z)) : list Call :=
  match slices with
  | [] => []
  | (q, startRow, endRow) :: rest =>
      applies numFuncs q startRow endRow resultOffset
      ++ appliesFor numFuncs (resultOffset + (endRow - startRow)) rest
  end.

(** The number of rows of a sequence of slices. *)
Definition sliceRows (slices : list (nat * Z * Z)) : Z :=
  fold_right (fun s n => (snd s - snd (fst s)) + n) 0 slices.

(** The lengths of the frame start buffers and of the frame end buffers. *)
Definition frameSizes (w : Window) : list nat * list nat :=
  (length <$> frameStartBuffers_ w, length <$> frameEndBuffers_ w).

(** Every slice processed so far has at most as many rows as the output
    budget. *)
Definition slicesFit (w : Window) : Prop :=
  Forall (fun s => snd s - snd (fst s) <= numRowsPerOutput_ w)
    (slicesOf (calls w)).

(** The user error the offset checks raise for an offending offset: null, or
    the negative value. *)
Definition columnOffsetError (offset : option Z) : VeloxError :=
  match offset with
  | None => VeloxUserError OffsetMustNotBeNull
  | Some x => VeloxUserError (OffsetMustNotBeNegative x)
  end.

(** The offset is null or negative. *)
Definition offendingOffset (offset : option Z) : Prop :=
  match offset with
  | None => True
  | Some x => x < 0
  end.

(** One function whose K PRECEDING offset is column 0, output budget 4, on
    one partition of three rows whose column has a null in its second row. *)
Definition nullOffsetFunctions : list (WindowFunction * Frame) :=
  [(sum_fn, rowsFrame kPreceding kCurrentRow
              (Some (FieldAccessTypedExpr BIGINT 0)) None)].

Definition nullOffsetPartition : WindowPartition :=
  keyedPartition [1; 2; 3] (offsetColumn [Some 1; None; Some 2]).

Definition nullOffsetReady : Window :=
  ready nullOffsetFunctions 4 3 [nullOffsetPartition].

(** ** Notions used by the statements about construction *)

(** The constructor gets the instance of the function call [f]: its
    arguments are gathered and [WindowFunction::create] returns. *)
Definition functionCreated (f : WindowFunction) : Prop :=
  exists args,
    functionArgs (inputs f) = Returned args /\ create f args = Returned f.

(** Getting the instance of the function call [f] fails with [e]: while
    gathering the arguments, or in [WindowFunction::create]. *)
Definition functionFails (f : WindowFunction) (e : VeloxError) : Prop :=
  functionArgs (inputs f) = Thrown e
  \/ exists args,
       functionArgs (inputs f) = Returned args /\ create f args = Thrown e.

(** The constructor gets both the instance and the frame of a function of
    the plan node. *)
Definition functionBuilt (fn : WindowFunction * Frame) : Prop :=
  functionCreated (fst fn)
  /\ exists windowFrame, createWindowFrame (snd fn) = Returned windowFrame.

(** A function call whose name is not registered. *)
Definition unknown_fn : WindowFunction :=
  {| name := 7; inputs := []; ignoreNulls := false; signatures := None |}.

(** A registered function called on an argument type it has no signature
    for. *)
Definition mistyped_fn : WindowFunction :=
  {| name := 0; inputs := [FieldAccessTypedExpr VARCHAR 1];
     ignoreNulls := false; signatures := Some [[BIGINT]; [DOUBLE]] |}.

(** ROWS BETWEEN -3 PRECEDING AND CURRENT ROW. *)
Definition negativeFrame : Frame :=
  rowsFrame kPreceding kCurrentRow
    (Some (ConstantTypedExpr BIGINT (Some (-3)))) None.

(** Two functions, over a running frame and over ROWS BETWEEN 2 PRECEDING
    AND CURRENT ROW, output budget 5, with their only partition, of five
    rows, current. *)
Definition twoFunctionsExample : Window :=
  started [(sum_fn, runningFrame); (sum_fn, twoPrecedingFrame)] 5 5 [fiveRows].

(** ** Offsets beyond the 32-bit row-index range *)

(** ROWS BETWEEN CURRENT ROW AND [offset] FOLLOWING, with a constant offset. *)
Definition followingFrame (offset : Z) : Frame :=
  rowsFrame kCurrentRow kFollowing None
    (Some (ConstantTypedExpr BIGINT (Some offset))).

(** One function over ROWS BETWEEN CURRENT ROW AND [offset] FOLLOWING, output
    budget 4, on one partition of three rows. *)
Definition followingExample (offset : Z) : Window :=
  ready [(sum_fn, followingFrame offset)] 4 3 [keyedPartition [1; 2; 3] noColumns].

(** The same with the offset taken from column 0, which holds 2^31 in every
    row. *)
Definition columnFollowingExample : Window :=
  ready [(sum_fn, rowsFrame kCurrentRow kFollowing None
                    (Some (FieldAccessTypedExpr BIGINT 0)))]
    4 3
    [keyedPartition [1; 2; 3]
       (offsetColumn [Some 2147483648; Some 2147483648; Some 2147483648])].

(** * Properties *)

(** ** Machine integers *)

Section IntFacts.

Lemma wrap_range bits x :
  0 < bits -> min_signed bits <= wrap bits x <= max_signed bits.
Proof.
  intros Hb. unfold wrap, min_signed, max_signed.
  assert (Hp : 0 < 2 ^ (bits - 1)) by (apply Z.pow_pos_nonneg; lia).
  assert (H2 : 2 ^ bits = 2 * 2 ^ (bits - 1)).
  { replace bits with (Z.succ (bits - 1)) at 1 by lia.
    rewrite Z.pow_succ_r by lia. reflexivity. }
  pose proof (Z.mod_pos_bound (x + 2 ^ (bits - 1)) (2 ^ bits)) as Hm.
  lia.
Qed.

Lemma wrap_small bits x : 0 < bits -> in_range bits x -> wrap bits x = x.
Proof.
  intros Hb [Hlo Hhi]. unfold wrap, min_signed, max_signed in *.
  assert (Hp : 0 < 2 ^ (bits - 1)) by (apply Z.pow_pos_nonneg; lia).
  assert (H2 : 2 ^ bits = 2 * 2 ^ (bits - 1)).
  { replace bits with (Z.succ (bits - 1)) at 1 by lia.
    rewrite Z.pow_succ_r by lia. reflexivity. }
  rewrite Z.mod_small by lia. lia.
Qed.

(** [wrap] only depends on its argument modulo [2 ^ bits]. *)
Lemma wrap_congr bits x y :
  x mod 2 ^ bits = y mod 2 ^ bits -> wrap bits x = wrap bits y.
Proof.
  intros H. unfold wrap. f_equal.
  rewrite <- (Zplus_mod_idemp_l x), <- (Zplus_mod_idemp_l y), H. reflexivity.
Qed.

Lemma wrap_mod bits x : 0 < bits -> wrap bits x mod 2 ^ bits = x mod 2 ^ bits.
Proof.
  intros Hb. unfold wrap.
  rewrite Zminus_mod_idemp_l.
  f_equal. lia.
Qed.

Lemma wrap_add_l bits x y : 0 < bits -> wrap bits (wrap bits x + y) = wrap bits (x + y).
Proof.
  intros Hb. apply wrap_congr.
  rewrite <- Zplus_mod_idemp_l, wrap_mod, Zplus_mod_idemp_l by lia. reflexivity.
Qed.

Lemma wrap_add_r bits x y : 0 < bits -> wrap bits (x + wrap bits y) = wrap bits (x + y).
Proof.
  intros Hb. rewrite (Z.add_comm x), wrap_add_l by lia. f_equal. lia.
Qed.

(** Narrowing a 64-bit value to 32 bits forgets the 64-bit reduction. *)
Lemma to_int32_to_int64 x : to_int32 (to_int64 x) = to_int32 x.
Proof.
  unfold to_int32, to_int64. apply wrap_congr.
  unfold wrap at 1.
  rewrite Zminus_mod.
  replace (2 ^ 64) with (2 ^ 32 * 2 ^ 32) by reflexivity.
  rewrite Z.rem_mul_r by lia.
  rewrite (Z.mul_comm (2 ^ 32)), Z_mod_plus_full, Z.mod_mod by lia.
  rewrite <- Zminus_mod. f_equal. lia.
Qed.

Lemma to_int32_cast T x : to_int32 (cast T x) = to_int32 x.
Proof.
  destruct T; simpl.
  - unfold to_int32. apply wrap_congr, wrap_mod. lia.
  - apply to_int32_to_int64.
Qed.

Lemma to_int32_add_l x y : to_int32 (to_int32 x + y) = to_int32 (x + y).
Proof. apply wrap_add_l. lia. Qed.

Lemma to_int32_add_r x y : to_int32 (x + to_int32 y) = to_int32 (x + y).
Proof. apply wrap_add_r. lia. Qed.

Lemma to_int32_add_int64_l x y : to_int32 (to_int64 x + y) = to_int32 (x + y).
Proof.
  rewrite <- to_int32_add_l, to_int32_to_int64. apply wrap_add_l. lia.
Qed.

Lemma to_int32_add_int64_r x y : to_int32 (x + to_int64 y) = to_int32 (x + y).
Proof.
  rewrite <- to_int32_add_r, to_int32_to_int64. apply wrap_add_r. lia.
Qed.

Lemma to_int32_small x : in_range 32 x -> to_int32 x = x.
Proof. apply wrap_small. lia. Qed.

Lemma to_int32_range x : in_range 32 (to_int32 x).
Proof. apply wrap_range. lia. Qed.


(** A reduced value equals the exact one only when the exact one fits. *)
Lemma to_int32_exact_iff x : to_int32 x = x <-> in_range 32 x.
Proof.
  split; [intros <-; apply to_int32_range | apply to_int32_small].
Qed.

End IntFacts.

Lemma in_range_32 x : in_range 32 x <-> -2147483648 <= x <= 2147483647.
Proof. unfold in_range, min_signed, max_signed. simpl. lia. Qed.

(** ** Loops that store into a raw buffer *)

Lemma for_each_store f indices buf :
  for_each indices (fun i => store i (f i)) buf
  = (stored f indices buf, Returned tt).
Proof.
  revert buf. induction indices as [|i rest IH]; intros buf; [reflexivity|].
  simpl. unfold bind, store, modify at 1. simpl. apply IH.
Qed.

Lemma stored_ext f g indices buf :
  (forall i, In i indices -> f i = g i) ->
  stored f indices buf = stored g indices buf.
Proof.
  revert buf. induction indices as [|i rest IH]; intros buf Hfg; [reflexivity|].
  simpl. rewrite (Hfg i) by (left; reflexivity).
  apply IH. intros j Hj. apply Hfg. right. exact Hj.
Qed.

Lemma stored_length f indices buf : length (stored f indices buf) = length buf.
Proof.
  revert buf. induction indices as [|i rest IH]; intros buf; [reflexivity|].
  simpl. rewrite IH. apply length_insert.
Qed.

Lemma stored_snoc f indices i buf :
  stored f (indices ++ [i]) buf = <[i := f i]> (stored f indices buf).
Proof. unfold stored. rewrite fold_left_app. reflexivity. Qed.

(** Rows below [n] hold the stored value, the rest of the buffer is as before. *)
Lemma stored_seq_lookup f n buf i :
  stored f (seq 0 n) buf !! i
  = if decide (i < n /\ i < length buf)%nat then Some (f i) else buf !! i.
Proof.
  induction n as [|n IH].
  - destruct (decide _) as [[? _]|_]; [lia | reflexivity].
  - rewrite seq_S, stored_snoc. cbn [Nat.add].
    destruct (decide (i = n)) as [->|Hne].
    + destruct (decide (n < length buf)%nat) as [Hlt|Hge].
      * rewrite list_lookup_insert_eq by (rewrite stored_length; lia).
        clear IH. case_decide; [reflexivity | lia].
      * rewrite list_insert_ge by (rewrite stored_length; lia).
        rewrite IH. repeat case_decide; try lia; reflexivity.
    + rewrite list_lookup_insert_ne by congruence.
      rewrite IH. repeat case_decide; try lia; reflexivity.
Qed.

Lemma stored_seq_load f n buf i :
  (i < n)%nat -> (n <= length buf)%nat ->
  load (stored f (seq 0 n) buf) i = f i.
Proof.
  intros Hi Hn. unfold load. rewrite stored_seq_lookup.
  case_decide; [reflexivity | lia].
Qed.

Lemma stored_seq_load_above f n buf i :
  (n <= i)%nat -> load (stored f (seq 0 n) buf) i = load buf i.
Proof.
  intros Hi. unfold load. rewrite stored_seq_lookup.
  case_decide; [lia | reflexivity].
Qed.

Lemma fill_n_stored n v buf :
  fill_n n v buf = (stored (fun _ => v) (seq 0 (Z.to_nat n)) buf, Returned tt).
Proof. apply for_each_store. Qed.

Lemma copy_stored src n buf :
  copy src n buf = (stored (load src) (seq 0 (Z.to_nat n)) buf, Returned tt).
Proof. apply (for_each_store (load src)). Qed.

(** The running value of [std::iota] is reduced in [T] at each increment, and
    narrowed to 32 bits at each store: row [i] gets the seed plus its
    distance from the first row, reduced to 32 bits. *)
Lemma iota_from_stored T n k v buf :
  iota_from T (seq k n) v buf
  = (stored (fun i => to_int32 (v + (Z.of_nat i - Z.of_nat k))) (seq k n) buf,
     Returned tt).
Proof.
  revert k v buf. induction n as [|n IH]; intros k v buf; [reflexivity|].
  simpl. unfold bind, store, modify at 1. simpl.
  rewrite IH. f_equal.
  replace (v + (Z.of_nat k - Z.of_nat k)) with v by lia.
  apply stored_ext. intros i Hi. apply in_seq in Hi.
  rewrite <- to_int32_add_l, to_int32_cast, to_int32_add_l.
  f_equal. lia.
Qed.

Lemma iota_stored T n v buf :
  iota T n v buf
  = (stored (fun i => to_int32 (v + Z.of_nat i)) (seq 0 (Z.to_nat n)) buf,
     Returned tt).
Proof.
  unfold iota. rewrite iota_from_stored. f_equal.
  apply stored_ext. intros i _. f_equal. lia.
Qed.

(** ** Frame-bound resolution *)

(** C5: for a slice [startRow, startRow + numRows) of the current partition
    and either frame side, bound resolution returns normally and fills the
    first [numRows] rows of the bound buffer: with 0 for UNBOUNDED PRECEDING,
    with the partition row count minus 1 for UNBOUNDED FOLLOWING, with the
    row's entry of the peer buffer of that side (peer starts for the start
    side, peer ends for the end side) for CURRENT ROW under RANGE, and with
    the row's own index [startRow + i] for CURRENT ROW under ROWS. *)
Theorem updateFrameBounds_unbounded_and_current_row
    (currentPartition_ : WindowPartition) (partitionOffset_ : Z)
    (windowFrame : WindowFrame) (isStartBound : bool) (startRow numRows : Z)
    (rawPeerStarts rawPeerEnds rawFrameBounds : list Z) :
  0 <= startRow -> 0 <= numRows ->
  startRow + numRows <= WindowPartition.numRows currentPartition_ ->
  WindowPartition.numRows currentPartition_ <= max_signed 32 ->
  (Z.to_nat numRows <= length rawFrameBounds)%nat ->
  boundTypeOf windowFrame isStartBound <> kPreceding ->
  boundTypeOf windowFrame isStartBound <> kFollowing ->
  exists filled,
    updateFrameBounds currentPartition_ partitionOffset_ windowFrame
      isStartBound startRow numRows rawPeerStarts rawPeerEnds rawFrameBounds
    = (filled, Returned tt)
    /\ length filled = length rawFrameBounds
    /\ forall i : nat, (i < Z.to_nat numRows)%nat ->
       (boundTypeOf windowFrame isStartBound = kUnboundedPreceding ->
        load filled i = 0)
       /\ (boundTypeOf windowFrame isStartBound = kUnboundedFollowing ->
           load filled i = WindowPartition.numRows currentPartition_ - 1)
       /\ (boundTypeOf windowFrame isStartBound = kCurrentRow ->
           wf_type windowFrame = kRange ->
           load filled i
           = load (peerBufferOf isStartBound rawPeerStarts rawPeerEnds) i)
       /\ (boundTypeOf windowFrame isStartBound = kCurrentRow ->
           wf_type windowFrame = kRows ->
           load filled i = startRow + Z.of_nat i).
Proof.
  intros Hs Hn Hslice Hmax Hlen HnotP HnotF.
  unfold updateFrameBounds. fold (boundTypeOf windowFrame isStartBound).
  unfold max_signed in Hmax. simpl in Hmax.
  destruct (boundTypeOf windowFrame isStartBound) eqn:Hb; try congruence.
  - rewrite fill_n_stored. eexists. split; [reflexivity|].
    split; [apply stored_length|].
    intros i Hi. repeat split; try discriminate.
    intros _. apply (stored_seq_load (fun _ => 0)); assumption.
  - destruct (wf_type windowFrame) eqn:Hw.
    + fold (peerBufferOf isStartBound rawPeerStarts rawPeerEnds).
      rewrite copy_stored. eexists. split; [reflexivity|].
      split; [apply stored_length|].
      intros i Hi. repeat split; try discriminate.
      intros _ _. apply stored_seq_load; assumption.
    + rewrite iota_stored. eexists. split; [reflexivity|].
      split; [apply stored_length|].
      intros i Hi. repeat split; try discriminate.
      intros _ _.
      rewrite (stored_seq_load (fun i => to_int32 (startRow + Z.of_nat i)))
        by assumption.
      apply to_int32_small, in_range_32. lia.
  - rewrite fill_n_stored. eexists. split; [reflexivity|].
    split; [apply stored_length|].
    intros i Hi. repeat split; try discriminate.
    intros _.
    rewrite (stored_seq_load
               (fun _ => to_int32 (WindowPartition.numRows currentPartition_ - 1)))
      by assumption.
    apply to_int32_small, in_range_32. lia.
Qed.

(** ** Offset resolution *)

Lemma checkOffset_valid value i buf :
  offsetValid value i = true -> checkOffset value i buf = (buf, Returned tt).
Proof.
  unfold offsetValid, checkOffset, bind, check. intros H.
  apply andb_true_iff in H as [-> ->]. reflexivity.
Qed.

Lemma checkOffset_invalid value i buf :
  offsetValid value i = false ->
  checkOffset value i buf = (buf, Thrown (offsetError value i)).
Proof.
  unfold offsetValid, offsetError, checkOffset, bind, check. intros H.
  destruct (isNullAt value i); simpl in *; [reflexivity|].
  rewrite H. reflexivity.
Qed.

(** The validation loop leaves the buffer alone and stops at the first
    offending row. *)
Lemma checkOffsets_all_valid value indices buf :
  (forall i, In i indices -> offsetValid value i = true) ->
  for_each indices (checkOffset value) buf = (buf, Returned tt).
Proof.
  induction indices as [|i rest IH]; intros Hall; [reflexivity|].
  simpl. unfold bind at 1.
  rewrite checkOffset_valid by (apply Hall; left; reflexivity).
  apply IH. intros j Hj. apply Hall. right. exact Hj.
Qed.

Lemma checkOffsets_first_invalid value before j after buf :
  (forall i, In i before -> offsetValid value i = true) ->
  offsetValid value j = false ->
  for_each (before ++ j :: after) (checkOffset value) buf
  = (buf, Thrown (offsetError value j)).
Proof.
  induction before as [|i rest IH]; intros Hall Hj; simpl; unfold bind at 1.
  - rewrite checkOffset_invalid by assumption. reflexivity.
  - rewrite checkOffset_valid by (apply Hall; left; reflexivity).
    apply IH; [|assumption]. intros k Hk. apply Hall. right. exact Hk.
Qed.

(** Below [n], either every row passes or there is a least offending row. *)
Lemma offsets_valid_or_first_invalid value n :
  (forall i, (i < n)%nat -> offsetValid value i = true)
  \/ exists j, (j < n)%nat /\ offsetValid value j = false
               /\ forall i, (i < j)%nat -> offsetValid value i = true.
Proof.
  induction n as [|n [IH|[j [Hj [Hbad Hmin]]]]].
  - left. intros i Hi. lia.
  - destruct (offsetValid value n) eqn:Hn.
    + left. intros i Hi.
      destruct (decide (i = n)) as [->|Hne]; [assumption | apply IH; lia].
    + right. exists n. repeat split; [lia | assumption | assumption].
  - right. exists j. repeat split; [lia | assumption | assumption].
Qed.

Lemma first_invalid_row value n :
  (exists i, (i < n)%nat /\ offsetValid value i = false) ->
  exists j, (j < n)%nat /\ offsetValid value j = false
            /\ forall i, (i < j)%nat -> offsetValid value i = true.
Proof.
  intros [i [Hi Hbad]].
  destruct (offsets_valid_or_first_invalid value n) as [Hall|Hj]; [|exact Hj].
  rewrite Hall in Hbad by assumption. discriminate.
Qed.

Lemma narrowedBound_reduced T isKPreceding startRow offset i :
  narrowedBound T isKPreceding startRow offset i
  = to_int32 (exactBound isKPreceding startRow offset i).
Proof.
  unfold narrowedBound, exactBound, signedOffset.
  rewrite to_int32_cast, to_int32_add_l, to_int32_add_r.
  f_equal. destruct isKPreceding; lia.
Qed.

Lemma updateKRowsOffsetsColumn_throws T isKPreceding value startRow numRows buf j :
  (j < Z.to_nat numRows)%nat ->
  offsetValid value j = false ->
  (forall i, (i < j)%nat -> offsetValid value i = true) ->
  updateKRowsOffsetsColumn T isKPreceding value startRow numRows buf
  = (buf, Thrown (offsetError value j)).
Proof.
  intros Hj Hbad Hmin. unfold updateKRowsOffsetsColumn, for_loop, bind at 1.
  change (fun i : nat => _ ;;; check (0 <=? offset_at value i) _)
    with (checkOffset value).
  replace (Z.to_nat numRows) with (j + S (Z.to_nat numRows - S j))%nat by lia.
  rewrite seq_app. cbn [seq Nat.add].
  rewrite checkOffsets_first_invalid; [reflexivity | | assumption].
  intros i Hi. apply in_seq in Hi. apply Hmin. lia.
Qed.

Lemma updateKRowsOffsetsColumn_returns T isKPreceding value startRow numRows buf :
  (forall i, (i < Z.to_nat numRows)%nat -> offsetValid value i = true) ->
  updateKRowsOffsetsColumn T isKPreceding value startRow numRows buf
  = (stored (fun i => narrowedBound T isKPreceding startRow (offset_at value i) i)
       (seq 0 (Z.to_nat numRows)) buf,
     Returned tt).
Proof.
  intros Hall. unfold updateKRowsOffsetsColumn, for_loop, bind at 1.
  change (fun i : nat => _ ;;; check (0 <=? offset_at value i) _)
    with (checkOffset value).
  rewrite checkOffsets_all_valid
    by (intros i Hi; apply in_seq in Hi; apply Hall; lia).
  apply (for_each_store
           (fun i => narrowedBound T isKPreceding startRow (offset_at value i) i)).
Qed.

(** What offset resolution does on a column.  When some row of the slice's
    offset column is null or negative, it throws the user error of the first
    such row (naming null, or the negative value) and the bound buffer is as
    it was; when every row is non-null and non-negative, it returns and row
    [i] holds the 32-bit value congruent to the exact bound
    [(startRow + i) + offset[i]] (K FOLLOWING) or [(startRow + i) - offset[i]]
    (K PRECEDING), so the exact bound itself whenever that fits in 32 bits. *)
Lemma updateKRowsOffsetsColumn_checks_then_resolves
    (T : IntKind) (isKPreceding : bool) (value : Vector)
    (startRow numRows : Z) (rawFrameBounds : list Z) :
  (Z.to_nat numRows <= length rawFrameBounds)%nat ->
  ((exists i, (i < Z.to_nat numRows)%nat /\ offsetValid value i = false) ->
   exists j, (j < Z.to_nat numRows)%nat
     /\ offsetValid value j = false
     /\ (forall i, (i < j)%nat -> offsetValid value i = true)
     /\ updateKRowsOffsetsColumn T isKPreceding value startRow numRows
          rawFrameBounds
        = (rawFrameBounds, Thrown (offsetError value j)))
  /\ ((forall i, (i < Z.to_nat numRows)%nat -> offsetValid value i = true) ->
      exists filled,
        updateKRowsOffsetsColumn T isKPreceding value startRow numRows
          rawFrameBounds
        = (filled, Returned tt)
        /\ forall i, (i < Z.to_nat numRows)%nat ->
           load filled i
           = to_int32 (exactBound isKPreceding startRow (offset_at value i) i)
           /\ (in_range 32 (exactBound isKPreceding startRow (offset_at value i) i) ->
               load filled i
               = exactBound isKPreceding startRow (offset_at value i) i)).
Proof.
  intros Hlen. split.
  - intros Hex. destruct (first_invalid_row value _ Hex) as [j [Hj [Hbad Hmin]]].
    exists j. repeat split; try assumption.
    apply updateKRowsOffsetsColumn_throws; assumption.
  - intros Hall. eexists. split.
    + apply updateKRowsOffsetsColumn_returns. exact Hall.
    + intros i Hi.
      rewrite (stored_seq_load
                 (fun i => narrowedBound T isKPreceding startRow
                             (offset_at value i) i)) by assumption.
      rewrite narrowedBound_reduced. split; [reflexivity|].
      apply to_int32_small.
Qed.

(** An offending row's error names what is wrong with it. *)
Lemma offsetError_identifies value i :
  offsetValid value i = false ->
  (isNullAt value i = true
   /\ offsetError value i = VeloxUserError OffsetMustNotBeNull)
  \/ (isNullAt value i = false /\ offset_at value i < 0
      /\ offsetError value i
         = VeloxUserError (OffsetMustNotBeNegative (offset_at value i))).
Proof.
  unfold offsetValid, offsetError. intros H.
  destruct (isNullAt value i); simpl in H; [left; split; reflexivity|].
  right. apply Z.leb_gt in H. split; [reflexivity|]. split; [assumption|].
  reflexivity.
Qed.

Lemma updateKRowsOffsetsColumn_checks_then_resolves_witness :
  updateKRowsOffsetsColumn Int64 true nullOffsetColumn 5 3 [7; 7; 7]
  = ([7; 7; 7], Thrown (VeloxUserError OffsetMustNotBeNull))
  /\ exists filled,
       updateKRowsOffsetsColumn Int64 true smallOffsetColumn 5 2 [7; 7; 7]
       = (filled, Returned tt)
       /\ load filled 0 = 5 + 0 - 1 /\ load filled 1 = 5 + 1 - 2.
Proof.
  split.
  - destruct (updateKRowsOffsetsColumn_checks_then_resolves
                Int64 true nullOffsetColumn 5 3 [7; 7; 7]) as [Hthrow _];
      [simpl; lia|].
    destruct Hthrow as [j [Hj [Hbad [_ Hrun]]]];
      [exists 1%nat; split; [simpl; lia | reflexivity]|].
    rewrite Hrun.
    destruct j as [|[|[|j]]];
      [discriminate Hbad | reflexivity | discriminate Hbad | simpl in Hj; lia].
  - destruct (updateKRowsOffsetsColumn_checks_then_resolves
                Int64 true smallOffsetColumn 5 2 [7; 7; 7]) as [_ Hok];
      [simpl; lia|].
    destruct Hok as [filled [Hrun Hrows]].
    + intros [|[|i]] Hi; [reflexivity | reflexivity | simpl in Hi; lia].
    + exists filled. split; [exact Hrun|]. split.
      * apply (Hrows 0%nat); [simpl; lia|].
        vm_compute. split; intros H; discriminate H.
      * apply (Hrows 1%nat); [simpl; lia|].
        vm_compute. split; intros H; discriminate H.
Defined.

(** C4: the code misses the exact bound at an offset that passes both checks.
    A BIGINT offset of 2^31 is non-null and non-negative; the K FOLLOWING
    bound of row 0 is stored as -2^31, where the exact bound
    [(startRow + i) + offset[i]] is 2^31.  In a run of the operator over
    ROWS BETWEEN CURRENT ROW AND c FOLLOWING, with c read from a column that
    holds 2^31 in each of the three rows of the partition, every row ends up
    with a negative end bound and is marked invalid, whereas the exact bounds
    [r + 2^31] pass the validity test (and would then be clamped to the last
    row). *)
Theorem updateKRowsOffsetsColumn_offset_beyond_int32 :
  offsetValid bigOffsetColumn 0 = true
  /\ offset_at bigOffsetColumn 0 = 2147483648
  /\ updateKRowsOffsetsColumn Int64 false bigOffsetColumn 0 1 [0]
     = ([-2147483648], Returned tt)
  /\ exactBound false 0 (offset_at bigOffsetColumn 0) 0 = 2147483648
  /\ firstBatch columnFollowingExample
     = (Returned (Some 3),
        ([0; 1; 2; 0], [-2147483648; -2147483647; -2147483646; 0],
         [false; false; false]))
  /\ (forall r, 0 <= r <= 2 ->
      validFrame 2 r (exactBound false 0 2147483648 (Z.to_nat r)) = true).
Proof.
  split; [reflexivity|]. split; [reflexivity|]. split; [reflexivity|].
  split; [reflexivity|]. split; [vm_compute; reflexivity|].
  intros r Hr. unfold validFrame, exactBound, signedOffset.
  rewrite !andb_true_iff, !Z.leb_le. lia.
Qed.

(** C10, as amended: for a column of valid offsets, row [i] of the bound
    buffer holds the sum of the row index and the signed product of the
    factor (-1 for K PRECEDING, 1 for K FOLLOWING) and [offset[i]] narrowed
    to 32 bits; that is the exact bound, [(startRow + i) - offset[i]] or
    [(startRow + i) + offset[i]], reduced modulo 2^32 into the signed 32-bit
    range, and it is the exact value exactly when the exact value fits in
    32 bits.  So for a K FOLLOWING offset of at least 2^31 (which passes the
    non-negativity check) at a non-negative row index it is never the exact
    value, and for a K PRECEDING offset at a row index within the 32-bit
    range it is the exact value exactly when the offset is at most
    2^31 + (startRow + i). *)
Theorem updateKRowsOffsetsColumn_narrows
    (T : IntKind) (isKPreceding : bool) (value : Vector)
    (startRow numRows : Z) (rawFrameBounds : list Z) :
  (Z.to_nat numRows <= length rawFrameBounds)%nat ->
  (forall i, (i < Z.to_nat numRows)%nat -> offsetValid value i = true) ->
  exists filled,
    updateKRowsOffsetsColumn T isKPreceding value startRow numRows rawFrameBounds
    = (filled, Returned tt)
    /\ forall i, (i < Z.to_nat numRows)%nat ->
       let offset := offset_at value i in
       let exact := exactBound isKPreceding startRow offset i in
       load filled i
       = to_int32 (to_int32 (startRow + Z.of_nat i)
                   + to_int32 (cast T ((if isKPreceding then -1 else 1) * offset)))
       /\ in_range 32 (load filled i)
       /\ (load filled i - exact) mod 2 ^ 32 = 0
       /\ (load filled i = exact <-> in_range 32 exact)
       /\ (isKPreceding = false -> 0 <= startRow + Z.of_nat i ->
           2 ^ 31 <= offset -> load filled i <> exact)
       /\ (isKPreceding = true -> in_range 32 (startRow + Z.of_nat i) ->
           (load filled i = exact <-> offset <= 2 ^ 31 + (startRow + Z.of_nat i))).
Proof.
  intros Hlen Hall. eexists. split.
  - apply updateKRowsOffsetsColumn_returns. exact Hall.
  - intros i Hi offset exact.
    rewrite (stored_seq_load
               (fun i => narrowedBound T isKPreceding startRow
                           (offset_at value i) i)) by assumption.
    fold offset. split; [reflexivity|].
    rewrite narrowedBound_reduced. fold exact.
    split; [apply to_int32_range|].
    split.
    { rewrite Zminus_mod. unfold to_int32. rewrite wrap_mod by lia.
      rewrite Z.sub_diag. reflexivity. }
    split; [apply to_int32_exact_iff|].
    split.
    + intros -> Hrow Hbig Heq.
      apply to_int32_exact_iff in Heq.
      unfold exact, exactBound, signedOffset in Heq.
      apply (proj1 (in_range_32 _)) in Heq.
      change (2 ^ 31) with 2147483648 in Hbig. lia.
    + intros -> Hrow.
      assert (Hoff : 0 <= offset).
      { specialize (Hall i Hi). unfold offsetValid in Hall.
        apply andb_true_iff in Hall. destruct Hall as [_ Hall].
        apply Z.leb_le in Hall. exact Hall. }
      rewrite to_int32_exact_iff.
      unfold exact, exactBound, signedOffset.
      rewrite in_range_32. apply (proj1 (in_range_32 _)) in Hrow.
      change (2 ^ 31) with 2147483648. lia.
Qed.

Lemma updateKRowsOffsetsColumn_narrows_witness :
  (exists filled,
     updateKRowsOffsetsColumn Int64 false bigOffsetColumn 0 1 [0]
     = (filled, Returned tt)
     /\ load filled 0 <> exactBound false 0 (offset_at bigOffsetColumn 0) 0)
  /\ (exists filled,
       updateKRowsOffsetsColumn Int64 true bigOffsetColumn 5 1 [0]
       = (filled, Returned tt)
       /\ load filled 0 = exactBound true 5 (offset_at bigOffsetColumn 0) 0).
Proof.
  split.
  - destruct (updateKRowsOffsetsColumn_narrows Int64 false bigOffsetColumn 0 1 [0])
      as [filled [Hrun Hrows]].
    + simpl. lia.
    + intros [|i] Hi; [reflexivity | simpl in Hi; lia].
    + exists filled. split; [exact Hrun|].
      destruct (Hrows 0%nat) as [_ [_ [_ [_ [Hne _]]]]]; [simpl; lia|].
      apply Hne; [reflexivity | simpl; lia |].
      vm_compute. intros H. discriminate H.
  - destruct (updateKRowsOffsetsColumn_narrows Int64 true bigOffsetColumn 5 1 [0])
      as [filled [Hrun Hrows]].
    + simpl. lia.
    + intros [|i] Hi; [reflexivity | simpl in Hi; lia].
    + exists filled. split; [exact Hrun|].
      destruct (Hrows 0%nat) as [_ [_ [_ [_ [_ Heq]]]]]; [simpl; lia|].
      apply Heq; [reflexivity | |].
      * vm_compute. split; intros H; discriminate H.
      * vm_compute. intros H. discriminate H.
Defined.

(** C10 as stated fails: the BIGINT offset 2^31 passes the checks and is at
    least 2^31, yet the K PRECEDING bound of row 5 is stored as -2147483643,
    which is the exact integer 5 - 2^31. *)
Lemma updateKRowsOffsetsColumn_preceding_exact_counterexample :
  offsetValid bigOffsetColumn 0 = true
  /\ 2 ^ 31 <= offset_at bigOffsetColumn 0
  /\ updateKRowsOffsetsColumn Int64 true bigOffsetColumn 5 1 [0]
     = ([-2147483643], Returned tt)
  /\ -2147483643 = exactBound true 5 (offset_at bigOffsetColumn 0) 0
  /\ exactBound true 5 (offset_at bigOffsetColumn 0) 0
     = (5 + 0) - offset_at bigOffsetColumn 0.
Proof.
  split; [reflexivity|]. split; [vm_compute; discriminate|].
  split; [reflexivity|]. split; reflexivity.
Qed.

Lemma updateKRowsFrameBounds_constant_stored
    currentPartition_ partitionOffset_ isKPreceding frameArg c startRow numRows buf :
  index frameArg = kConstantChannel ->
  constant frameArg = Some c ->
  updateKRowsFrameBounds currentPartition_ partitionOffset_ isKPreceding
    frameArg startRow numRows buf
  = (stored (fun i => to_int32 (exactBound isKPreceding startRow c i))
       (seq 0 (Z.to_nat numRows)) buf,
     Returned tt).
Proof.
  intros Hidx Hc. unfold updateKRowsFrameBounds.
  rewrite Hidx, Z.eqb_refl, Hc, iota_stored. f_equal.
  apply stored_ext. intros i _.
  rewrite to_int32_add_int64_l.
  unfold exactBound, signedOffset. destruct isKPreceding.
  - replace (startRow + to_int64 (- c) + Z.of_nat i)
      with (startRow + Z.of_nat i + to_int64 (- c)) by lia.
    apply to_int32_add_int64_r.
  - f_equal. lia.
Qed.

(** What offset resolution does with a constant K offset.  It returns, and
    row [i] of the slice holds the 32-bit value congruent to the exact bound
    [startRow + i - offset] (K PRECEDING) or [startRow + i + offset]
    (K FOLLOWING), so the exact bound itself whenever that fits in 32 bits;
    the rows form a progression of step 1 (in 32-bit arithmetic) whose first
    term is that of [startRow - offset], respectively [startRow + offset]. *)
Lemma updateKRowsFrameBounds_constant
    (currentPartition_ : WindowPartition) (partitionOffset_ : Z)
    (isKPreceding : bool) (frameArg : FrameChannelArg) (c : Z)
    (startRow numRows : Z) (rawFrameBounds : list Z) :
  index frameArg = kConstantChannel ->
  constant frameArg = Some c ->
  (Z.to_nat numRows <= length rawFrameBounds)%nat ->
  exists filled,
    updateKRowsFrameBounds currentPartition_ partitionOffset_ isKPreceding
      frameArg startRow numRows rawFrameBounds
    = (filled, Returned tt)
    /\ (forall i, (i < Z.to_nat numRows)%nat ->
        load filled i = to_int32 (exactBound isKPreceding startRow c i)
        /\ (in_range 32 (exactBound isKPreceding startRow c i) ->
            load filled i = exactBound isKPreceding startRow c i))
    /\ ((0 < Z.to_nat numRows)%nat ->
        load filled 0 = to_int32 (startRow + signedOffset isKPreceding c))
    /\ (forall i, (S i < Z.to_nat numRows)%nat ->
        load filled (S i) = to_int32 (load filled i + 1)).
Proof.
  intros Hidx Hc Hlen. eexists. split.
  - apply updateKRowsFrameBounds_constant_stored; eassumption.
  - set (f := fun i => to_int32 (exactBound isKPreceding startRow c i)).
    assert (Hload : forall i, (i < Z.to_nat numRows)%nat ->
              load (stored f (seq 0 (Z.to_nat numRows)) rawFrameBounds) i = f i).
    { intros i Hi. apply stored_seq_load; assumption. }
    split; [|split].
    + intros i Hi. rewrite Hload by assumption. split; [reflexivity|].
      apply to_int32_small.
    + intros Hpos. rewrite Hload by assumption. unfold f, exactBound.
      f_equal. lia.
    + intros i Hi. rewrite !Hload by lia. unfold f, exactBound.
      rewrite to_int32_add_l. f_equal. lia.
Qed.

Lemma updateKRowsFrameBounds_constant_witness :
  exists filled,
    updateKRowsFrameBounds (keyedPartition [1; 1; 2; 3; 3] noColumns) 0 true
      (constantArg 2) 0 5 [9; 9; 9; 9; 9]
    = (filled, Returned tt)
    /\ load filled 0 = to_int32 (-2) /\ load filled 4 = 0 + 4 - 2.
Proof.
  destruct (updateKRowsFrameBounds_constant
              (keyedPartition [1; 1; 2; 3; 3] noColumns) 0 true
              (constantArg 2) 2 0 5 [9; 9; 9; 9; 9])
    as [filled [Hrun [Hrows [Hseed _]]]];
    [reflexivity | reflexivity | simpl; lia |].
  exists filled. split; [exact Hrun|]. split.
  - apply Hseed. simpl. lia.
  - apply (Hrows 4%nat); [simpl; lia|].
    vm_compute. split; intros H; discriminate H.
Defined.

(** C6: the code misses the exact bound at a constant offset that set-up
    accepts.  The BIGINT constant 2^31 is non-negative and becomes a frame
    argument; the K FOLLOWING bound of row 0 is stored as -2^31, where the
    exact bound [startRow + i + offset] is 2^31.  In a run of the operator
    over ROWS BETWEEN CURRENT ROW AND 2147483648 FOLLOWING on a partition of
    three rows, every row ends up with a negative end bound and is marked
    invalid, whereas the exact bounds [r + 2^31] pass the validity test (and
    would then be clamped to the last row); and 4294967296 FOLLOWING gives
    the frames of 0 FOLLOWING. *)
Theorem updateKRowsFrameBounds_constant_beyond_int32 :
  createFrameChannelArg (Some (ConstantTypedExpr BIGINT (Some 2147483648)))
  = Returned (Some (constantArg 2147483648))
  /\ updateKRowsFrameBounds (keyedPartition [1] noColumns) 0 false
       (constantArg 2147483648) 0 1 [0]
     = ([-2147483648], Returned tt)
  /\ exactBound false 0 2147483648 0 = 2147483648
  /\ firstBatch (followingExample 2147483648)
     = (Returned (Some 3),
        ([0; 1; 2; 0], [-2147483648; -2147483647; -2147483646; 0],
         [false; false; false]))
  /\ (forall r, 0 <= r <= 2 ->
      validFrame 2 r (exactBound false 0 2147483648 (Z.to_nat r)) = true)
  /\ firstBatch (followingExample 4294967296)
     = (Returned (Some 3), ([0; 1; 2; 0], [0; 1; 2; 0], [true; true; true]))
  /\ firstBatch (followingExample 0)
     = (Returned (Some 3), ([0; 1; 2; 0], [0; 1; 2; 0], [true; true; true])).
Proof.
  split; [reflexivity|]. split; [reflexivity|]. split; [reflexivity|].
  split; [vm_compute; reflexivity|]. split.
  - intros r Hr. unfold validFrame, exactBound, signedOffset.
    rewrite !andb_true_iff, !Z.leb_le. lia.
  - split; vm_compute; reflexivity.
Qed.

(** ** Validity repair *)

Lemma computeValidFrames_body_step lastRow rawFrameStarts rawFrameEnds validFrames n st :
  (n < length rawFrameStarts)%nat -> (n < length rawFrameEnds)%nat ->
  repaired_upto lastRow rawFrameStarts rawFrameEnds validFrames n st ->
  repaired_upto lastRow rawFrameStarts rawFrameEnds validFrames (S n)
    (computeValidFrames_body lastRow n st).
Proof.
  intros Hns Hne. destruct st as [[starts ends] valid].
  intros [Hls [Hle Hrows]]. unfold computeValidFrames_body.
  destruct (Hrows n) as [_ Hn]. destruct (Hn (le_n n)) as [Hsn [Hen Hvn]].
  assert (Hfs : load starts n = load rawFrameStarts n)
    by (unfold load; rewrite Hsn; reflexivity).
  assert (Hfe : load ends n = load rawFrameEnds n)
    by (unfold load; rewrite Hen; reflexivity).
  rewrite Hfs, Hfe. fold (validFrame lastRow (load rawFrameStarts n)
                            (load rawFrameEnds n)).
  destruct (validFrame lastRow (load rawFrameStarts n) (load rawFrameEnds n))
    eqn:Hvalid; simpl.
  - rewrite !length_insert. split; [assumption|]. split; [assumption|].
    intros i. split.
    + intros Hi. destruct (decide (i = n)) as [->|Hne'].
      * rewrite Hvalid. unfold load.
        rewrite !list_lookup_insert_eq by lia. simpl.
        repeat split; try reflexivity. exact Hvn.
      * destruct (Hrows i) as [Hlt _]. specialize (Hlt ltac:(lia)).
        unfold load in *. rewrite !list_lookup_insert_ne by congruence.
        exact Hlt.
    + intros Hi. destruct (Hrows i) as [_ Hge]. specialize (Hge ltac:(lia)).
      rewrite !list_lookup_insert_ne by lia. exact Hge.
  - split; [assumption|]. split; [assumption|].
    intros i. split.
    + intros Hi. destruct (decide (i = n)) as [->|Hne'].
      * rewrite Hvalid. repeat split; try assumption.
        destruct (validFrames !! n) as [b|] eqn:Hb; simpl.
        -- apply list_lookup_insert_eq. apply lookup_lt_Some with b.
           rewrite Hvn. reflexivity.
        -- apply lookup_ge_None. rewrite length_insert.
           apply lookup_ge_None. exact Hvn.
      * destruct (Hrows i) as [Hlt _]. specialize (Hlt ltac:(lia)).
        rewrite list_lookup_insert_ne by congruence. exact Hlt.
    + intros Hi. destruct (Hrows i) as [_ Hge]. specialize (Hge ltac:(lia)).
      rewrite list_lookup_insert_ne by lia. exact Hge.
Qed.

Lemma computeValidFrames_repaired lastRow rawFrameStarts rawFrameEnds validFrames n :
  (n <= length rawFrameStarts)%nat -> (n <= length rawFrameEnds)%nat ->
  repaired_upto lastRow rawFrameStarts rawFrameEnds validFrames n
    (fold_left (fun st i => computeValidFrames_body lastRow i st) (seq 0 n)
       (rawFrameStarts, rawFrameEnds, validFrames)).
Proof.
  induction n as [|n IH]; intros Hs He.
  - simpl. split; [reflexivity|]. split; [reflexivity|].
    intros i. split; [lia|]. intros _. repeat split; reflexivity.
  - rewrite seq_S, fold_left_app. simpl.
    apply computeValidFrames_body_step; [lia | lia | apply IH; lia].
Qed.


Lemma validFrame_spec lastRow frameStart frameEnd :
  validFrame lastRow frameStart frameEnd = true
  <-> frameStart <= frameEnd /\ 0 <= frameEnd /\ frameStart <= lastRow.
Proof.
  unfold validFrame. rewrite !andb_true_iff, !Z.leb_le. tauto.
Qed.

Lemma resizeFill_lookup numRows b i :
  (i < Z.to_nat numRows)%nat -> resizeFill numRows b !! i = Some b.
Proof. intros Hi. apply lookup_replicate_2. exact Hi. Qed.

(** C3: on a slice whose rows are all marked valid on entry (as [resizeFill]
    leaves them), validity repair leaves row [i] marked valid iff
    [frameStart[i] <= frameEnd[i]], [frameEnd[i] >= 0] and
    [frameStart[i] <= lastRow]; a valid row has its start raised to at
    least 0 and its end lowered to at most [lastRow]; an invalid row has its
    selector bit cleared and both raw bounds left as they were. *)
Theorem computeValidFrames_repairs
    (lastRow numRows : Z) (rawFrameStarts rawFrameEnds : list Z)
    (validFrames : list bool) :
  (Z.to_nat numRows <= length rawFrameStarts)%nat ->
  (Z.to_nat numRows <= length rawFrameEnds)%nat ->
  (forall i, (i < Z.to_nat numRows)%nat -> validFrames !! i = Some true) ->
  exists starts ends valid,
    computeValidFrames lastRow numRows
      (rawFrameStarts, rawFrameEnds, validFrames)
    = (starts, ends, valid)
    /\ forall i, (i < Z.to_nat numRows)%nat ->
       let frameStart := load rawFrameStarts i in
       let frameEnd := load rawFrameEnds i in
       (valid !! i = Some true
        <-> frameStart <= frameEnd /\ 0 <= frameEnd /\ frameStart <= lastRow)
       /\ (valid !! i = Some true ->
           load starts i = Z.max frameStart 0
           /\ load ends i = Z.min frameEnd lastRow)
       /\ (valid !! i <> Some true ->
           valid !! i = Some false
           /\ load starts i = frameStart
           /\ load ends i = frameEnd).
Proof.
  intros Hs He Hv.
  pose proof (computeValidFrames_repaired lastRow rawFrameStarts rawFrameEnds
                validFrames (Z.to_nat numRows) Hs He) as Hrep.
  unfold computeValidFrames.
  destruct (fold_left _ _ _) as [[starts ends] valid].
  exists starts, ends, valid. split; [reflexivity|].
  destruct Hrep as [_ [_ Hrows]].
  intros i Hi.
  destruct (Hrows i) as [Hrow _]. specialize (Hrow Hi). cbv zeta in Hrow.
  set (frameStart := load rawFrameStarts i) in *.
  set (frameEnd := load rawFrameEnds i) in *.
  rewrite (Hv i Hi) in Hrow.
  rewrite <- validFrame_spec.
  destruct (validFrame lastRow frameStart frameEnd);
    destruct Hrow as [Hst [Hen Hval]]; simpl in Hval; rewrite Hval.
  - split; [tauto|]. split; [auto|]. intros Hne. congruence.
  - split; [split; intros H; discriminate H|].
    split; [intros H; discriminate H|]. auto.
Qed.

Lemma computeValidFrames_repairs_witness :
  exists starts ends valid,
    computeValidFrames 3 4 ([-2; -1; 0; 4], [-3; 1; 5; 3], resizeFill 4 true)
    = (starts, ends, valid)
    /\ valid !! 0%nat = Some false /\ valid !! 2%nat = Some true
    /\ load starts 1 = 0 /\ load ends 2 = 3 /\ load starts 3 = 4.
Proof.
  destruct (computeValidFrames_repairs 3 4 [-2; -1; 0; 4] [-3; 1; 5; 3]
              (resizeFill 4 true))
    as [starts [ends [valid [Hrun Hrows]]]];
    [simpl; lia | simpl; lia | intros i Hi; apply resizeFill_lookup; exact Hi |].
  exists starts, ends, valid. split; [exact Hrun|].
  vm_compute in Hrun. injection Hrun as <- <- <-.
  repeat split; reflexivity.
Defined.

(** ** RANGE frames with a K bound *)

Lemma createFrameChannelArg_accepted e :
  boundValueAccepted e = true -> exists arg, createFrameChannelArg e = Returned arg.
Proof.
  destruct e as [[t [v|]|t c]|]; simpl; intros H; try discriminate H.
  - rewrite H. eexists. reflexivity.
  - apply negb_true_iff in H. rewrite H. eexists. reflexivity.
  - eexists. reflexivity.
Qed.

Lemma createWindowFrame_types frame windowFrame :
  createWindowFrame frame = Returned windowFrame ->
  wf_type windowFrame = type frame
  /\ wf_startType windowFrame = startType frame
  /\ wf_endType windowFrame = endType frame.
Proof.
  unfold createWindowFrame. intros H.
  destruct (match type frame with kRange => _ | kRows => _ end);
    [|discriminate H].
  destruct (createFrameChannelArg (startValue frame)); [|discriminate H].
  destruct (createFrameChannelArg (endValue frame)); [|discriminate H].
  injection H as <-. repeat split; reflexivity.
Qed.

(** Under RANGE, a K bound throws before anything is stored. *)
Lemma updateFrameBounds_range_k p off windowFrame isStartBound startRow numRows
    rawPeerStarts rawPeerEnds buf :
  wf_type windowFrame = kRange ->
  isKBound (boundTypeOf windowFrame isStartBound) = true ->
  exists m,
    updateFrameBounds p off windowFrame isStartBound startRow numRows
      rawPeerStarts rawPeerEnds buf
    = (buf, Thrown (VeloxNYI m)).
Proof.
  intros Hrange Hk. unfold updateFrameBounds.
  fold (boundTypeOf windowFrame isStartBound). rewrite Hrange.
  destruct (boundTypeOf windowFrame isStartBound); try discriminate Hk;
    eexists; reflexivity.
Qed.

(** A bound that is not a K bound always resolves. *)
Lemma updateFrameBounds_not_k_returns p off windowFrame isStartBound startRow
    numRows rawPeerStarts rawPeerEnds buf :
  isKBound (boundTypeOf windowFrame isStartBound) = false ->
  exists filled,
    updateFrameBounds p off windowFrame isStartBound startRow numRows
      rawPeerStarts rawPeerEnds buf
    = (filled, Returned tt).
Proof.
  intros Hk. unfold updateFrameBounds.
  fold (boundTypeOf windowFrame isStartBound).
  destruct (boundTypeOf windowFrame isStartBound); try discriminate Hk.
  - rewrite fill_n_stored. eexists. reflexivity.
  - destruct (wf_type windowFrame).
    + rewrite copy_stored. eexists. reflexivity.
    + rewrite iota_stored. eexists. reflexivity.
  - rewrite fill_n_stored. eexists. reflexivity.
Qed.

(** The frame-buffer computation of function [i] throws not-yet-implemented
    when its frame is a RANGE frame with a K bound. *)
Lemma computeFrameBuffers_range_k w i p windowFrame startRow numRows :
  currentPartition_ w = Some p ->
  windowFrames_ w !! i = Some windowFrame ->
  wf_type windowFrame = kRange ->
  isKBound (wf_startType windowFrame) || isKBound (wf_endType windowFrame) = true ->
  exists w' m,
    computeFrameBuffers i startRow numRows w = (w', Thrown (VeloxNYI m)).
Proof.
  intros Hp Hwf Hrange Hk.
  unfold computeFrameBuffers, currentPartition, bind, get, modify.
  rewrite Hp. simpl. rewrite Hwf. unfold on_frameStartBuffer. simpl.
  destruct (isKBound (wf_startType windowFrame)) eqn:Hstart.
  - destruct (updateFrameBounds_range_k (snd p) (partitionOffset_ w) windowFrame
                true startRow numRows (peerStartBuffer_ w) (peerEndBuffer_ w)
                (default [] (frameStartBuffers_ w !! i)) Hrange Hstart)
      as [m ->].
    eexists _, m. reflexivity.
  - destruct (updateFrameBounds_not_k_returns (snd p) (partitionOffset_ w)
                windowFrame true startRow numRows (peerStartBuffer_ w)
                (peerEndBuffer_ w) (default [] (frameStartBuffers_ w !! i)) Hstart)
      as [filled ->].
    unfold on_frameEndBuffer. simpl.
    destruct (updateFrameBounds_range_k (snd p) (partitionOffset_ w) windowFrame
                false startRow numRows (peerStartBuffer_ w) (peerEndBuffer_ w)
                (default [] (frameEndBuffers_ w !! i)) Hrange Hk)
      as [m ->].
    eexists _, m. reflexivity.
Qed.

(** A RANGE frame with a K bound passes window-frame construction whenever
    its offset values are accepted, and the frame built from it throws
    not-yet-implemented when the K side is resolved. *)
Lemma range_k_frame_built_then_throws (frame : Frame) :
  type frame = kRange ->
  isKBound (startType frame) || isKBound (endType frame) = true ->
  (boundValueAccepted (startValue frame) = true ->
   boundValueAccepted (endValue frame) = true ->
   exists windowFrame, createWindowFrame frame = Returned windowFrame)
  /\ forall windowFrame,
      createWindowFrame frame = Returned windowFrame ->
      wf_type windowFrame = kRange
      /\ (forall p off isStartBound startRow numRows rawPeerStarts rawPeerEnds buf,
          isKBound (boundTypeOf windowFrame isStartBound) = true ->
          exists m,
            updateFrameBounds p off windowFrame isStartBound startRow numRows
              rawPeerStarts rawPeerEnds buf
            = (buf, Thrown (VeloxNYI m)))
      /\ (forall w i p startRow numRows,
          currentPartition_ w = Some p ->
          windowFrames_ w !! i = Some windowFrame ->
          exists w' m,
            computeFrameBuffers i startRow numRows w
            = (w', Thrown (VeloxNYI m))).
Proof.
  intros Hrange Hk. split.
  - intros Hs He. unfold createWindowFrame. rewrite Hrange.
    destruct (createFrameChannelArg_accepted _ Hs) as [s ->].
    destruct (createFrameChannelArg_accepted _ He) as [e ->].
    eexists. reflexivity.
  - intros windowFrame Hbuilt.
    destruct (createWindowFrame_types _ _ Hbuilt) as [Ht [Hst Het]].
    assert (Hr : wf_type windowFrame = kRange) by congruence.
    split; [exact Hr|]. split.
    + intros. apply updateFrameBounds_range_k; assumption.
    + intros w i p startRow numRows Hp Hwf.
      apply computeFrameBuffers_range_k with p windowFrame; try assumption.
      rewrite Hst, Het. exact Hk.
Qed.

(** C1 as stated fails: a RANGE frame with a K PRECEDING bound passes
    window-frame construction and the whole operator set-up; the error only
    comes with the first output call, once rows have been taken in. *)
Lemma range_k_frame_accepted_at_setup_counterexample :
  type rangeKFrame = kRange
  /\ startType rangeKFrame = kPreceding
  /\ (exists windowFrame, createWindowFrame rangeKFrame = Returned windowFrame)
  /\ exists w,
      setup [(sum_fn, rangeKFrame)] 4 3 [keyedPartition [1; 2; 3] noColumns]
      = Returned w
      /\ snd (getOutput w) = Thrown (VeloxNYI KPrecedingOnlyInRowsMode).
Proof.
  split; [reflexivity|]. split; [reflexivity|].
  split; [eexists; reflexivity|].
  eexists. split; [reflexivity|]. vm_compute. reflexivity.
Qed.

(** ** What a computation leaves alone *)

Section Preserves.

Context {S X : Type} (f : S -> X).

Lemma preserves_ret {A} (a : A) : preserves f (ret a).
Proof. intros s. reflexivity. Qed.

Lemma preserves_throw {A} e : preserves f (@throw S A e).
Proof. intros s. reflexivity. Qed.

Lemma preserves_get : preserves f get.
Proof. intros s. reflexivity. Qed.

Lemma preserves_modify (g : S -> S) :
  (forall s, f (g s) = f s) -> preserves f (modify g).
Proof. intros H s. apply H. Qed.

Lemma preserves_bind {A B} (m : Exec S A) (k : A -> Exec S B) :
  preserves f m -> (forall a, preserves f (k a)) -> preserves f (bind m k).
Proof.
  intros Hm Hk s. unfold bind. specialize (Hm s).
  destruct (m s) as [s' [a|e]]; simpl in *.
  - rewrite Hk. exact Hm.
  - exact Hm.
Qed.

Lemma preserves_for_each indices (body : nat -> Exec S unit) :
  (forall i, In i indices -> preserves f (body i)) ->
  preserves f (for_each indices body).
Proof.
  induction indices as [|i rest IH]; intros Hbody.
  - apply preserves_ret.
  - simpl. apply preserves_bind; [apply Hbody; left; reflexivity|].
    intros _. apply IH. intros j Hj. apply Hbody. right. exact Hj.
Qed.

End Preserves.

Lemma for_each_app {S} l1 l2 (body : nat -> Exec S unit) s :
  for_each (l1 ++ l2) body s = (for_each l1 body ;;; for_each l2 body) s.
Proof.
  revert s. induction l1 as [|i rest IH]; intros s; simpl.
  - reflexivity.
  - unfold bind in *.
    destruct (body i s) as [s' [[]|e]]; [|reflexivity].
    apply IH.
Qed.

(** ** The per-function frame-buffer computation *)

Lemma currentPartition_preserves {X} (f : Window -> X) :
  preserves f currentPartition.
Proof.
  intros w. unfold currentPartition, bind, get.
  destruct (currentPartition_ w); reflexivity.
Qed.

Lemma on_frameStartBuffer_core {A} i (m : Exec (list Z) A) :
  preserves core (on_frameStartBuffer i m).
Proof.
  intros w. unfold on_frameStartBuffer. destruct (m _) as [buf r]. reflexivity.
Qed.

Lemma on_frameEndBuffer_core {A} i (m : Exec (list Z) A) :
  preserves core (on_frameEndBuffer i m).
Proof.
  intros w. unfold on_frameEndBuffer. destruct (m _) as [buf r]. reflexivity.
Qed.

(** The computation for one function only touches frame buffers and
    selectors. *)
Lemma computeFrameBuffers_core i startRow numRows :
  preserves core (computeFrameBuffers i startRow numRows).
Proof.
  unfold computeFrameBuffers.
  apply preserves_bind; [apply currentPartition_preserves|]. intros p.
  apply preserves_bind; [apply preserves_get|]. intros w.
  destruct (windowFrames_ w !! i) as [windowFrame|]; [|apply preserves_throw].
  apply preserves_bind; [apply preserves_modify; reflexivity|]. intros _.
  apply preserves_bind; [apply on_frameStartBuffer_core|]. intros _.
  apply preserves_bind; [apply on_frameEndBuffer_core|]. intros _.
  destruct (has_value _ || has_value _); [|apply preserves_ret].
  apply preserves_modify. intros s.
  destruct (computeValidFrames _ _ _) as [[starts ends] valid]. reflexivity.
Qed.

Lemma on_frameStartBuffer_others {A} i j (m : Exec (list Z) A) :
  i <> j -> preserves (buffersOf i) (on_frameStartBuffer j m).
Proof.
  intros Hne w. unfold on_frameStartBuffer, buffersOf.
  destruct (m _) as [buf r]. simpl.
  rewrite list_lookup_insert_ne by congruence. reflexivity.
Qed.

Lemma on_frameEndBuffer_others {A} i j (m : Exec (list Z) A) :
  i <> j -> preserves (buffersOf i) (on_frameEndBuffer j m).
Proof.
  intros Hne w. unfold on_frameEndBuffer, buffersOf.
  destruct (m _) as [buf r]. simpl.
  rewrite list_lookup_insert_ne by congruence. reflexivity.
Qed.

(** ... and only those of its own function. *)
Lemma computeFrameBuffers_others i j startRow numRows :
  i <> j -> preserves (buffersOf i) (computeFrameBuffers j startRow numRows).
Proof.
  intros Hne. unfold computeFrameBuffers.
  apply preserves_bind; [apply currentPartition_preserves|]. intros p.
  apply preserves_bind; [apply preserves_get|]. intros w.
  destruct (windowFrames_ w !! j) as [windowFrame|]; [|apply preserves_throw].
  apply preserves_bind.
  { apply preserves_modify. intros s. unfold buffersOf. simpl.
    rewrite list_lookup_insert_ne by congruence. reflexivity. }
  intros _.
  apply preserves_bind; [apply on_frameStartBuffer_others; exact Hne|]. intros _.
  apply preserves_bind; [apply on_frameEndBuffer_others; exact Hne|]. intros _.
  destruct (has_value _ || has_value _); [|apply preserves_ret].
  apply preserves_modify. intros s.
  destruct (computeValidFrames _ _ _) as [[starts ends] valid].
  unfold buffersOf. simpl.
  rewrite !list_lookup_insert_ne by congruence. reflexivity.
Qed.

Lemma computePeerAndFrameBuffers_unfold w p startRow endRow :
  currentPartition_ w = Some p ->
  computePeerAndFrameBuffers startRow endRow w
  = for_each (seq 0 (length (windowFunctions_ w)))
      (fun i => computeFrameBuffers i startRow (to_int32 (endRow - startRow)))
      (afterPeers w p startRow endRow).
Proof.
  intros Hp. unfold computePeerAndFrameBuffers, afterPeers, currentPartition.
  unfold bind at 1. unfold bind at 1. unfold get at 1. rewrite Hp.
  unfold ret at 1. unfold bind at 1. unfold get at 1.
  destruct (WindowPartition.computePeerBuffers _ _ _ _ _ _ _)
    as [[newPeerStart newPeerEnd] [rawPeerStarts rawPeerEnds]].
  unfold bind, modify, log, for_loop, numFuncs. simpl.
  rewrite Nat2Z.id. reflexivity.
Qed.

Lemma for_each_at {St} (body : nat -> Exec St unit) (n i : nat) s s' :
  (i < n)%nat ->
  for_each (seq 0 n) body s = (s', Returned tt) ->
  exists s1 s2,
    for_each (seq 0 i) body s = (s1, Returned tt)
    /\ body i s1 = (s2, Returned tt)
    /\ for_each (seq (S i) (n - S i)) body s2 = (s', Returned tt).
Proof.
  intros Hi. replace n with (i + S (n - S i))%nat at 1 by lia.
  rewrite seq_app, for_each_app. cbn [Nat.add seq for_each]. unfold bind.
  destruct (for_each (seq 0 i) body s) as [s1 [[]|e]] eqn:H1; [|discriminate].
  destruct (body i s1) as [s2 [[]|e]] eqn:H2; [|discriminate].
  intros H. exists s1, s2.
  split; [reflexivity|]. split; [exact H2 | exact H].
Qed.

(** Function [i]'s own computation, for a frame without K bounds. *)
Lemma computeFrameBuffers_no_k w i p windowFrame startRow numRows :
  currentPartition_ w = Some p ->
  windowFrames_ w !! i = Some windowFrame ->
  start windowFrame = None -> end_ windowFrame = None ->
  isKBound (wf_startType windowFrame) = false ->
  isKBound (wf_endType windowFrame) = false ->
  (i < length (frameStartBuffers_ w))%nat ->
  (i < length (frameEndBuffers_ w))%nat ->
  (i < length (validFrames_ w))%nat ->
  exists w',
    computeFrameBuffers i startRow numRows w = (w', Returned tt)
    /\ buffersOf i w'
       = (Some (resolvedBounds w p windowFrame true startRow numRows
                  (default [] (frameStartBuffers_ w !! i))),
          Some (resolvedBounds w p windowFrame false startRow numRows
                  (default [] (frameEndBuffers_ w !! i))),
          Some (resizeFill numRows true)).
Proof.
  intros Hp Hwf Hs He Hks Hke Hls Hle Hlv.
  unfold computeFrameBuffers, currentPartition, bind, get, modify.
  rewrite Hp. simpl. rewrite Hwf. unfold on_frameStartBuffer. simpl.
  unfold resolvedBounds.
  destruct (updateFrameBounds_not_k_returns (snd p) (partitionOffset_ w)
              windowFrame true startRow numRows (peerStartBuffer_ w)
              (peerEndBuffer_ w) (default [] (frameStartBuffers_ w !! i)) Hks)
    as [starts ->].
  unfold on_frameEndBuffer. simpl.
  destruct (updateFrameBounds_not_k_returns (snd p) (partitionOffset_ w)
              windowFrame false startRow numRows (peerStartBuffer_ w)
              (peerEndBuffer_ w) (default [] (frameEndBuffers_ w !! i)) Hke)
    as [ends ->].
  rewrite Hs, He. simpl. eexists. split; [reflexivity|].
  unfold buffersOf. simpl.
  rewrite !list_lookup_insert_eq by assumption. reflexivity.
Qed.

(** Function [i]'s own computation, for a frame with a K-offset argument:
    once both sides are resolved, validity repair runs on the resolved
    bounds with the last row of the current partition and a selector that
    has every row of the slice valid. *)
Lemma computeFrameBuffers_k_repairs w w' i p windowFrame startRow numRows :
  currentPartition_ w = Some p ->
  windowFrames_ w !! i = Some windowFrame ->
  has_value (start windowFrame) || has_value (end_ windowFrame) = true ->
  (i < length (frameStartBuffers_ w))%nat ->
  (i < length (frameEndBuffers_ w))%nat ->
  (i < length (validFrames_ w))%nat ->
  computeFrameBuffers i startRow numRows w = (w', Returned tt) ->
  exists starts ends valid,
    buffersOf i w' = (Some starts, Some ends, Some valid)
    /\ (starts, ends, valid)
       = computeValidFrames
           (to_int32 (WindowPartition.numRows (snd p) - 1)) numRows
           (resolvedBounds w p windowFrame true startRow numRows
              (default [] (frameStartBuffers_ w !! i)),
            resolvedBounds w p windowFrame false startRow numRows
              (default [] (frameEndBuffers_ w !! i)),
            resizeFill numRows true).
Proof.
  intros Hp Hwf Hk Hls Hle Hlv.
  unfold computeFrameBuffers, currentPartition, bind, get, modify.
  rewrite Hp. simpl. rewrite Hwf. unfold on_frameStartBuffer. simpl.
  unfold resolvedBounds.
  destruct (updateFrameBounds (snd p) (partitionOffset_ w) windowFrame true
              startRow numRows (peerStartBuffer_ w) (peerEndBuffer_ w)
              (default [] (frameStartBuffers_ w !! i)))
    as [starts0 [[]|e]]; [|intros H; discriminate H].
  unfold on_frameEndBuffer. simpl.
  destruct (updateFrameBounds (snd p) (partitionOffset_ w) windowFrame false
              startRow numRows (peerStartBuffer_ w) (peerEndBuffer_ w)
              (default [] (frameEndBuffers_ w !! i)))
    as [ends0 [[]|e]]; [|intros H; discriminate H].
  rewrite Hk. simpl.
  rewrite !list_lookup_insert_eq by (rewrite ?length_insert; assumption).
  simpl.
  destruct (computeValidFrames _ numRows (starts0, ends0, resizeFill numRows true))
    as [[starts ends] valid].
  intros H. injection H as <-.
  exists starts, ends, valid. split; [|reflexivity].
  unfold buffersOf. simpl.
  rewrite !list_lookup_insert_eq by (rewrite ?length_insert; assumption).
  reflexivity.
Qed.

Lemma afterPeers_fields w p startRow endRow :
  let w0 := afterPeers w p startRow endRow in
  windowFunctions_ w0 = windowFunctions_ w
  /\ windowFrames_ w0 = windowFrames_ w
  /\ windowBuild_ w0 = windowBuild_ w
  /\ currentPartition_ w0 = currentPartition_ w
  /\ numRows_ w0 = numRows_ w
  /\ numRowsPerOutput_ w0 = numRowsPerOutput_ w
  /\ numProcessedRows_ w0 = numProcessedRows_ w
  /\ partitionOffset_ w0 = partitionOffset_ w
  /\ frameStartBuffers_ w0 = frameStartBuffers_ w
  /\ frameEndBuffers_ w0 = frameEndBuffers_ w
  /\ validFrames_ w0 = validFrames_ w.
Proof.
  unfold afterPeers.
  destruct (WindowPartition.computePeerBuffers _ _ _ _ _ _ _)
    as [[newPeerStart newPeerEnd] [rawPeerStarts rawPeerEnds]].
  simpl. repeat split; reflexivity.
Qed.

(** C9: when computePeerAndFrameBuffers returns for a slice, a function whose
    frame has no K-offset argument and no K bound on either side has every
    row of the slice marked valid in its selector, and its two frame buffers
    are exactly as bound resolution left them: validity repair has not run
    on them. *)
Theorem computePeerAndFrameBuffers_no_k_skips_repair
    (w w' : Window) (i : nat) (p : nat * WindowPartition)
    (windowFrame : WindowFrame) (startRow endRow : Z) :
  currentPartition_ w = Some p ->
  windowFrames_ w !! i = Some windowFrame ->
  start windowFrame = None -> end_ windowFrame = None ->
  isKBound (wf_startType windowFrame) = false ->
  isKBound (wf_endType windowFrame) = false ->
  (i < length (windowFunctions_ w))%nat ->
  (i < length (frameStartBuffers_ w))%nat ->
  (i < length (frameEndBuffers_ w))%nat ->
  (i < length (validFrames_ w))%nat ->
  computePeerAndFrameBuffers startRow endRow w = (w', Returned tt) ->
  exists starts ends valid,
    frameStartBuffers_ w' !! i = Some starts
    /\ frameEndBuffers_ w' !! i = Some ends
    /\ validFrames_ w' !! i = Some valid
    /\ (forall r, (r < Z.to_nat (to_int32 (endRow - startRow)))%nat ->
        valid !! r = Some true)
    /\ starts
       = resolvedBounds (afterPeers w p startRow endRow) p windowFrame true
           startRow (to_int32 (endRow - startRow))
           (default [] (frameStartBuffers_ w !! i))
    /\ ends
       = resolvedBounds (afterPeers w p startRow endRow) p windowFrame false
           startRow (to_int32 (endRow - startRow))
           (default [] (frameEndBuffers_ w !! i)).
Proof.
  intros Hp Hwf Hs He Hks Hke Hi Hls Hle Hlv Hrun.
  rewrite (computePeerAndFrameBuffers_unfold w p) in Hrun by exact Hp.
  set (w0 := afterPeers w p startRow endRow) in *.
  set (numRows := to_int32 (endRow - startRow)) in *.
  set (body := fun j => computeFrameBuffers j startRow numRows) in *.
  destruct (afterPeers_fields w p startRow endRow)
    as [_ [Hframes [_ [Hcur [_ [_ [_ [_ [Hfs [Hfe Hvf]]]]]]]]]].
  fold w0 in Hframes, Hcur, Hfs, Hfe, Hvf.
  destruct (for_each_at body _ i w0 w' Hi Hrun) as [w1 [w2 [H1 [H2 H3]]]].
  assert (Hcore : core w1 = core w0).
  { replace w1 with (fst (for_each (seq 0 i) body w0)) by (rewrite H1; reflexivity).
    apply preserves_for_each. intros j _. apply computeFrameBuffers_core. }
  assert (Hbufs : buffersOf i w1 = buffersOf i w0).
  { replace w1 with (fst (for_each (seq 0 i) body w0)) by (rewrite H1; reflexivity).
    apply preserves_for_each. intros j Hj. apply in_seq in Hj.
    apply computeFrameBuffers_others. lia. }
  assert (Hafter : buffersOf i w' = buffersOf i w2).
  { replace w' with (fst (for_each (seq (S i) (length (windowFunctions_ w) - S i))
                            body w2)) by (rewrite H3; reflexivity).
    apply preserves_for_each. intros j Hj. apply in_seq in Hj.
    apply computeFrameBuffers_others. lia. }
  unfold core in Hcore.
  injection Hcore as _ Hwf1 _ Hcur1 _ _ _ Hoff1 _ _ Hps1 Hpe1 _.
  unfold buffersOf in Hbufs. injection Hbufs as Hs1 He1 Hv1.
  destruct (computeFrameBuffers_no_k w1 i p windowFrame startRow numRows)
    as [w2' [Hbody Hres]]; try assumption.
  - congruence.
  - congruence.
  - apply lookup_lt_is_Some. rewrite Hs1, Hfs. apply lookup_lt_is_Some. exact Hls.
  - apply lookup_lt_is_Some. rewrite He1, Hfe. apply lookup_lt_is_Some. exact Hle.
  - apply lookup_lt_is_Some. rewrite Hv1, Hvf. apply lookup_lt_is_Some. exact Hlv.
  - unfold body in H2. rewrite H2 in Hbody. injection Hbody as <-.
    rewrite <- Hafter in Hres. unfold buffersOf in Hres.
    injection Hres as Hrs Hre Hrv.
    eexists _, _, _. split; [exact Hrs|]. split; [exact Hre|].
    split; [exact Hrv|]. split; [intros r Hr; apply resizeFill_lookup; exact Hr|].
    unfold resolvedBounds.
    rewrite Hoff1, Hps1, Hpe1, Hs1, He1, Hfs, Hfe. split; reflexivity.
Qed.

Lemma computePeerAndFrameBuffers_no_k_skips_repair_witness :
  exists w' starts ends valid,
    computePeerAndFrameBuffers 0 3 invertedExample = (w', Returned tt)
    /\ frameStartBuffers_ w' !! 0%nat = Some starts
    /\ frameEndBuffers_ w' !! 0%nat = Some ends
    /\ validFrames_ w' !! 0%nat = Some valid
    /\ (forall r, (r < 3)%nat -> valid !! r = Some true).
Proof.
  destruct (computePeerAndFrameBuffers 0 3 invertedExample) as [w' r] eqn:Hrun.
  assert (Hr : r = Returned tt).
  { apply (f_equal snd) in Hrun. vm_compute in Hrun. symmetry. exact Hrun. }
  subst r.
  destruct (computePeerAndFrameBuffers_no_k_skips_repair invertedExample w' 0
              (0%nat, keyedPartition [1; 2; 3] noColumns)
              {| wf_type := kRows; wf_startType := kUnboundedFollowing;
                 wf_endType := kUnboundedPreceding; start := None;
                 end_ := None |} 0 3)
    as [starts [ends [valid [Hs [He [Hv [Hall _]]]]]]];
    try reflexivity; try (vm_compute; lia); try exact Hrun.
  exists w', starts, ends, valid. repeat split; try assumption.
Defined.

(** The inverted frame shows that the skip is observable: the operator leaves
    all three rows of the slice valid, while validity repair run on the same
    bounds would clear the bit of every row. *)
Example no_k_frame_repair_skipped_example :
  let '(w', _) := computePeerAndFrameBuffers 0 3 invertedExample in
  frameStartBuffers_ w' = [[2; 2; 2; 0]]
  /\ frameEndBuffers_ w' = [[0; 0; 0; 0]]
  /\ validFrames_ w' = [[true; true; true]]
  /\ computeValidFrames 2 3 ([2; 2; 2; 0], [0; 0; 0; 0], [true; true; true])
     = ([2; 2; 2; 0], [0; 0; 0; 0], [false; false; false]).
Proof. vm_compute. repeat split; reflexivity. Qed.

(** ** Calls: list-level facts *)

Section Calls.

Variable parts : list WindowPartition.

Lemma callsOn_app q tr1 tr2 :
  callsOn q (tr1 ++ tr2) = callsOn q tr1 ++ callsOn q tr2.
Proof. apply List.filter_app. Qed.

Lemma peersOf_app q tr1 tr2 :
  peersOf q (tr1 ++ tr2) = peersOf q tr1 ++ peersOf q tr2.
Proof. unfold peersOf. rewrite callsOn_app. apply List.filter_app. Qed.

Lemma callsOn_same q evs :
  (forall c, In c evs -> partitionOf c = q) -> callsOn q evs = evs.
Proof.
  induction evs as [|c rest IH]; intros H; [reflexivity|].
  simpl. rewrite (H c) by (left; reflexivity). rewrite Nat.eqb_refl.
  f_equal. apply IH. intros c' Hc'. apply H. right. exact Hc'.
Qed.

Lemma callsOn_other q evs :
  (forall c, In c evs -> partitionOf c <> q) -> callsOn q evs = [].
Proof.
  induction evs as [|c rest IH]; intros H; [reflexivity|].
  simpl. destruct (Nat.eqb_spec (partitionOf c) q) as [Heq|_].
  - exfalso. apply (H c); [left; reflexivity | exact Heq].
  - apply IH. intros c' Hc'. apply H. right. exact Hc'.
Qed.

Lemma callsOn_unknown q n tr :
  (forall c, In c tr -> (partitionOf c < n)%nat) -> (n <= q)%nat ->
  callsOn q tr = [].
Proof.
  intros Hknown Hq. apply callsOn_other. intros c Hc Heq.
  specialize (Hknown c Hc). lia.
Qed.

Lemma in_resets numFuncs q c :
  In c (resets numFuncs q) -> partitionOf c = q /\ isReset c = true /\ posAfter c = 0.
Proof.
  unfold resets. rewrite in_map_iff. intros [i [<- _]]. repeat split.
Qed.

Lemma in_applies numFuncs q startRow endRow off c :
  In c (applies numFuncs q startRow endRow off) ->
  partitionOf c = q /\ isReset c = false /\ isPeers c = false
  /\ posAfter c = endRow /\ startOf c = startRow.
Proof.
  unfold applies. rewrite in_map_iff. intros [i [<- _]]. repeat split.
Qed.

Lemma peers_of_resets numFuncs q : List.filter isPeers (resets numFuncs q) = [].
Proof.
  unfold resets. induction (seq 0 numFuncs) as [|i rest IH]; [reflexivity|].
  simpl. exact IH.
Qed.

Lemma peers_of_applies numFuncs q startRow endRow off :
  List.filter isPeers (applies numFuncs q startRow endRow off) = [].
Proof.
  unfold applies. induction (seq 0 numFuncs) as [|i rest IH]; [reflexivity|].
  simpl. exact IH.
Qed.

Lemma slices_of_resets numFuncs q : slicesOf (resets numFuncs q) = [].
Proof.
  unfold resets. induction (seq 0 numFuncs) as [|i rest IH]; [reflexivity|].
  simpl. exact IH.
Qed.

Lemma slices_of_applies numFuncs q startRow endRow off :
  slicesOf (applies numFuncs q startRow endRow off) = [].
Proof.
  unfold applies. induction (seq 0 numFuncs) as [|i rest IH]; [reflexivity|].
  simpl. exact IH.
Qed.

Lemma slicesOf_app tr1 tr2 : slicesOf (tr1 ++ tr2) = slicesOf tr1 ++ slicesOf tr2.
Proof. apply flat_map_app. Qed.

Lemma adjacentOk_same q evs :
  (forall c, In c evs -> partitionOf c = q) -> adjacentOk parts evs.
Proof.
  induction evs as [|c1 rest IH]; intros H; [exact I|].
  simpl. split.
  - destruct rest as [|c2 rest']; [exact I|].
    intros Hne. exfalso. apply Hne.
    rewrite (H c1), (H c2); [reflexivity | right; left; reflexivity | left; reflexivity].
  - apply IH. intros c Hc. apply H. right. exact Hc.
Qed.

Lemma adjacentOk_app tr1 tr2 :
  adjacentOk parts tr1 -> adjacentOk parts tr2 ->
  (forall c1 c2, last tr1 = Some c1 -> head tr2 = Some c2 ->
     partitionOf c1 <> partitionOf c2 -> closes parts c1) ->
  adjacentOk parts (tr1 ++ tr2).
Proof.
  induction tr1 as [|c1 rest IH]; intros H1 H2 Hb; [exact H2|].
  simpl in *. destruct H1 as [Hhead Hrest]. split.
  - destruct rest as [|c2 rest']; simpl.
    + destruct tr2 as [|c2 tr2']; [exact I|].
      apply Hb; reflexivity.
    + exact Hhead.
  - apply IH; [exact Hrest | exact H2|].
    intros c c' Hl Hh. apply Hb; [|exact Hh].
    destruct rest as [|c2 rest']; [discriminate Hl|].
    rewrite last_cons_cons. exact Hl.
Qed.

Lemma chained_snoc a b z evs q e ns ne x y cur :
  chained a b z evs ->
  chainLast (a, b, z) evs = (x, y, cur) ->
  chained a b z (evs ++ [ComputePeerBuffers q cur e x y ns ne])
  /\ chainLast (a, b, z) (evs ++ [ComputePeerBuffers q cur e x y ns ne])
     = (ns, ne, e).
Proof.
  revert a b z. induction evs as [|c rest IH]; intros a b z Hch Hlast.
  - simpl in *. injection Hlast as -> -> ->. repeat split.
  - destruct c; simpl in Hch; try contradiction.
    destruct Hch as [-> [-> [-> Hch]]]. simpl in Hlast.
    destruct (IH _ _ _ Hch Hlast) as [Hc Hl].
    simpl. repeat split; assumption.
Qed.

End Calls.

(** ** How the calls of one step extend the trace invariant *)

Section TraceSteps.

Variable parts : list WindowPartition.
Variable numFuncs : nat.

Lemma last_in {A} (l : list A) (x : A) : last l = Some x -> In x l.
Proof. intros H. apply list_elem_of_In, last_Some_elem_of. exact H. Qed.

(** The operator leaves a partition whose cursor is at its row count. *)
Lemma TraceInv_leave n cur tr :
  TraceInv parts numFuncs n cur tr ->
  (forall q a b z, cur = Some (q, (a, b, z)) -> z = rowsOf parts q) ->
  TraceInv parts numFuncs n None tr.
Proof.
  intros [Hknown Hresets Hadj Hlast Hchain Hin] Hdone. split; try assumption.
  - intros c Hc. left. destruct (Hlast c Hc) as [Hcl|[a [b Hcur]]]; [exact Hcl|].
    unfold closes. apply (Hdone _ _ _ _ Hcur).
  - intros q Hq. destruct (Hchain q Hq) as [Hch _]. split; [exact Hch|].
    intros st Hst. discriminate Hst.
Qed.

(** The next partition becomes current: every function is reset. *)
Lemma TraceInv_reset n cur tr :
  TraceInv parts numFuncs n cur tr ->
  (forall q a b z, cur = Some (q, (a, b, z)) -> z = rowsOf parts q) ->
  TraceInv parts numFuncs (S n) (Some (n, (0, 0, 0))) (tr ++ resets numFuncs n).
Proof.
  intros Hinv Hdone.
  pose proof (TraceInv_leave n cur tr Hinv Hdone) as [_ _ _ Hclosed _ _].
  destruct Hinv as [Hknown Hresets Hadj _ Hchain Hin].
  assert (Hnone : callsOn n tr = [])
    by (apply callsOn_unknown with n; [exact Hknown | lia]).
  assert (Hsame : forall c, In c (resets numFuncs n) -> partitionOf c = n)
    by (intros c Hc; apply (in_resets _ _ _ Hc)).
  split.
  - intros c Hc. apply in_app_or in Hc as [Hc|Hc].
    + specialize (Hknown c Hc). lia.
    + rewrite (Hsame c Hc). lia.
  - intros q Hq. rewrite callsOn_app.
    destruct (decide (q = n)) as [->|Hne].
    + exists []. rewrite Hnone, callsOn_same by exact Hsame.
      rewrite app_nil_r. split; [reflexivity | constructor].
    + destruct (Hresets q ltac:(lia)) as [rest [Heq Hrest]].
      exists rest. rewrite (callsOn_other q (resets numFuncs n)).
      * rewrite app_nil_r. split; assumption.
      * intros c Hc. rewrite (Hsame c Hc). congruence.
  - apply adjacentOk_app; [exact Hadj | apply adjacentOk_same with n; exact Hsame|].
    intros c1 c2 Hl _ _. destruct (Hclosed c1 Hl) as [Hcl|[a [b Hcur]]];
      [exact Hcl | discriminate Hcur].
  - intros c Hc. rewrite last_app in Hc.
    destruct (last (resets numFuncs n)) as [c'|] eqn:Hl.
    + injection Hc as ->. right. exists 0, 0.
      destruct (in_resets _ _ _ (last_in _ _ Hl)) as [-> [_ ->]]. reflexivity.
    + left. destruct (Hclosed c Hc) as [Hcl|[a [b Hcur]]];
        [exact Hcl | discriminate Hcur].
  - intros q Hq. rewrite peersOf_app.
    assert (Hnopeers : peersOf q (resets numFuncs n) = []).
    { unfold peersOf. destruct (decide (q = n)) as [->|Hne].
      - rewrite callsOn_same by exact Hsame. apply peers_of_resets.
      - rewrite callsOn_other; [reflexivity|].
        intros c Hc. rewrite (Hsame c Hc). congruence. }
    rewrite Hnopeers, app_nil_r.
    destruct (decide (q = n)) as [->|Hne].
    + unfold peersOf. rewrite Hnone. simpl. split; [exact I|].
      intros st Hst. injection Hst as <-. reflexivity.
    + destruct (Hchain q ltac:(lia)) as [Hch _]. split; [exact Hch|].
      intros st Hst. injection Hst as Hq' _. congruence.
  - intros c Hc Hnr. apply in_app_or in Hc as [Hc|Hc]; [apply Hin; assumption|].
    destruct (in_resets _ _ _ Hc) as [_ [Hr _]]. congruence.
Qed.

(** A slice of the current partition is processed: its peers are computed
    from the continuation pair, then every function is applied. *)
Lemma TraceInv_slice n q a b z tr e ns ne off :
  TraceInv parts numFuncs n (Some (q, (a, b, z))) tr ->
  (q < n)%nat ->
  0 <= z < e -> e <= rowsOf parts q ->
  TraceInv parts numFuncs n (Some (q, (ns, ne, e)))
    (tr ++ ComputePeerBuffers q z e a b ns ne :: applies numFuncs q z e off).
Proof.
  intros [Hknown Hresets Hadj Hlast Hchain Hin] Hq Hz He.
  set (evs := ComputePeerBuffers q z e a b ns ne :: applies numFuncs q z e off).
  assert (Hevs : forall c, In c evs ->
            partitionOf c = q /\ isReset c = false /\ posAfter c = e).
  { intros c [<-|Hc]; [repeat split|].
    destruct (in_applies _ _ _ _ _ _ Hc) as [H1 [H2 [_ [H3 _]]]].
    repeat split; assumption. }
  assert (Hstart : forall c, In c evs -> startOf c = z).
  { intros c [<-|Hc]; [reflexivity|].
    apply (in_applies _ _ _ _ _ _ Hc). }
  assert (Hsame : forall c, In c evs -> partitionOf c = q)
    by (intros c Hc; apply (Hevs c Hc)).
  split.
  - intros c Hc. apply in_app_or in Hc as [Hc|Hc].
    + apply Hknown. exact Hc.
    + rewrite (Hsame c Hc). exact Hq.
  - intros q' Hq'. rewrite callsOn_app.
    destruct (Hresets q' Hq') as [rest [Heq Hrest]].
    destruct (decide (q' = q)) as [->|Hne].
    + exists (rest ++ evs). rewrite Heq, callsOn_same by exact Hsame.
      rewrite app_assoc. split; [reflexivity|].
      apply Forall_app. split; [exact Hrest|].
      apply Forall_forall. intros c Hc. apply list_elem_of_In in Hc.
      apply (Hevs c Hc).
    + exists rest. rewrite (callsOn_other q' evs).
      * rewrite app_nil_r. split; assumption.
      * intros c Hc. rewrite (Hsame c Hc). congruence.
  - apply adjacentOk_app; [exact Hadj | apply adjacentOk_same with q; exact Hsame|].
    intros c1 c2 Hl Hh Hne. simpl in Hh. injection Hh as <-. simpl in Hne.
    destruct (Hlast c1 Hl) as [Hcl|[a' [b' Hcur]]]; [exact Hcl|].
    injection Hcur as Hq' _ _ _. congruence.
  - intros c Hc. rewrite last_app in Hc.
    destruct (last evs) as [c'|] eqn:Hl.
    + injection Hc as ->. right. exists ns, ne.
      destruct (Hevs c (last_in _ _ Hl)) as [-> [_ ->]]. reflexivity.
    + apply last_None in Hl. discriminate Hl.
  - intros q' Hq'. rewrite peersOf_app.
    destruct (Hchain q' Hq') as [Hch Hend].
    destruct (decide (q' = q)) as [->|Hne].
    + assert (Hp : peersOf q evs = [ComputePeerBuffers q z e a b ns ne]).
      { unfold peersOf. rewrite callsOn_same by exact Hsame. unfold evs.
        simpl. rewrite peers_of_applies. reflexivity. }
      rewrite Hp.
      destruct (chained_snoc 0 0 0 (peersOf q tr) q e ns ne a b z Hch
                  (Hend _ eq_refl)) as [Hch' Hend'].
      split; [exact Hch'|].
      intros st Hst. injection Hst as <-. exact Hend'.
    + assert (Hp : peersOf q' evs = []).
      { unfold peersOf. rewrite callsOn_other; [reflexivity|].
        intros c Hc. rewrite (Hsame c Hc). congruence. }
      rewrite Hp, app_nil_r. split; [exact Hch|].
      intros st Hst. injection Hst as Hq'' _. congruence.
  - intros c Hc Hnr. apply in_app_or in Hc as [Hc|Hc]; [apply Hin; assumption|].
    destruct (Hevs c Hc) as [-> [_ ->]]. rewrite (Hstart c Hc). lia.
Qed.

End TraceSteps.

(** ** Row counts of the build *)

Lemma totalRows_app parts1 parts2 :
  totalRows (parts1 ++ parts2) = totalRows parts1 + totalRows parts2.
Proof.
  induction parts1 as [|p rest IH]; simpl; [reflexivity|]. rewrite IH. lia.
Qed.

Lemma totalRows_nonneg parts :
  Forall (fun p => 1 <= WindowPartition.numRows p) parts -> 0 <= totalRows parts.
Proof.
  induction 1 as [|p rest Hp _ IH]; simpl; lia.
Qed.

Lemma rowsBefore_S parts q p :
  parts !! q = Some p ->
  rowsBefore parts (S q) = rowsBefore parts q + WindowPartition.numRows p.
Proof.
  intros Hp. unfold rowsBefore. rewrite (take_S_r _ _ _ Hp), totalRows_app.
  simpl. lia.
Qed.

Lemma rowsBefore_split parts q :
  totalRows parts = rowsBefore parts q + totalRows (drop q parts).
Proof.
  unfold rowsBefore. rewrite <- totalRows_app, take_drop. reflexivity.
Qed.

Lemma rowsBefore_all parts q :
  (length parts <= q)%nat -> rowsBefore parts q = totalRows parts.
Proof. intros H. unfold rowsBefore. rewrite take_ge by exact H. reflexivity. Qed.

Lemma rowsBefore_nonneg parts q :
  Forall (fun p => 1 <= WindowPartition.numRows p) parts ->
  0 <= rowsBefore parts q.
Proof.
  intros H. apply totalRows_nonneg. apply Forall_take. exact H.
Qed.

Lemma rowsBefore_le parts q :
  Forall (fun p => 1 <= WindowPartition.numRows p) parts ->
  rowsBefore parts q <= totalRows parts.
Proof.
  intros H. rewrite (rowsBefore_split parts q).
  pose proof (totalRows_nonneg (drop q parts) (Forall_drop _ _ _ H)). lia.
Qed.

(** Rows are left exactly when partitions are left. *)
Lemma rowsBefore_lt_total parts q :
  Forall (fun p => 1 <= WindowPartition.numRows p) parts ->
  rowsBefore parts q < totalRows parts -> (q < length parts)%nat.
Proof.
  intros H Hlt. destruct (decide (q < length parts)%nat) as [Hq|Hq]; [exact Hq|].
  rewrite rowsBefore_all in Hlt by lia. lia.
Qed.

(** ** The steps of the batching loop *)

Lemma for_each_log (f : nat -> Call) indices w :
  for_each indices (fun i => log (f i)) w
  = (set_calls (calls w ++ map f indices) w, Returned tt).
Proof.
  revert w. induction indices as [|i rest IH]; intros w; simpl.
  - rewrite app_nil_r. destruct w; reflexivity.
  - unfold bind, log at 1, modify. simpl. rewrite IH. simpl.
    rewrite <- app_assoc. reflexivity.
Qed.

Lemma callResetPartition_eq w : callResetPartition w = (resetState w, Returned tt).
Proof.
  unfold callResetPartition, resetState, bind, modify, get. simpl.
  unfold hasNextPartition, nextPartition.
  destruct (partitions (windowBuild_ w) !! nextIndex (windowBuild_ w))
    as [p|] eqn:Hp.
  - rewrite bool_decide_eq_true_2 by (apply lookup_lt_Some with p; exact Hp).
    simpl. unfold for_loop, numFuncs. simpl. rewrite Nat2Z.id.
    rewrite for_each_log. reflexivity.
  - rewrite bool_decide_eq_false_2; [reflexivity|].
    apply lookup_ge_None in Hp. lia.
Qed.

Lemma sameSetup_refl w : sameSetup w w.
Proof. repeat split. Qed.

Lemma sameSetup_trans w1 w2 w3 :
  sameSetup w1 w2 -> sameSetup w2 w3 -> sameSetup w1 w3.
Proof.
  intros [H1 [H2 [H3 [H4 H5]]]] [K1 [K2 [K3 [K4 K5]]]].
  repeat split; congruence.
Qed.

Lemma neverThrows_sameSetup w w' :
  sameSetup w w' -> neverThrows w' = neverThrows w.
Proof. intros [_ [H _]]. unfold neverThrows. rewrite H. reflexivity. Qed.

(** Leaving a finished partition (or none) for the next one keeps the
    invariant and puts the cursor at the start of a non-empty partition. *)
Lemma resetState_Inv w :
  Inv w ->
  (forall q p, currentPartition_ w = Some (q, p) ->
     partitionOffset_ w = WindowPartition.numRows p) ->
  Inv (resetState w) /\ AtRest (resetState w) /\ sameSetup w (resetState w)
  /\ numProcessedRows_ (resetState w) = numProcessedRows_ w
  /\ slicesOf (calls (resetState w)) = slicesOf (calls w)
  /\ match partitions (windowBuild_ w) !! nextIndex (windowBuild_ w) with
     | Some p =>
         currentPartition_ (resetState w) = Some (nextIndex (windowBuild_ w), p)
         /\ partitionOffset_ (resetState w) = 0
         /\ nextIndex (windowBuild_ (resetState w)) = S (nextIndex (windowBuild_ w))
     | None =>
         currentPartition_ (resetState w) = None
         /\ windowBuild_ (resetState w) = windowBuild_ w
     end.
Proof.
  intros [Hfr Hne Htot Hmax Hbud Hnext Hcur Htr] Hdone.
  assert (Hprocessed : numProcessedRows_ w
            = rowsBefore (partitions (windowBuild_ w)) (nextIndex (windowBuild_ w))).
  { destruct (currentPartition_ w) as [[q p]|] eqn:Hc; [|exact Hcur].
    destruct Hcur as [Hp [Hn [_ Hpr]]].
    rewrite Hn, (rowsBefore_S _ _ _ Hp), Hpr, (Hdone q p eq_refl). reflexivity. }
  assert (Hposition : forall q a b z, position w = Some (q, (a, b, z)) ->
            z = rowsOf (partitions (windowBuild_ w)) q).
  { unfold position. intros q a b z Hpos.
    destruct (currentPartition_ w) as [[q' p]|] eqn:Hc; [|discriminate Hpos].
    injection Hpos as <- _ _ <-. destruct Hcur as [Hp _].
    unfold rowsOf. rewrite Hp. apply (Hdone q' p eq_refl). }
  unfold resetState.
  destruct (partitions (windowBuild_ w) !! nextIndex (windowBuild_ w))
    as [p|] eqn:Hp.
  - assert (Hrows : 1 <= WindowPartition.numRows p).
    { rewrite Forall_forall in Hne. apply Hne.
      apply list_elem_of_lookup. eexists. exact Hp. }
    split; [|split; [|split; [|split; [|split]]]].
    + split; simpl; try assumption.
      * apply lookup_lt_Some in Hp. lia.
      * repeat split; [exact Hp | lia | lia |]. rewrite Hprocessed. lia.
      * apply TraceInv_reset with (position w); assumption.
    + intros q p' Hc. simpl in *. injection Hc as <- <-. lia.
    + repeat split.
    + reflexivity.
    + simpl. rewrite slicesOf_app, slices_of_resets, app_nil_r. reflexivity.
    + repeat split.
  - split; [|split; [|split; [|split; [|split]]]].
    + split; simpl; try assumption.
      apply TraceInv_leave with (position w); assumption.
    + intros q p' Hc. discriminate Hc.
    + repeat split.
    + reflexivity.
    + reflexivity.
    + split; reflexivity.
Qed.

Lemma updateFrameBounds_resolves p off windowFrame isStartBound startRow numRows
    rawPeerStarts rawPeerEnds buf :
  sideResolves windowFrame isStartBound = true ->
  exists filled,
    updateFrameBounds p off windowFrame isStartBound startRow numRows
      rawPeerStarts rawPeerEnds buf
    = (filled, Returned tt).
Proof.
  unfold sideResolves. intros H.
  destruct (isKBound (boundTypeOf windowFrame isStartBound)) eqn:Hk;
    [|apply updateFrameBounds_not_k_returns; exact Hk].
  unfold updateFrameBounds. fold (boundTypeOf windowFrame isStartBound).
  destruct (wf_type windowFrame); [discriminate H|].
  destruct (if isStartBound then start windowFrame else end_ windowFrame)
    as [arg|]; [|discriminate H].
  apply andb_true_iff in H as [Hidx Hc]. apply Z.eqb_eq in Hidx.
  destruct (constant arg) as [c|] eqn:Hconst; [|discriminate Hc].
  destruct (boundTypeOf windowFrame isStartBound); try discriminate Hk;
    rewrite (updateKRowsFrameBounds_constant_stored _ _ _ _ c) by assumption;
    eexists; reflexivity.
Qed.

Lemma computeFrameBuffers_returns w i p windowFrame startRow numRows :
  currentPartition_ w = Some p ->
  windowFrames_ w !! i = Some windowFrame ->
  sideResolves windowFrame true = true ->
  sideResolves windowFrame false = true ->
  exists w', computeFrameBuffers i startRow numRows w = (w', Returned tt).
Proof.
  intros Hp Hwf Hs He.
  unfold computeFrameBuffers, currentPartition, bind, get, modify.
  rewrite Hp. simpl. rewrite Hwf. unfold on_frameStartBuffer. simpl.
  destruct (updateFrameBounds_resolves (snd p) (partitionOffset_ w) windowFrame
              true startRow numRows (peerStartBuffer_ w) (peerEndBuffer_ w)
              (default [] (frameStartBuffers_ w !! i)) Hs) as [starts ->].
  unfold on_frameEndBuffer. simpl.
  destruct (updateFrameBounds_resolves (snd p) (partitionOffset_ w) windowFrame
              false startRow numRows (peerStartBuffer_ w) (peerEndBuffer_ w)
              (default [] (frameEndBuffers_ w !! i)) He) as [ends ->].
  destruct (has_value _ || has_value _); eexists; reflexivity.
Qed.

Lemma for_each_returns {St} (P : St -> Prop) indices (body : nat -> Exec St unit) :
  (forall i s, In i indices -> P s ->
     exists s', body i s = (s', Returned tt) /\ P s') ->
  forall s, P s -> exists s', for_each indices body s = (s', Returned tt) /\ P s'.
Proof.
  induction indices as [|i rest IH]; intros Hbody s Hs.
  - exists s. split; [reflexivity | exact Hs].
  - simpl. unfold bind.
    destruct (Hbody i s (or_introl eq_refl) Hs) as [s1 [-> Hs1]].
    apply IH; [|exact Hs1]. intros j s' Hj. apply Hbody. right. exact Hj.
Qed.

Lemma computePeerAndFrameBuffers_core w p startRow endRow :
  currentPartition_ w = Some p ->
  core (fst (computePeerAndFrameBuffers startRow endRow w))
  = core (afterPeers w p startRow endRow).
Proof.
  intros Hp. rewrite (computePeerAndFrameBuffers_unfold w p) by exact Hp.
  apply preserves_for_each. intros i _. apply computeFrameBuffers_core.
Qed.

Lemma computePeerAndFrameBuffers_returns w p startRow endRow :
  currentPartition_ w = Some p ->
  length (windowFrames_ w) = length (windowFunctions_ w) ->
  neverThrows w = true ->
  exists w', computePeerAndFrameBuffers startRow endRow w = (w', Returned tt).
Proof.
  intros Hp Hlen Hnever.
  rewrite (computePeerAndFrameBuffers_unfold w p) by exact Hp.
  set (w0 := afterPeers w p startRow endRow).
  destruct (afterPeers_fields w p startRow endRow)
    as [_ [Hframes [_ [Hcur _]]]]. fold w0 in Hframes, Hcur.
  destruct (for_each_returns (fun s => core s = core w0)
              (seq 0 (length (windowFunctions_ w)))
              (fun i => computeFrameBuffers i startRow (to_int32 (endRow - startRow))))
    with (s := w0) as [w' [Hrun _]]; [|reflexivity|exists w'; exact Hrun].
  intros i s Hi Hcore. apply in_seq in Hi. pose proof Hcore as Hcore'.
  unfold core in Hcore. injection Hcore as _ Hwf _ Hc _ _ _ _ _ _ _ _ _.
  destruct (lookup_lt_is_Some_2 (windowFrames_ w) i ltac:(lia)) as [wf Hwfi].
  unfold neverThrows in Hnever. rewrite forallb_forall in Hnever.
  specialize (Hnever wf ltac:(apply list_elem_of_In, list_elem_of_lookup; eauto)).
  apply andb_true_iff in Hnever as [Hs He].
  destruct (computeFrameBuffers_returns s i p wf startRow
              (to_int32 (endRow - startRow))) as [s' Hs']; try assumption.
  - congruence.
  - congruence.
  - exists s'. split; [exact Hs'|].
    replace s' with (fst (computeFrameBuffers i startRow
                            (to_int32 (endRow - startRow)) s))
      by (rewrite Hs'; reflexivity).
    rewrite computeFrameBuffers_core. exact Hcore'.
Qed.

Lemma afterPeers_calls w p startRow endRow :
  let w0 := afterPeers w p startRow endRow in
  calls w0
  = calls w ++ [ComputePeerBuffers (fst p) startRow endRow
                  (peerStartRow_ w) (peerEndRow_ w)
                  (peerStartRow_ w0) (peerEndRow_ w0)].
Proof.
  unfold afterPeers.
  destruct (WindowPartition.computePeerBuffers _ _ _ _ _ _ _)
    as [[newPeerStart newPeerEnd] [rawPeerStarts rawPeerEnds]].
  reflexivity.
Qed.

Lemma afterPeers_peers w p startRow endRow :
  let w0 := afterPeers w p startRow endRow in
  (peerStartRow_ w0, peerEndRow_ w0, (peerStartBuffer_ w0, peerEndBuffer_ w0))
  = WindowPartition.computePeerBuffers (snd p) startRow endRow
      (peerStartRow_ w) (peerEndRow_ w) (peerStartBuffer_ w) (peerEndBuffer_ w).
Proof.
  unfold afterPeers.
  destruct (WindowPartition.computePeerBuffers _ _ _ _ _ _ _)
    as [[newPeerStart newPeerEnd] [rawPeerStarts rawPeerEnds]].
  reflexivity.
Qed.

(** What processing the slice [startRow, endRow) of the current partition
    does to the operator when it returns; it only throws when some frame can
    make bound resolution throw. *)
Lemma callApplyForPartitionRows_effect w p startRow endRow off :
  currentPartition_ w = Some p ->
  length (windowFrames_ w) = length (windowFunctions_ w) ->
  match callApplyForPartitionRows startRow endRow off w with
  | (w', Returned _) =>
      sameSetup w w'
      /\ windowBuild_ w' = windowBuild_ w
      /\ currentPartition_ w' = Some p
      /\ numProcessedRows_ w'
         = to_int32 (numProcessedRows_ w + to_int32 (endRow - startRow))
      /\ partitionOffset_ w'
         = to_int32 (partitionOffset_ w + to_int32 (endRow - startRow))
      /\ calls w'
         = calls w
           ++ ComputePeerBuffers (fst p) startRow endRow
                (peerStartRow_ w) (peerEndRow_ w)
                (peerStartRow_ w') (peerEndRow_ w')
              :: applies (length (windowFunctions_ w)) (fst p) startRow endRow off
      /\ (peerStartRow_ w', peerEndRow_ w', (peerStartBuffer_ w', peerEndBuffer_ w'))
         = WindowPartition.computePeerBuffers (snd p) startRow endRow
             (peerStartRow_ w) (peerEndRow_ w)
             (peerStartBuffer_ w) (peerEndBuffer_ w)
  | (_, Thrown _) => neverThrows w = false
  end.
Proof.
  intros Hp Hlen. unfold callApplyForPartitionRows. unfold bind at 1.
  pose proof (computePeerAndFrameBuffers_core w p startRow endRow Hp) as Hcore.
  destruct (computePeerAndFrameBuffers startRow endRow w) as [w1 [[]|err]] eqn:H1.
  - simpl in Hcore.
    destruct (afterPeers_fields w p startRow endRow)
      as [Hf0 [Hwf0 [Hb0 [Hc0 [Hn0 [Hr0 [Hpr0 [Ho0 _]]]]]]]].
    pose proof (afterPeers_calls w p startRow endRow) as Hcalls0. simpl in Hcalls0.
    pose proof (afterPeers_peers w p startRow endRow) as Hpeers0. simpl in Hpeers0.
    unfold core in Hcore.
    injection Hcore as Hf Hwf Hb Hc Hn Hr Hpr Ho Hps Hpe Hpsb Hpeb Hcalls.
    unfold currentPartition, bind, get. rewrite Hc, Hc0, Hp. simpl.
    unfold for_loop, numFuncs. rewrite Nat2Z.id, for_each_log. simpl.
    unfold sameSetup. simpl.
    rewrite ?Hf, ?Hf0, ?Hwf, ?Hwf0, ?Hb, ?Hb0, ?Hn, ?Hn0, ?Hr, ?Hr0, ?Hpr,
      ?Hpr0, ?Ho, ?Ho0, ?Hcalls, ?Hcalls0, ?Hps, ?Hpe, ?Hpsb, ?Hpeb,
      <- ?app_assoc.
    repeat split; try reflexivity; [congruence | exact Hpeers0].
  - destruct (neverThrows w) eqn:Hnever; [|reflexivity].
    destruct (computePeerAndFrameBuffers_returns w p startRow endRow Hp Hlen Hnever)
      as [w' Hret].
    rewrite Hret in H1. discriminate H1.
Qed.

Lemma Inv_partition_rows w q p :
  Inv w -> currentPartition_ w = Some (q, p) ->
  1 <= WindowPartition.numRows p
  /\ 0 <= rowsBefore (partitions (windowBuild_ w)) q
  /\ rowsBefore (partitions (windowBuild_ w)) q + WindowPartition.numRows p
     <= numRows_ w
  /\ numRows_ w <= 2147483647.
Proof.
  intros [_ Hne Htot Hmax _ _ Hcur _] Hc. rewrite Hc in Hcur.
  destruct Hcur as [Hp _].
  split.
  { rewrite Forall_forall in Hne. apply Hne, list_elem_of_lookup. eauto. }
  split; [apply rowsBefore_nonneg; exact Hne|].
  split.
  - rewrite Htot, <- (rowsBefore_S _ _ _ Hp). apply rowsBefore_le. exact Hne.
  - unfold max_signed in Hmax. simpl in Hmax. exact Hmax.
Qed.

(** Processing the slice from the cursor to [endRow] of the current
    partition keeps the invariant, moves the cursor to [endRow] and counts
    the rows of the slice as processed. *)
Lemma slice_Inv w q p endRow off w' :
  Inv w ->
  currentPartition_ w = Some (q, p) ->
  partitionOffset_ w < endRow <= WindowPartition.numRows p ->
  callApplyForPartitionRows (partitionOffset_ w) endRow off w = (w', Returned tt) ->
  Inv w' /\ sameSetup w w'
  /\ windowBuild_ w' = windowBuild_ w
  /\ currentPartition_ w' = Some (q, p)
  /\ partitionOffset_ w' = endRow
  /\ numProcessedRows_ w' = numProcessedRows_ w + (endRow - partitionOffset_ w)
  /\ slicesOf (calls w') = slicesOf (calls w) ++ [(q, partitionOffset_ w, endRow)].
Proof.
  intros Hinv Hc Hend Hrun.
  destruct (Inv_partition_rows w q p Hinv Hc) as [Hrows [Hbefore [Hfit Hmax]]].
  pose proof Hinv as [Hfr Hne Htot _ Hbud Hnext Hcur Htr].
  rewrite Hc in Hcur. destruct Hcur as [Hp [Hn [Hoff Hpr]]].
  pose proof (callApplyForPartitionRows_effect w (q, p) (partitionOffset_ w)
                endRow off Hc Hfr) as Heff.
  rewrite Hrun in Heff.
  destruct Heff as [Hsame [Hb [Hc' [Hpr' [Ho' [Hcalls _]]]]]].
  assert (Hlen : to_int32 (endRow - partitionOffset_ w) = endRow - partitionOffset_ w)
    by (apply to_int32_small, in_range_32; lia).
  rewrite Hlen in Hpr', Ho'.
  rewrite to_int32_small in Hpr' by (apply in_range_32; lia).
  rewrite to_int32_small in Ho' by (apply in_range_32; lia).
  assert (Ho'' : partitionOffset_ w' = endRow) by lia.
  destruct Hsame as [Hf [Hwf [Hnr [Hro Hparts]]]].
  split; [|split; [|split; [|split; [|split; [|split]]]]];
    try assumption; try (repeat split; assumption).
  - split.
    + congruence.
    + rewrite Hb. exact Hne.
    + rewrite Hb, Hnr. exact Htot.
    + rewrite Hnr. apply (inv_max w Hinv).
    + rewrite Hro. exact Hbud.
    + rewrite Hb. exact Hnext.
    + rewrite Hc', Hb. repeat split; [exact Hp | exact Hn | lia | lia | lia].
    + rewrite Hb, Hf, Hcalls. unfold position. rewrite Hc'. simpl.
      rewrite Ho''.
      apply TraceInv_slice; [|lia|lia|unfold rowsOf; rewrite Hp; lia].
      unfold position in Htr. rewrite Hc in Htr. exact Htr.
  - rewrite Hcalls, slicesOf_app. simpl.
    rewrite slices_of_applies. reflexivity.
Qed.

(** One iteration of the loop of callApplyLoop, spelled out. *)
Lemma callApplyLoop_while_step fuel resultIndex left w q p :
  currentPartition_ w = Some (q, p) ->
  0 < left ->
  callApplyLoop_while (S fuel) resultIndex left w
  = let rows := to_int32 (WindowPartition.numRows p - partitionOffset_ w) in
    if rows <=? left then
      match callApplyForPartitionRows (partitionOffset_ w)
              (to_int32 (partitionOffset_ w + rows)) resultIndex w with
      | (w1, Returned _) =>
          match currentPartition_ (resetState w1) with
          | None => (resetState w1, Returned tt)
          | Some _ =>
              callApplyLoop_while fuel (to_int32 (resultIndex + rows))
                (to_int32 (left - rows)) (resetState w1)
          end
      | (w1, Thrown e) => (w1, Thrown e)
      end
    else
      callApplyForPartitionRows (partitionOffset_ w)
        (to_int32 (partitionOffset_ w + left)) resultIndex w.
Proof.
  intros Hc Hleft. cbn [callApplyLoop_while].
  apply Z.ltb_lt in Hleft. rewrite Hleft.
  unfold bind at 1. unfold currentPartition at 1. unfold bind at 1.
  unfold get at 1. rewrite Hc. unfold ret at 1. unfold bind at 1.
  unfold get at 1. cbn [snd]. cbv zeta.
  destruct (to_int32 (WindowPartition.numRows p - partitionOffset_ w) <=? left);
    [|reflexivity].
  unfold bind at 1.
  destruct (callApplyForPartitionRows _ _ _ w) as [w1 [[]|e]]; [|reflexivity].
  unfold bind at 1. rewrite callResetPartition_eq.
  unfold bind at 1. unfold get at 1.
  destruct (currentPartition_ (resetState w1)); reflexivity.
Qed.

Lemma planSlices_none parts q cursor budget :
  budget <= 0 -> planSlices parts q cursor budget = [].
Proof.
  intros H. destruct parts as [|p rest]; simpl; [reflexivity|].
  destruct (Z.ltb_spec 0 budget); [lia | reflexivity].
Qed.

Lemma planEnd_none parts q cursor budget :
  budget <= 0 -> planEnd parts q cursor budget = (q, cursor).
Proof.
  intros H. destruct parts as [|p rest]; simpl; [reflexivity|].
  destruct (Z.ltb_spec 0 budget); [lia | reflexivity].
Qed.

(** The loop of callApplyLoop, from the cursor inside partition [q] with
    [left] rows of budget: it processes exactly [left] rows, in the slices
    the batching rule prescribes, and stops between output calls with the
    cursor inside a partition or with no partition left. *)
Lemma callApplyLoop_while_spec fuel :
  forall w resultIndex left q p,
    Inv w -> AtRest w ->
    currentPartition_ w = Some (q, p) ->
    0 <= left ->
    numProcessedRows_ w + left <= numRows_ w ->
    (partitionsLeft (windowBuild_ w) < fuel)%nat ->
    match callApplyLoop_while fuel resultIndex left w with
    | (w', Returned _) =>
        Inv w' /\ AtRest w' /\ sameSetup w w'
        /\ numProcessedRows_ w' = numProcessedRows_ w + left
        /\ slicesOf (calls w')
           = slicesOf (calls w)
             ++ planSlices (drop q (partitions (windowBuild_ w))) q
                  (partitionOffset_ w) left
        /\ nextRow w'
           = planEnd (drop q (partitions (windowBuild_ w))) q
               (partitionOffset_ w) left
    | (_, Thrown _) => neverThrows w = false
    end.
Proof.
  induction fuel as [|fuel IH]; intros w resultIndex left q p Hinv Hrest Hc
    Hleft Hfit Hfuel; [lia|].
  destruct (Z.eq_dec left 0) as [->|Hpos].
  { cbn [callApplyLoop_while]. simpl.
    rewrite planSlices_none, planEnd_none, app_nil_r by lia.
    split; [exact Hinv|]. split; [exact Hrest|].
    split; [apply sameSetup_refl|]. split; [lia|]. split; [reflexivity|].
    unfold nextRow. rewrite Hc. reflexivity. }
  rewrite (callApplyLoop_while_step fuel resultIndex left w q p Hc) by lia.
  destruct (Inv_partition_rows w q p Hinv Hc) as [Hrows [Hbefore [Hpfit Hmax]]].
  pose proof Hinv as [Hfr Hne Htot _ _ Hnext Hcur _].
  rewrite Hc in Hcur. destruct Hcur as [Hp [Hn [Hoff Hpr]]].
  pose proof (Hrest q p Hc) as Hinside.
  assert (Hdrop : drop q (partitions (windowBuild_ w))
                  = p :: drop (S q) (partitions (windowBuild_ w)))
    by (apply drop_S; exact Hp).
  cbv zeta.
  rewrite (to_int32_small (WindowPartition.numRows p - partitionOffset_ w))
    by (apply in_range_32; lia).
  rewrite Hdrop. cbn [planSlices planEnd].
  destruct (Z.ltb_spec 0 left) as [_|]; [|lia].
  destruct (Z.leb_spec (WindowPartition.numRows p - partitionOffset_ w) left)
    as [Hfits|Hpartial].
  - (* the rest of the partition fits in the budget *)
    replace (partitionOffset_ w + (WindowPartition.numRows p - partitionOffset_ w))
      with (WindowPartition.numRows p) by lia.
    rewrite (to_int32_small (WindowPartition.numRows p)) by (apply in_range_32; lia).
    pose proof (callApplyForPartitionRows_effect w (q, p) (partitionOffset_ w)
                  (WindowPartition.numRows p) resultIndex Hc Hfr) as Heff.
    destruct (callApplyForPartitionRows (partitionOffset_ w)
                (WindowPartition.numRows p) resultIndex w)
      as [w1 [[]|e]] eqn:Hrun; [clear Heff | exact Heff].
    destruct (slice_Inv w q p (WindowPartition.numRows p) resultIndex w1
                Hinv Hc ltac:(lia) Hrun)
      as [Hinv1 [Hsame1 [Hb1 [Hc1 [Ho1 [Hpr1 Hsl1]]]]]].
    destruct (resetState_Inv w1 Hinv1) as [Hinv2 [Hrest2 [Hsame2 [Hpr2 [Hsl2 Hnextp]]]]].
    { intros q' p' Hc'. rewrite Hc1 in Hc'. injection Hc' as <- <-. exact Ho1. }
    rewrite Hb1, Hn in Hnextp.
    pose proof (sameSetup_trans _ _ _ Hsame1 Hsame2) as Hsame.
    destruct (partitions (windowBuild_ w) !! S q) as [p'|] eqn:Hp'.
    + destruct Hnextp as [Hc2 [Ho2 Hn2]]. rewrite Hc2.
      rewrite (to_int32_small (left - _)) by (apply in_range_32; lia).
      specialize (IH (resetState w1)
                    (to_int32 (resultIndex
                               + (WindowPartition.numRows p - partitionOffset_ w)))
                    (left - (WindowPartition.numRows p - partitionOffset_ w))
                    (S q) p' Hinv2 Hrest2 Hc2 ltac:(lia)).
      destruct Hsame as [_ [_ [Hnr [_ Hparts]]]].
      rewrite Hpr2, Hpr1, Hnr in IH. specialize (IH ltac:(lia)).
      unfold partitionsLeft in IH, Hfuel. rewrite Hn2, Hparts in IH.
      rewrite Hn in Hfuel. apply lookup_lt_Some in Hp'.
      specialize (IH ltac:(lia)).
      destruct (callApplyLoop_while fuel _ _ (resetState w1)) as [w' [[]|e]].
      * destruct IH as [Hinv' [Hrest' [Hsame' [Hpr' [Hsl' Hend']]]]].
        split; [exact Hinv'|]. split; [exact Hrest'|].
        split; [apply sameSetup_trans with (resetState w1);
                [apply (sameSetup_trans _ _ _ Hsame1 Hsame2) | exact Hsame']|].
        split; [lia|]. split.
        -- rewrite Hsl', Hsl2, Hsl1, Ho2, <- app_assoc. reflexivity.
        -- rewrite Hend', Ho2. reflexivity.
      * rewrite <- (neverThrows_sameSetup w (resetState w1)
                      (sameSetup_trans _ _ _ Hsame1 Hsame2)).
        exact IH.
    + destruct Hnextp as [Hnextp Hb2]. rewrite Hnextp.
      assert (Hall : rowsBefore (partitions (windowBuild_ w)) (S q)
                     = totalRows (partitions (windowBuild_ w)))
        by (apply rowsBefore_all; apply lookup_ge_None in Hp'; lia).
      rewrite (rowsBefore_S _ _ _ Hp) in Hall.
      assert (Hexact : left = WindowPartition.numRows p - partitionOffset_ w) by lia.
      split; [exact Hinv2|]. split; [exact Hrest2|]. split; [exact Hsame|].
      split; [lia|].
      rewrite Hsl2, Hsl1, drop_ge by (apply lookup_ge_None in Hp'; lia).
      split; [reflexivity|].
      unfold nextRow. rewrite Hnextp, Hb2, Hn. reflexivity.
  - (* only a part of the partition fits *)
    rewrite (to_int32_small (partitionOffset_ w + left)) by (apply in_range_32; lia).
    pose proof (callApplyForPartitionRows_effect w (q, p) (partitionOffset_ w)
                  (partitionOffset_ w + left) resultIndex Hc Hfr) as Heff.
    destruct (callApplyForPartitionRows (partitionOffset_ w)
                (partitionOffset_ w + left) resultIndex w)
      as [w1 [[]|e]] eqn:Hrun; [clear Heff | exact Heff].
    destruct (slice_Inv w q p (partitionOffset_ w + left) resultIndex w1
                Hinv Hc ltac:(lia) Hrun)
      as [Hinv1 [Hsame1 [Hb1 [Hc1 [Ho1 [Hpr1 Hsl1]]]]]].
    split; [exact Hinv1|]. split.
    { intros q' p' Hc'. rewrite Hc1 in Hc'. injection Hc' as <- <-. lia. }
    split; [exact Hsame1|]. split; [lia|]. split; [exact Hsl1|].
    unfold nextRow. rewrite Hc1, Ho1. reflexivity.
Qed.

Lemma Inv_processed w :
  Inv w -> 0 <= numProcessedRows_ w <= numRows_ w /\ numRows_ w <= 2147483647.
Proof.
  intros Hinv. pose proof Hinv as [_ Hne Htot Hmax _ _ Hcur _].
  unfold max_signed in Hmax. simpl in Hmax.
  destruct (currentPartition_ w) as [[q p]|] eqn:Hc.
  - destruct (Inv_partition_rows w q p Hinv Hc) as [_ [Hb [Hfit _]]].
    destruct Hcur as [_ [_ [Hoff ->]]]. lia.
  - rewrite Hcur, Htot.
    pose proof (rowsBefore_nonneg _ (nextIndex (windowBuild_ w)) Hne).
    pose proof (rowsBefore_le _ (nextIndex (windowBuild_ w)) Hne). lia.
Qed.

(** One output call: it yields no output when no rows are left, and
    otherwise [min(budget, rows left)] rows, which it processes in the slices
    of the batching rule; it throws only if some frame can make bound
    resolution throw. *)
Lemma getOutput_spec w :
  Inv w -> AtRest w ->
  match getOutput w with
  | (w', Returned out) =>
      Inv w' /\ AtRest w' /\ sameSetup w w'
      /\ out = (if rowsLeft w =? 0 then None
                else Some (Z.min (numRowsPerOutput_ w) (rowsLeft w)))
      /\ numProcessedRows_ w'
         = numProcessedRows_ w + Z.min (numRowsPerOutput_ w) (rowsLeft w)
      /\ slicesOf (calls w') = slicesOf (calls w) ++ plannedSlices w
      /\ nextRow w' = plannedEnd w
  | (_, Thrown _) => neverThrows w = false
  end.
Proof.
  intros Hinv Hrest.
  destruct (Inv_processed w Hinv) as [Hpr Hmax].
  pose proof (inv_budget w Hinv) as Hbud.
  assert (Hidle : rowsLeft w = 0 ->
            Inv w /\ AtRest w /\ sameSetup w w
            /\ None = (if rowsLeft w =? 0 then None
                       else Some (Z.min (numRowsPerOutput_ w) (rowsLeft w)))
            /\ numProcessedRows_ w
               = numProcessedRows_ w + Z.min (numRowsPerOutput_ w) (rowsLeft w)
            /\ slicesOf (calls w) = slicesOf (calls w) ++ plannedSlices w
            /\ nextRow w = plannedEnd w).
  { intros H0. unfold plannedSlices, plannedEnd. rewrite H0.
    rewrite planSlices_none, planEnd_none, app_nil_r by lia.
    split; [exact Hinv|]. split; [exact Hrest|]. split; [apply sameSetup_refl|].
    split; [reflexivity|]. split; [lia|]. split; [reflexivity|].
    destruct (nextRow w). reflexivity. }
  unfold getOutput. unfold bind at 1. unfold get at 1.
  destruct (Z.eqb_spec (numRows_ w) 0) as [Hzero|Hsome].
  { apply Hidle. unfold rowsLeft. lia. }
  fold (rowsLeft w). rewrite (to_int32_small (rowsLeft w))
    by (apply in_range_32; unfold rowsLeft; lia).
  destruct (Z.eqb_spec (rowsLeft w) 0) as [Hnone|Hleft].
  { apply Hidle. exact Hnone. }
  assert (Hpos : 0 < rowsLeft w) by (unfold rowsLeft in *; lia).
  (* the state with a current partition, [w1] *)
  assert (Hcurrent : exists w1 q p,
            (match currentPartition_ w with
             | Some _ => ret tt
             | None => callResetPartition
             end) w = (w1, Returned tt)
            /\ Inv w1 /\ AtRest w1 /\ sameSetup w w1
            /\ currentPartition_ w1 = Some (q, p)
            /\ numProcessedRows_ w1 = numProcessedRows_ w
            /\ slicesOf (calls w1) = slicesOf (calls w)
            /\ (q, partitionOffset_ w1) = nextRow w).
  { unfold nextRow. destruct (currentPartition_ w) as [[q p]|] eqn:Hc.
    - exists w, q, p. split; [reflexivity|].
      split; [exact Hinv|]. split; [exact Hrest|]. split; [apply sameSetup_refl|].
      repeat split; assumption.
    - rewrite callResetPartition_eq.
      destruct (resetState_Inv w Hinv) as [Hinv1 [Hrest1 [Hsame1 [Hpr1 [Hsl1 Hnextp]]]]].
      { intros q p Hc'. rewrite Hc in Hc'. discriminate Hc'. }
      pose proof Hinv as [_ Hne Htot _ _ _ Hcur _]. rewrite Hc in Hcur.
      assert (Hq : (nextIndex (windowBuild_ w) < length (partitions (windowBuild_ w)))%nat).
      { apply rowsBefore_lt_total; [exact Hne|]. unfold rowsLeft in Hpos. lia. }
      destruct (lookup_lt_is_Some_2 _ _ Hq) as [p Hp]. rewrite Hp in Hnextp.
      destruct Hnextp as [Hc1 [Ho1 _]].
      exists (resetState w), (nextIndex (windowBuild_ w)), p.
      split; [reflexivity|]. split; [exact Hinv1|]. split; [exact Hrest1|].
      split; [exact Hsame1|]. split; [exact Hc1|]. split; [exact Hpr1|].
      split; [exact Hsl1|]. rewrite Ho1. reflexivity. }
  destruct Hcurrent as [w1 [q [p [Hstep [Hinv1 [Hrest1 [Hsame1 [Hc1 [Hpr1 [Hsl1 Hrow]]]]]]]]]].
  unfold bind at 1. rewrite Hstep. unfold bind at 1. unfold get at 1.
  rewrite Hc1.
  pose proof Hsame1 as [_ [_ [Hnr [Hro Hparts]]]].
  rewrite Hro.
  unfold bind at 1. unfold callApplyLoop. unfold bind at 1.
  unfold currentPartition at 1. unfold bind at 1. unfold get at 1. rewrite Hc1.
  unfold ret at 1. unfold bind at 1. unfold get at 1.
  pose proof (callApplyLoop_while_spec (S (partitionsLeft (windowBuild_ w1))) w1 0
                (Z.min (numRowsPerOutput_ w) (rowsLeft w)) q p Hinv1 Hrest1 Hc1
                ltac:(lia)) as Hloop.
  rewrite Hpr1, Hnr in Hloop. unfold rowsLeft in Hloop at 1.
  specialize (Hloop ltac:(lia) ltac:(lia)).
  destruct (callApplyLoop_while _ 0 _ w1) as [w' [[]|e]].
  - destruct Hloop as [Hinv' [Hrest' [Hsame' [Hpr' [Hsl' Hend']]]]].
    split; [exact Hinv'|]. split; [exact Hrest'|].
    split; [apply sameSetup_trans with w1; assumption|].
    split; [reflexivity|]. split; [exact Hpr'|]. split.
    + rewrite Hsl', Hsl1. unfold plannedSlices. rewrite <- Hrow, Hparts.
      reflexivity.
    + rewrite Hend'. unfold plannedEnd. rewrite <- Hrow, Hparts. reflexivity.
  - rewrite <- (neverThrows_sameSetup w w1 Hsame1). exact Hloop.
Qed.

(** ** Runs of output calls *)

Lemma create_returns f args fn : create f args = Returned fn -> fn = f.
Proof.
  unfold create. destruct (signatures f) as [registered|]; [|discriminate].
  destruct (existsb _ registered); [|discriminate].
  intros H. injection H as <-. reflexivity.
Qed.

(** What the construction of a non-empty list of functions returned was
    built from. *)
Lemma createWindowFunctions_cons f frame rest fs wfs :
  createWindowFunctions ((f, frame) :: rest) = Returned (fs, wfs) ->
  exists args wf fs' wfs',
    functionArgs (inputs f) = Returned args
    /\ create f args = Returned f
    /\ createWindowFrame frame = Returned wf
    /\ createWindowFunctions rest = Returned (fs', wfs')
    /\ fs = f :: fs' /\ wfs = wf :: wfs'.
Proof.
  cbn [createWindowFunctions]. intros H.
  destruct (functionArgs (inputs f)) as [args|e]; [|discriminate H].
  destruct (create f args) as [fn|e] eqn:Hfn; [|discriminate H].
  pose proof (create_returns f args fn Hfn) as ->.
  destruct (createWindowFrame frame) as [wf|e]; [|discriminate H].
  destruct (createWindowFunctions rest) as [[fs' wfs']|e]; [|discriminate H].
  injection H as <- <-. exists args, wf, fs', wfs'.
  repeat split; first [exact Hfn | reflexivity].
Qed.

Lemma createWindowFunctions_lengths functions fs wfs :
  createWindowFunctions functions = Returned (fs, wfs) ->
  length wfs = length fs /\ length fs = length functions.
Proof.
  revert fs wfs. induction functions as [|[f frame] rest IH]; intros fs wfs H.
  - simpl in H. injection H as <- <-. split; reflexivity.
  - apply createWindowFunctions_cons in H
      as [args [wf [fs' [wfs' [_ [_ [_ [Hrest [-> ->]]]]]]]]].
    destruct (IH fs' wfs' Hrest) as [H1 H2].
    simpl. split; f_equal; assumption.
Qed.

Lemma TraceInv_start parts numFuncs : TraceInv parts numFuncs 0 None [].
Proof.
  split.
  - intros c [].
  - intros q Hq. lia.
  - exact I.
  - intros c Hc. discriminate Hc.
  - intros q Hq. lia.
  - intros c [].
Qed.

Lemma totalRows_zero parts :
  Forall (fun p => 1 <= WindowPartition.numRows p) parts ->
  totalRows parts = 0 -> parts = [].
Proof.
  intros H H0. destruct parts as [|p rest]; [reflexivity|].
  inversion H as [|? ? Hp Hrest]; subst. simpl in H0.
  pose proof (totalRows_nonneg rest Hrest). lia.
Qed.

(** A finalized operator satisfies the invariant, with nothing processed. *)
Lemma Finalized_Inv functions budget total built w :
  Finalized functions budget total built w ->
  Inv w /\ AtRest w
  /\ numRows_ w = total /\ numRowsPerOutput_ w = budget
  /\ numProcessedRows_ w = 0 /\ calls w = []
  /\ currentPartition_ w = None
  /\ partitions (windowBuild_ w) = built
  /\ length (windowFunctions_ w) = length functions.
Proof.
  intros [Hsetup [Hbud [Hne [Htot Hmax]]]].
  unfold setup, Window_new in Hsetup.
  destruct (createWindowFunctions functions) as [[fs wfs]|e] eqn:Hfns;
    [|discriminate Hsetup].
  pose proof (createWindowFunctions_lengths _ _ _ Hfns) as [Hlen Hlenf].
  pose proof (totalRows_nonneg built Hne) as Hnonneg.
  unfold addInput, noMoreInput, bind, modify, get in Hsetup. simpl in Hsetup.
  change (0 + total) with total in Hsetup.
  rewrite (to_int32_small total) in Hsetup
    by (apply in_range_32; unfold max_signed in Hmax; simpl in Hmax; lia).
  destruct (Z.eqb_spec total 0) as [Hzero|Hsome]; unfold ret in Hsetup;
    injection Hsetup as <-.
  - assert (Hbuilt : built = []) by (apply totalRows_zero; [exact Hne | lia]).
    subst built.
    split; [|split; [intros q p Hc; discriminate Hc
                    | repeat split; simpl; congruence]].
    split; simpl;
      first [ assumption | apply TraceInv_start | lia | reflexivity
            | unfold max_signed; simpl; lia ].
  - split; [|split; [intros q p Hc; discriminate Hc
                    | repeat split; simpl; congruence]].
    split; simpl;
      first [ assumption | apply TraceInv_start | lia | reflexivity
            | symmetry; assumption ].
Qed.

Lemma getOutputs_spec n :
  forall w, Inv w -> AtRest w ->
  match getOutputs n w with
  | (w', Returned outs) =>
      Inv w' /\ AtRest w' /\ sameSetup w w'
      /\ outs = batchSizes (numRowsPerOutput_ w) (rowsLeft w) n
  | (_, Thrown _) => neverThrows w = false
  end.
Proof.
  induction n as [|n IH]; intros w Hinv Hrest.
  - simpl. split; [exact Hinv|]. split; [exact Hrest|].
    split; [apply sameSetup_refl | reflexivity].
  - cbn [getOutputs batchSizes]. unfold bind at 1.
    pose proof (getOutput_spec w Hinv Hrest) as Hcall.
    pose proof (inv_budget w Hinv) as Hbud.
    destruct (getOutput w) as [w1 [out|e]]; [|exact Hcall].
    destruct Hcall as [Hinv1 [Hrest1 [Hsame1 [Hout [Hpr1 _]]]]].
    specialize (IH w1 Hinv1 Hrest1). unfold bind at 1.
    destruct (getOutputs n w1) as [w' [outs|e]].
    + destruct IH as [Hinv' [Hrest' [Hsame' Houts]]].
      split; [exact Hinv'|]. split; [exact Hrest'|].
      split; [apply sameSetup_trans with w1; assumption|].
      pose proof Hsame1 as [_ [_ [Hnr [Hro _]]]].
      assert (Hleft1 : rowsLeft w1
                = rowsLeft w - Z.min (numRowsPerOutput_ w) (rowsLeft w))
        by (unfold rowsLeft in *; lia).
      rewrite Houts, Hout, Hro, Hleft1. unfold ret.
      destruct (Z.eqb_spec (rowsLeft w) 0) as [H0|Hpos]; [|reflexivity].
      rewrite H0. replace (0 - Z.min (numRowsPerOutput_ w) 0) with 0 by lia.
      reflexivity.
    + rewrite <- (neverThrows_sameSetup w w1 Hsame1). exact IH.
Qed.

(** C2: after input is finalized with [total] rows and output budget
    [budget], any number [k] of successive output calls yield the sizes of
    the batching rule: [min(budget, rows not yet processed)] rows per call
    and no output once no rows are left.  The call after them yields the
    same, counts its rows as processed, processes exactly the slices of the
    batching rule (the rest of the current partition when it fits in what is
    left of the budget, then on to the next partition; else exactly what is
    left of the budget, inside the partition) and leaves the cursor where the
    rule ends.  A call throws only if some frame can make bound resolution
    throw. *)
Theorem getOutput_batches
    (functions : list (WindowFunction * Frame)) (budget total : Z)
    (built : list WindowPartition) (w : Window) (k : nat) :
  Finalized functions budget total built w ->
  match getOutputs k w with
  | (wk, Returned outs) =>
      outs = batchSizes budget total k
      /\ match getOutput wk with
         | (w', Returned out) =>
             out = (if rowsLeft wk =? 0 then None
                    else Some (Z.min budget (rowsLeft wk)))
             /\ numProcessedRows_ w'
                = numProcessedRows_ wk + Z.min budget (rowsLeft wk)
             /\ slicesOf (calls w') = slicesOf (calls wk) ++ plannedSlices wk
             /\ nextRow w' = plannedEnd wk
         | (_, Thrown _) => neverThrows w = false
         end
  | (_, Thrown _) => neverThrows w = false
  end.
Proof.
  intros Hfin.
  destruct (Finalized_Inv _ _ _ _ _ Hfin)
    as [Hinv [Hrest [Hnr [Hro [Hpr _]]]]].
  pose proof (getOutputs_spec k w Hinv Hrest) as Hrun.
  destruct (getOutputs k w) as [wk [outs|e]]; [|exact Hrun].
  destruct Hrun as [Hinvk [Hrestk [Hsamek Houts]]].
  split.
  - rewrite Houts, Hro. unfold rowsLeft. rewrite Hnr, Hpr. f_equal. lia.
  - pose proof (getOutput_spec wk Hinvk Hrestk) as Hcall.
    pose proof Hsamek as [_ [_ [_ [Hrok _]]]].
    destruct (getOutput wk) as [w' [out|e]].
    + destruct Hcall as [_ [_ [_ [Hout [Hpr' [Hsl Hend]]]]]].
      rewrite Hrok, Hro in Hout, Hpr'. repeat split; assumption.
    + rewrite <- (neverThrows_sameSetup w wk Hsamek). exact Hcall.
Qed.

Lemma tenRowsExample_Finalized :
  Finalized
    [(sum_fn, runningFrame);
     (sum_fn, rowsFrame kPreceding kCurrentRow
                (Some (ConstantTypedExpr BIGINT (Some 2))) None)]
    4 10 [tenRows] tenRowsExample.
Proof.
  split; [reflexivity|]. split; [lia|]. split.
  - repeat constructor. simpl. lia.
  - split; [reflexivity|]. unfold max_signed. simpl. lia.
Defined.

Lemma threePartitionsExample_Finalized :
  Finalized
    [(sum_fn, runningFrame);
     (sum_fn, rowsFrame kPreceding kCurrentRow
                (Some (ConstantTypedExpr BIGINT (Some 2))) None)]
    4 11
    [keyedPartition [1; 1; 2] noColumns;
     keyedPartition [7; 8] noColumns;
     keyedPartition [1; 2; 2; 2; 3; 3] noColumns]
    threePartitionsExample.
Proof.
  split; [reflexivity|]. split; [lia|]. split.
  - repeat constructor; simpl; lia.
  - split; [reflexivity|]. unfold max_signed. simpl. lia.
Defined.

(** A partition of 10 rows with budget 4: 4, 4, 2 rows, then no output. *)
Lemma getOutput_batches_witness :
  snd (getOutputs 4 tenRowsExample)
  = Returned [Some 4; Some 4; Some 2; None].
Proof.
  pose proof (getOutput_batches _ _ _ _ _ 4 tenRowsExample_Finalized) as H.
  destruct (getOutputs 4 tenRowsExample) as [wk [outs|e]].
  - destruct H as [-> _]. reflexivity.
  - discriminate H.
Defined.

(** The batching rule at work across partitions of 3, 2 and 6 rows. *)
Example threePartitions_slices :
  let '(w', outs) := getOutputs 4 threePartitionsExample in
  outs = Returned [Some 4; Some 4; Some 3; None]
  /\ slicesOf (calls w')
     = [(0%nat, 0, 3); (1%nat, 0, 1); (1%nat, 1, 2); (2%nat, 0, 3); (2%nat, 3, 6)].
Proof. vm_compute. split; reflexivity. Qed.

(** C7: after any number of output calls on a finalized operator, (1) a
    partition is current only with its cursor below its row count, and it is
    the last partition the build handed out; (2) two successive calls on the
    collaborators are about different partitions only if the first belongs
    to a slice that ends at the row count of its partition; (3) every slice
    starts below the row count of its partition and ends at or below it, so
    no slice follows one that reached the row count; (4) the calls about a
    partition that was handed out are one [resetPartition] per window
    function instance, in order, followed by calls that are not resets; and
    (5) there are no calls about a partition that was not handed out. *)
Theorem partition_left_at_row_count_and_reset_once
    (functions : list (WindowFunction * Frame)) (budget total : Z)
    (built : list WindowPartition) (w : Window) (k : nat) :
  Finalized functions budget total built w ->
  match getOutputs k w with
  | (wk, Returned _) =>
      (forall q p, currentPartition_ wk = Some (q, p) ->
         built !! q = Some p
         /\ nextIndex (windowBuild_ wk) = S q
         /\ 0 <= partitionOffset_ wk < WindowPartition.numRows p)
      /\ adjacentOk built (calls wk)
      /\ (forall c, In c (calls wk) -> isReset c = false ->
          0 <= startOf c < rowsOf built (partitionOf c)
          /\ startOf c < posAfter c <= rowsOf built (partitionOf c))
      /\ (forall q, (q < nextIndex (windowBuild_ wk))%nat ->
          exists rest,
            callsOn q (calls wk) = resets (length functions) q ++ rest
            /\ Forall (fun c => isReset c = false) rest)
      /\ (forall q, (nextIndex (windowBuild_ wk) <= q)%nat ->
          callsOn q (calls wk) = [])
  | (_, Thrown _) => neverThrows w = false
  end.
Proof.
  intros Hfin.
  destruct (Finalized_Inv _ _ _ _ _ Hfin)
    as [Hinv [Hrest [_ [_ [_ [_ [_ [Hparts Hfuncs]]]]]]]].
  pose proof (getOutputs_spec k w Hinv Hrest) as Hrun.
  destruct (getOutputs k w) as [wk [outs|e]]; [|exact Hrun].
  destruct Hrun as [Hinvk [Hrestk [[Hf [_ [_ [_ Hp]]]] _]]].
  pose proof Hinvk as [_ _ _ _ _ _ Hcur [Hknown Hresets Hadj _ _ Hinside]].
  rewrite Hp, Hparts in *. rewrite Hf, Hfuncs in Hresets.
  split; [|split; [exact Hadj|split; [|split]]].
  - intros q p Hc. rewrite Hc in Hcur. destruct Hcur as [Hq [Hn [Hoff _]]].
    split; [exact Hq|]. split; [exact Hn|]. specialize (Hrestk q p Hc). lia.
  - intros c Hc Hnr. specialize (Hinside c Hc Hnr). lia.
  - exact Hresets.
  - intros q Hq. apply callsOn_unknown with (nextIndex (windowBuild_ wk));
      [exact Hknown | exact Hq].
Qed.

Lemma partition_left_at_row_count_and_reset_once_witness :
  callsOn 1 (calls (fst (getOutputs 2 threePartitionsExample)))
  = [ResetPartition 0 1; ResetPartition 1 1;
     ComputePeerBuffers 1 0 1 0 0 0 1; Apply 0 1 0 1 3; Apply 1 1 0 1 3;
     ComputePeerBuffers 1 1 2 0 1 1 2; Apply 0 1 1 2 0; Apply 1 1 1 2 0]
  /\ adjacentOk
       [keyedPartition [1; 1; 2] noColumns;
        keyedPartition [7; 8] noColumns;
        keyedPartition [1; 2; 2; 2; 3; 3] noColumns]
       (calls (fst (getOutputs 2 threePartitionsExample))).
Proof.
  split; [vm_compute; reflexivity|].
  pose proof (partition_left_at_row_count_and_reset_once _ _ _ _ _ 2
                threePartitionsExample_Finalized) as H.
  destruct (getOutputs 2 threePartitionsExample) as [wk [outs|e]].
  - destruct H as [_ [Hadj _]]. exact Hadj.
  - discriminate H.
Defined.

(** C8: on a finalized operator, after any number of output calls, the peer
    computations on each partition are chained: the first starts at row 0
    with the continuation pair (0, 0), and each next one starts where the one
    before ended and is given the pair the one before returned; for the
    current partition the operator holds the pair and the cursor the chain
    ends with.  In any state, processing a slice returns with the
    continuation pair and the peer buffers the partition's peer computation
    returned for the pair held before, and with the cursor advanced by the
    length of the slice (in 32-bit arithmetic; exactly, when slice and cursor
    fit); and a partition change resets pair and cursor to 0. *)
Theorem peer_continuation_threaded
    (functions : list (WindowFunction * Frame)) (budget total : Z)
    (built : list WindowPartition) (w : Window) (k : nat) :
  Finalized functions budget total built w ->
  match getOutputs k w with
  | (wk, Returned _) =>
      (forall q, chained 0 0 0 (peersOf q (calls wk)))
      /\ (forall q p, currentPartition_ wk = Some (q, p) ->
          chainLast (0, 0, 0) (peersOf q (calls wk))
          = (peerStartRow_ wk, peerEndRow_ wk, partitionOffset_ wk))
  | (_, Thrown _) => neverThrows w = false
  end
  /\ (forall w0 p startRow endRow off w',
      currentPartition_ w0 = Some p ->
      length (windowFrames_ w0) = length (windowFunctions_ w0) ->
      callApplyForPartitionRows startRow endRow off w0 = (w', Returned tt) ->
      (peerStartRow_ w', peerEndRow_ w', (peerStartBuffer_ w', peerEndBuffer_ w'))
      = WindowPartition.computePeerBuffers (snd p) startRow endRow
          (peerStartRow_ w0) (peerEndRow_ w0)
          (peerStartBuffer_ w0) (peerEndBuffer_ w0)
      /\ partitionOffset_ w'
         = to_int32 (partitionOffset_ w0 + to_int32 (endRow - startRow))
      /\ (in_range 32 (endRow - startRow) ->
          in_range 32 (partitionOffset_ w0 + (endRow - startRow)) ->
          partitionOffset_ w' = partitionOffset_ w0 + (endRow - startRow)))
  /\ (forall w0,
      let w' := fst (callResetPartition w0) in
      peerStartRow_ w' = 0 /\ peerEndRow_ w' = 0 /\ partitionOffset_ w' = 0).
Proof.
  intros Hfin. split; [|split].
  - destruct (Finalized_Inv _ _ _ _ _ Hfin) as [Hinv [Hrest _]].
    pose proof (getOutputs_spec k w Hinv Hrest) as Hrun.
    destruct (getOutputs k w) as [wk [outs|e]]; [|exact Hrun].
    destruct Hrun as [Hinvk _].
    pose proof Hinvk as [_ _ _ _ _ _ Hcur [Hknown _ _ _ Hchain _]].
    split.
    + intros q.
      destruct (decide (q < nextIndex (windowBuild_ wk))%nat) as [Hq|Hq].
      * apply Hchain. exact Hq.
      * unfold peersOf.
        rewrite (callsOn_unknown q (nextIndex (windowBuild_ wk)));
          [exact I | exact Hknown | lia].
    + intros q p Hc. rewrite Hc in Hcur. destruct Hcur as [_ [Hn _]].
      apply (Hchain q ltac:(lia)). unfold position. rewrite Hc. reflexivity.
  - intros w0 p startRow endRow off w' Hp Hlen Hrun.
    pose proof (callApplyForPartitionRows_effect w0 p startRow endRow off Hp Hlen)
      as Heff.
    rewrite Hrun in Heff. destruct Heff as [_ [_ [_ [_ [Ho [_ Hpeers]]]]]].
    split; [exact Hpeers|]. split; [exact Ho|].
    intros Hlen32 Hsum32. rewrite Ho.
    rewrite (to_int32_small (endRow - startRow)) by exact Hlen32.
    apply to_int32_small. exact Hsum32.
  - intros w0. rewrite callResetPartition_eq. simpl. unfold resetState.
    destruct (partitions (windowBuild_ w0) !! nextIndex (windowBuild_ w0));
      repeat split.
Qed.

Lemma peer_continuation_threaded_witness :
  peersOf 0 (calls (fst (getOutputs 3 tenRowsExample)))
  = [ComputePeerBuffers 0 0 4 0 0 2 5;
     ComputePeerBuffers 0 4 8 2 5 6 8;
     ComputePeerBuffers 0 8 10 6 8 8 10]
  /\ chained 0 0 0 (peersOf 0 (calls (fst (getOutputs 3 tenRowsExample)))).
Proof.
  split; [vm_compute; reflexivity|].
  destruct (peer_continuation_threaded _ _ _ _ _ 3 tenRowsExample_Finalized)
    as [H _].
  destruct (getOutputs 3 tenRowsExample) as [wk [outs|e]].
  - destruct H as [Hch _]. apply Hch.
  - discriminate H.
Defined.

Lemma updateFrameBounds_unbounded_and_current_row_witness :
  exists filled,
    updateFrameBounds tenRows 4
      {| wf_type := kRange; wf_startType := kUnboundedPreceding;
         wf_endType := kCurrentRow; start := None; end_ := None |}
      false 4 4 [2; 5; 6; 6] [4; 5; 7; 7] [0; 0; 0; 0]
    = (filled, Returned tt)
    /\ load filled 0 = 4 /\ load filled 3 = 7.
Proof.
  destruct (updateFrameBounds_unbounded_and_current_row tenRows 4
              {| wf_type := kRange; wf_startType := kUnboundedPreceding;
                 wf_endType := kCurrentRow; start := None; end_ := None |}
              false 4 4 [2; 5; 6; 6] [4; 5; 7; 7] [0; 0; 0; 0])
    as [filled [Hrun [_ Hrows]]];
    [lia | lia | simpl; lia | unfold max_signed; simpl; lia | simpl; lia
    | discriminate | discriminate |].
  exists filled. split; [exact Hrun|]. split.
  - destruct (Hrows 0%nat) as [_ [_ [Hrange _]]]; [simpl; lia|].
    apply Hrange; reflexivity.
  - destruct (Hrows 3%nat) as [_ [_ [Hrange _]]]; [simpl; lia|].
    apply Hrange; reflexivity.
Defined.

(** ** The scenarios of the specification, run on the model *)

(** ROWS BETWEEN UNBOUNDED PRECEDING AND CURRENT ROW: the frame of row [i] is
    [0, i]. *)
Example rows_running_frame :
  firstBatch (ready [(sum_fn, runningFrame)] 8 5
                [keyedPartition [1; 1; 2; 3; 3] noColumns])
  = (Returned (Some 5),
     ([0; 0; 0; 0; 0; 0; 0; 0], [0; 1; 2; 3; 4; 0; 0; 0],
      [true; true; true; true; true])).
Proof. vm_compute. reflexivity. Qed.

(** RANGE BETWEEN UNBOUNDED PRECEDING AND CURRENT ROW: the frame of row [i]
    ends with its peer group. *)
Example range_running_frame :
  firstBatch (ready [(sum_fn, rangeFrame kUnboundedPreceding kCurrentRow None None)]
                8 5 [keyedPartition [1; 1; 2; 3; 3] noColumns])
  = (Returned (Some 5),
     ([0; 0; 0; 0; 0; 0; 0; 0], [1; 1; 2; 4; 4; 0; 0; 0],
      [true; true; true; true; true])).
Proof. vm_compute. reflexivity. Qed.

(** ROWS BETWEEN 2 PRECEDING AND CURRENT ROW on five rows: the start of row 0
    resolves to -2 and is repaired to 0; row 4 has the frame [2, 4]. *)
Example rows_two_preceding :
  fst (updateKRowsFrameBounds (keyedPartition [1; 1; 2; 3; 3] noColumns) 0 true
         (constantArg 2) 0 5 [0; 0; 0; 0; 0])
  = [-2; -1; 0; 1; 2]
  /\ firstBatch (ready [(sum_fn, rowsFrame kPreceding kCurrentRow
                                   (Some (ConstantTypedExpr BIGINT (Some 2))) None)]
                   5 5 [keyedPartition [1; 1; 2; 3; 3] noColumns])
     = (Returned (Some 5),
        ([0; 0; 0; 1; 2], [0; 1; 2; 3; 4], [true; true; true; true; true])).
Proof. vm_compute. split; reflexivity. Qed.

(** ROWS BETWEEN 1 FOLLOWING AND 3 FOLLOWING on four rows: the end of row 2
    resolves to 5 and is repaired to 3; row 3 starts at 4, past the last
    row, and is flagged invalid with its raw bounds left in place. *)
Example rows_three_following :
  firstBatch (ready [(sum_fn, rowsFrame kFollowing kFollowing
                                (Some (ConstantTypedExpr BIGINT (Some 1)))
                                (Some (ConstantTypedExpr BIGINT (Some 3))))]
                4 4 [keyedPartition [1; 2; 3; 4] noColumns])
  = (Returned (Some 4),
     ([1; 2; 3; 4], [3; 3; 3; 6], [true; true; true; false])).
Proof. vm_compute. reflexivity. Qed.

(** A K PRECEDING offset column with a null in its second row: the output
    call fails with the null-offset error and the start buffer is as
    allocated. *)
Example null_offset_in_column :
  firstBatch (ready [(sum_fn, rowsFrame kPreceding kCurrentRow
                                (Some (FieldAccessTypedExpr BIGINT 0)) None)]
                4 3 [keyedPartition [1; 2; 3]
                       (offsetColumn [Some 1; None; Some 2])])
  = (Thrown (VeloxUserError OffsetMustNotBeNull),
     ([0; 0; 0; 0], [0; 0; 0; 0], [true; true; true])).
Proof. vm_compute. reflexivity. Qed.

(** ** A RANGE frame with a K bound, at the first output call *)

Lemma createWindowFunctions_lookup functions fs wfs i f frame :
  createWindowFunctions functions = Returned (fs, wfs) ->
  functions !! i = Some (f, frame) ->
  exists windowFrame,
    wfs !! i = Some windowFrame /\ createWindowFrame frame = Returned windowFrame.
Proof.
  revert fs wfs i.
  induction functions as [|[f' frame'] rest IH]; intros fs wfs i H Hi.
  - destruct i; discriminate Hi.
  - apply createWindowFunctions_cons in H
      as [args [wf [fs' [wfs' [_ [_ [Hwf [Hrest [-> ->]]]]]]]]].
    destruct i as [|i].
    + simpl in Hi. injection Hi as <- <-. exists wf. split; [reflexivity | exact Hwf].
    + simpl in Hi. apply (IH fs' wfs' i Hrest Hi).
Qed.

Lemma Finalized_frames functions budget total built w i f frame :
  Finalized functions budget total built w ->
  functions !! i = Some (f, frame) ->
  exists windowFrame,
    windowFrames_ w !! i = Some windowFrame
    /\ createWindowFrame frame = Returned windowFrame.
Proof.
  intros [Hsetup _] Hi. unfold setup, Window_new in Hsetup.
  destruct (createWindowFunctions functions) as [[fs wfs]|e] eqn:Hfns;
    [|discriminate Hsetup].
  destruct (createWindowFunctions_lookup _ _ _ _ _ _ Hfns Hi) as [wf [Hwf Hbuilt]].
  exists wf. split; [|exact Hbuilt].
  unfold addInput, noMoreInput, bind, modify, get in Hsetup. simpl in Hsetup.
  destruct (_ =? 0); unfold ret in Hsetup; injection Hsetup as <-; exact Hwf.
Qed.

(** The loop over the functions throws what function [i] throws, when the
    functions before it return. *)
Lemma for_each_throws_at {St} (body : nat -> Exec St unit) (n i : nat)
    s s1 s2 e :
  (i < n)%nat ->
  for_each (seq 0 i) body s = (s1, Returned tt) ->
  body i s1 = (s2, Thrown e) ->
  for_each (seq 0 n) body s = (s2, Thrown e).
Proof.
  intros Hi Hprefix Hbody.
  replace n with (i + S (n - S i))%nat by lia.
  rewrite seq_app, for_each_app. cbn [Nat.add seq for_each]. unfold bind.
  rewrite Hprefix, Hbody. reflexivity.
Qed.

Lemma computePeerAndFrameBuffers_range_k w p i windowFrame startRow endRow :
  currentPartition_ w = Some p ->
  length (windowFrames_ w) = length (windowFunctions_ w) ->
  windowFrames_ w !! i = Some windowFrame ->
  wf_type windowFrame = kRange ->
  isKBound (wf_startType windowFrame) || isKBound (wf_endType windowFrame) = true ->
  (forall j windowFrame', (j < i)%nat ->
     windowFrames_ w !! j = Some windowFrame' ->
     sideResolves windowFrame' true && sideResolves windowFrame' false = true) ->
  exists w' m,
    computePeerAndFrameBuffers startRow endRow w = (w', Thrown (VeloxNYI m)).
Proof.
  intros Hp Hlen Hwf Hrange Hk Hbefore.
  rewrite (computePeerAndFrameBuffers_unfold w p) by exact Hp.
  set (w0 := afterPeers w p startRow endRow).
  set (numRows := to_int32 (endRow - startRow)).
  destruct (afterPeers_fields w p startRow endRow)
    as [_ [Hframes [_ [Hcur _]]]]. fold w0 in Hframes, Hcur.
  assert (Hi : (i < length (windowFunctions_ w))%nat)
    by (rewrite <- Hlen; apply lookup_lt_Some with windowFrame; exact Hwf).
  destruct (for_each_returns (fun s => core s = core w0) (seq 0 i)
              (fun j => computeFrameBuffers j startRow numRows))
    with (s := w0) as [w1 [Hprefix Hcore]]; [|reflexivity|].
  { intros j s Hj Hcore. apply in_seq in Hj. pose proof Hcore as Hcore'.
    unfold core in Hcore. injection Hcore as _ Hwfs _ Hc _ _ _ _ _ _ _ _ _.
    destruct (lookup_lt_is_Some_2 (windowFrames_ w) j ltac:(lia)) as [wfj Hwfj].
    pose proof (Hbefore j wfj ltac:(lia) Hwfj) as Hres.
    apply andb_true_iff in Hres as [Hs He].
    destruct (computeFrameBuffers_returns s j p wfj startRow numRows)
      as [s' Hs']; try assumption; try congruence.
    exists s'. split; [exact Hs'|].
    replace s' with (fst (computeFrameBuffers j startRow numRows s))
      by (rewrite Hs'; reflexivity).
    rewrite computeFrameBuffers_core. exact Hcore'. }
  unfold core in Hcore. injection Hcore as _ Hwfs _ Hc _ _ _ _ _ _ _ _ _.
  destruct (computeFrameBuffers_range_k w1 i p windowFrame startRow numRows)
    as [w2 [m Hthrow]]; try assumption; try congruence.
  exists w2, m.
  apply (for_each_throws_at _ _ i w0 w1 w2); assumption.
Qed.

(** The first output call on a finalized operator with rows and a positive
    budget throws not-yet-implemented when some function has a RANGE frame
    with a K bound and the frames of the functions before it resolve. *)
Lemma getOutput_range_k functions budget total built w i f frame :
  Finalized functions budget total built w ->
  0 < total -> 0 < budget ->
  functions !! i = Some (f, frame) ->
  type frame = kRange ->
  isKBound (startType frame) || isKBound (endType frame) = true ->
  (forall j windowFrame', (j < i)%nat ->
     windowFrames_ w !! j = Some windowFrame' ->
     sideResolves windowFrame' true && sideResolves windowFrame' false = true) ->
  exists w' m, getOutput w = (w', Thrown (VeloxNYI m)).
Proof.
  intros Hfin Htotal Hbudget Hi Hrange Hk Hbefore.
  destruct (Finalized_frames _ _ _ _ _ _ _ _ Hfin Hi) as [windowFrame [Hwf Hbuilt]].
  destruct (createWindowFrame_types _ _ Hbuilt) as [Ht [Hst Het]].
  destruct (Finalized_Inv _ _ _ _ _ Hfin)
    as [Hinv [Hrest [Hnr [Hro [Hpr [_ [Hcur [Hparts _]]]]]]]].
  pose proof Hinv as [Hlen Hne Htot _ _ _ Hcur' _]. rewrite Hcur in Hcur'.
  (* the first partition becomes current *)
  destruct (resetState_Inv w Hinv) as [Hinv1 [Hrest1 [Hsame1 [Hpr1 [_ Hnextp]]]]].
  { intros q p Hc. rewrite Hcur in Hc. discriminate Hc. }
  assert (Hq : (nextIndex (windowBuild_ w) < length (partitions (windowBuild_ w)))%nat).
  { apply rowsBefore_lt_total; [exact Hne|]. lia. }
  destruct (lookup_lt_is_Some_2 _ _ Hq) as [p Hp]. rewrite Hp in Hnextp.
  destruct Hnextp as [Hc1 [Ho1 _]].
  set (w1 := resetState w) in *.
  destruct Hsame1 as [Hf1 [Hwf1 [Hnr1 [Hro1 Hparts1]]]].
  assert (Hslice : forall endRow,
            exists w' m,
              callApplyForPartitionRows (partitionOffset_ w1) endRow 0 w1
              = (w', Thrown (VeloxNYI m))).
  { intros endRow.
    destruct (computePeerAndFrameBuffers_range_k w1
                (nextIndex (windowBuild_ w), p) i windowFrame
                (partitionOffset_ w1) endRow) as [w' [m Hthrow]];
      try assumption; try congruence.
    - intros j wfj Hj Hwfj. apply (Hbefore j wfj Hj). congruence.
    - exists w', m. unfold callApplyForPartitionRows, bind. rewrite Hthrow.
      reflexivity. }
  unfold getOutput. unfold bind at 1. unfold get at 1.
  destruct (Z.eqb_spec (numRows_ w) 0) as [|_]; [lia|].
  rewrite Hnr, Hpr. replace (total - 0) with total by lia.
  rewrite (to_int32_small total)
    by (apply in_range_32; pose proof (inv_max w Hinv) as Hmax;
        unfold max_signed in Hmax; simpl in Hmax; lia).
  destruct (Z.eqb_spec total 0) as [|_]; [lia|].
  rewrite Hcur. unfold bind at 1. rewrite callResetPartition_eq. fold w1.
  unfold bind at 1. unfold get at 1. rewrite Hc1, Hro1, Hro.
  unfold bind at 1. unfold callApplyLoop. unfold bind at 1.
  unfold currentPartition at 1. unfold bind at 1. unfold get at 1. rewrite Hc1.
  unfold ret at 1. unfold bind at 1. unfold get at 1.
  rewrite (callApplyLoop_while_step _ 0 (Z.min budget total) w1 _ p Hc1) by lia.
  cbv zeta.
  destruct (_ <=? Z.min budget total).
  - destruct (Hslice (to_int32
                        (partitionOffset_ w1
                         + to_int32 (WindowPartition.numRows p - partitionOffset_ w1))))
      as [w' [m ->]].
    exists w', m. reflexivity.
  - destruct (Hslice (to_int32 (partitionOffset_ w1 + Z.min budget total)))
      as [w' [m ->]].
    exists w', m. reflexivity.
Qed.

(** C1, as amended: a RANGE frame with a K PRECEDING or K FOLLOWING bound is
    not rejected by window-frame construction (the frame is built whenever
    its offset values are columns or non-null, non-negative constants, and
    keeps its mode and bound kinds); it is rejected as not yet implemented
    when its bounds are evaluated: the K side throws in [updateFrameBounds]
    with the bound buffer untouched, so does the frame-buffer computation of
    a function with that frame, and so does the first output call of a
    finalized operator with rows and a positive budget in which a function
    has that frame and the frames of the functions before it resolve. *)
Theorem range_k_frame_rejected_at_bound_evaluation (frame : Frame) :
  type frame = kRange ->
  isKBound (startType frame) || isKBound (endType frame) = true ->
  (boundValueAccepted (startValue frame) = true ->
   boundValueAccepted (endValue frame) = true ->
   exists windowFrame, createWindowFrame frame = Returned windowFrame)
  /\ (forall windowFrame,
      createWindowFrame frame = Returned windowFrame ->
      wf_type windowFrame = kRange
      /\ (forall p off isStartBound startRow numRows rawPeerStarts rawPeerEnds buf,
          isKBound (boundTypeOf windowFrame isStartBound) = true ->
          exists m,
            updateFrameBounds p off windowFrame isStartBound startRow numRows
              rawPeerStarts rawPeerEnds buf
            = (buf, Thrown (VeloxNYI m)))
      /\ (forall w i p startRow numRows,
          currentPartition_ w = Some p ->
          windowFrames_ w !! i = Some windowFrame ->
          exists w' m,
            computeFrameBuffers i startRow numRows w
            = (w', Thrown (VeloxNYI m))))
  /\ (forall functions budget total built w i f,
      Finalized functions budget total built w ->
      0 < total -> 0 < budget ->
      functions !! i = Some (f, frame) ->
      (forall j windowFrame', (j < i)%nat ->
         windowFrames_ w !! j = Some windowFrame' ->
         sideResolves windowFrame' true && sideResolves windowFrame' false = true) ->
      exists w' m, getOutput w = (w', Thrown (VeloxNYI m))).
Proof.
  intros Hrange Hk.
  destruct (range_k_frame_built_then_throws frame Hrange Hk) as [Hbuilt Hthrows].
  split; [exact Hbuilt|]. split; [exact Hthrows|].
  intros functions budget total built w i f Hfin Htotal Hbudget Hi Hbefore.
  apply (getOutput_range_k functions budget total built w i f frame); assumption.
Qed.

Lemma range_k_frame_rejected_at_bound_evaluation_witness :
  (exists windowFrame, createWindowFrame rangeKFrame = Returned windowFrame)
  /\ exists w' m,
      getOutput (ready [(sum_fn, rangeKFrame)] 4 3
                   [keyedPartition [1; 2; 3] noColumns])
      = (w', Thrown (VeloxNYI m)).
Proof.
  destruct (range_k_frame_rejected_at_bound_evaluation rangeKFrame)
    as [Hbuilt [_ Hrun]]; [reflexivity | reflexivity |].
  split; [apply Hbuilt; reflexivity|].
  apply (Hrun [(sum_fn, rangeKFrame)] 4 3 [keyedPartition [1; 2; 3] noColumns]
           _ 0%nat sum_fn); try lia; try reflexivity.
  split; [reflexivity|]. split; [lia|]. split.
  - repeat constructor. simpl. lia.
  - split; [reflexivity|]. unfold max_signed. simpl. lia.
Defined.

(** ** Frame construction *)

Lemma frameBoundCheck_checked e :
  frameBoundCheck e
  = if boundTypeChecked e then Returned tt
    else Thrown (VeloxUserError KFrameBoundMustBeIntegerOrBigint).
Proof. destruct e as [e|]; reflexivity. Qed.

Lemma createFrameChannelArg_returns_iff e :
  (exists arg, createFrameChannelArg e = Returned arg)
  <-> boundValueAccepted e = true.
Proof.
  split; [|apply createFrameChannelArg_accepted].
  intros [arg H]. destruct e as [[t [v|]|t c]|]; simpl in *.
  - destruct (0 <=? v); [reflexivity | discriminate H].
  - discriminate H.
  - destruct (c =? kConstantChannel); [discriminate H | reflexivity].
  - reflexivity.
Qed.

(** X1: createWindowFrame builds a frame exactly when, under ROWS, both bound
    values that are present are of type INTEGER or BIGINT, and, in either
    mode, each bound value is absent, a column, or a constant that is neither
    null nor negative. *)
Theorem createWindowFrame_accepts_iff (frame : Frame) :
  (exists windowFrame, createWindowFrame frame = Returned windowFrame)
  <-> ((type frame = kRows ->
        boundTypeChecked (startValue frame) = true
        /\ boundTypeChecked (endValue frame) = true)
       /\ boundValueAccepted (startValue frame) = true
       /\ boundValueAccepted (endValue frame) = true).
Proof.
  unfold createWindowFrame. rewrite !frameBoundCheck_checked.
  rewrite <- !createFrameChannelArg_returns_iff.
  split.
  - intros [windowFrame H].
    destruct (createFrameChannelArg (startValue frame)) as [s|e1] eqn:Hs.
    + destruct (createFrameChannelArg (endValue frame)) as [e|e2] eqn:He.
      * split; [|split; eexists; reflexivity].
        intros Hrows. rewrite Hrows in H.
        destruct (boundTypeChecked (startValue frame)); [|discriminate H].
        destruct (boundTypeChecked (endValue frame)); [|discriminate H].
        split; reflexivity.
      * destruct (type frame);
          [|destruct (boundTypeChecked (startValue frame));
            [destruct (boundTypeChecked (endValue frame))|]];
          discriminate H.
    + destruct (type frame);
        [|destruct (boundTypeChecked (startValue frame));
          [destruct (boundTypeChecked (endValue frame))|]];
        discriminate H.
  - intros [Hty [[s Hs] [e He]]]. rewrite Hs, He.
    destruct (type frame).
    + eexists. reflexivity.
    + destruct (Hty eq_refl) as [-> ->]. eexists. reflexivity.
Qed.

(** X2: the order of the checks of createWindowFrame.  Under ROWS a bound
    value of a type other than INTEGER or BIGINT is a user error whatever the
    values are; once the types pass (or under RANGE) a null constant start
    offset is a runtime error and a negative one a user error that carries
    the value, and the end offset is looked at only when the start offset
    was accepted. *)
Theorem createWindowFrame_first_error (frame : Frame) :
  (type frame = kRows ->
   boundTypeChecked (startValue frame) && boundTypeChecked (endValue frame)
   = false ->
   createWindowFrame frame
   = Thrown (VeloxUserError KFrameBoundMustBeIntegerOrBigint))
  /\ ((type frame = kRows ->
       boundTypeChecked (startValue frame) && boundTypeChecked (endValue frame)
       = true) ->
      (forall t, startValue frame = Some (ConstantTypedExpr t None) ->
         createWindowFrame frame = Thrown (VeloxRuntimeError OffsetMustNotBeNull))
      /\ (forall t v, startValue frame = Some (ConstantTypedExpr t (Some v)) ->
          v < 0 ->
          createWindowFrame frame
          = Thrown (VeloxUserError (OffsetMustNotBeNegative v)))
      /\ (boundValueAccepted (startValue frame) = true ->
          (forall t, endValue frame = Some (ConstantTypedExpr t None) ->
             createWindowFrame frame
             = Thrown (VeloxRuntimeError OffsetMustNotBeNull))
          /\ (forall t v, endValue frame = Some (ConstantTypedExpr t (Some v)) ->
              v < 0 ->
              createWindowFrame frame
              = Thrown (VeloxUserError (OffsetMustNotBeNegative v))))).
Proof.
  unfold createWindowFrame. rewrite !frameBoundCheck_checked.
  split.
  - intros -> H.
    destruct (boundTypeChecked (startValue frame)); [|reflexivity].
    simpl in H. rewrite H. reflexivity.
  - intros Hty.
    assert (Hpass :
      match type frame with
      | kRange => Returned tt
      | kRows =>
          match (if boundTypeChecked (startValue frame) then Returned tt
                 else Thrown (VeloxUserError KFrameBoundMustBeIntegerOrBigint))
          with
          | Returned _ =>
              if boundTypeChecked (endValue frame) then Returned tt
              else Thrown (VeloxUserError KFrameBoundMustBeIntegerOrBigint)
          | Thrown e => Thrown e
          end
      end = Returned tt).
    { destruct (type frame); [reflexivity|].
      apply andb_true_iff in Hty as [-> ->]; reflexivity. }
    rewrite Hpass. clear Hpass Hty.
    split; [|split].
    + intros t ->. reflexivity.
    + intros t v -> Hv. simpl.
      destruct (Z.leb_spec 0 v); [lia | reflexivity].
    + intros Hs. apply createFrameChannelArg_returns_iff in Hs as [s ->].
      split.
      * intros t ->. reflexivity.
      * intros t v -> Hv. simpl.
        destruct (Z.leb_spec 0 v); [lia | reflexivity].
Qed.

Lemma createWindowFrame_first_error_witness :
  createWindowFrame
    (rowsFrame kPreceding kCurrentRow (Some (ConstantTypedExpr VARCHAR None)) None)
  = Thrown (VeloxUserError KFrameBoundMustBeIntegerOrBigint)
  /\ createWindowFrame
       (rangeFrame kPreceding kCurrentRow
          (Some (ConstantTypedExpr BIGINT (Some (-1)))) None)
     = Thrown (VeloxUserError (OffsetMustNotBeNegative (-1))).
Proof.
  split.
  - apply (proj1 (createWindowFrame_first_error
                    (rowsFrame kPreceding kCurrentRow
                       (Some (ConstantTypedExpr VARCHAR None)) None)));
      reflexivity.
  - refine (proj1 (proj2 (proj2 (createWindowFrame_first_error
                    (rangeFrame kPreceding kCurrentRow
                       (Some (ConstantTypedExpr BIGINT (Some (-1)))) None)) _))
              BIGINT (-1) eq_refl _).
    + intros H. discriminate H.
    + lia.
Defined.

(** A side of a plan frame without a K bound, or with a constant ROWS offset,
    gives a side of the operator frame whose resolution cannot throw. *)
Lemma constantOrNoK_resolves frame windowFrame isStartBound :
  createWindowFrame frame = Returned windowFrame ->
  constantOrNoK frame isStartBound = true ->
  sideResolves windowFrame isStartBound = true.
Proof.
  intros Hbuilt Hside.
  destruct (createWindowFrame_types _ _ Hbuilt) as [Hty [Hst Hen]].
  unfold constantOrNoK, planBoundType, planBoundValue in Hside.
  unfold sideResolves, boundTypeOf. rewrite Hty, Hst, Hen.
  unfold createWindowFrame in Hbuilt.
  destruct (match type frame with kRange => _ | kRows => _ end);
    [|discriminate Hbuilt].
  destruct (createFrameChannelArg (startValue frame)) as [s|] eqn:Hs;
    [|discriminate Hbuilt].
  destruct (createFrameChannelArg (endValue frame)) as [e|] eqn:He;
    [|discriminate Hbuilt].
  injection Hbuilt as <-. simpl.
  destruct isStartBound.
  - destruct (isKBound (startType frame)); [|reflexivity].
    destruct (type frame); [discriminate Hside|].
    destruct (startValue frame) as [[t [v|]|t c]|]; try discriminate Hside;
      simpl in Hs.
    + destruct (0 <=? v); [|discriminate Hs]. injection Hs as <-. reflexivity.
    + discriminate Hs.
  - destruct (isKBound (endType frame)); [|reflexivity].
    destruct (type frame); [discriminate Hside|].
    destruct (endValue frame) as [[t [v|]|t c]|]; try discriminate Hside;
      simpl in He.
    + destruct (0 <=? v); [|discriminate He]. injection He as <-. reflexivity.
    + discriminate He.
Qed.

Lemma createWindowFunctions_frames functions fs wfs i windowFrame :
  createWindowFunctions functions = Returned (fs, wfs) ->
  wfs !! i = Some windowFrame ->
  exists f frame,
    functions !! i = Some (f, frame)
    /\ createWindowFrame frame = Returned windowFrame.
Proof.
  intros Hfns Hwf.
  destruct (createWindowFunctions_lengths _ _ _ Hfns) as [Hlen Hlenf].
  assert (Hi : (i < length functions)%nat).
  { apply lookup_lt_Some in Hwf. lia. }
  destruct (lookup_lt_is_Some_2 _ _ Hi) as [[f frame] Hf].
  destruct (createWindowFunctions_lookup _ _ _ _ _ _ Hfns Hf) as [wf' [Hwf' Hb]].
  exists f, frame. split; [exact Hf|]. congruence.
Qed.

(** X3: an operator whose plan frames have their K bounds only under ROWS
    and with constant offsets never fails at output time: any number of
    output calls return, with the batch sizes of the batching rule. *)
Theorem getOutputs_constant_frames_return
    (functions : list (WindowFunction * Frame)) (budget total : Z)
    (built : list WindowPartition) (w : Window) (k : nat) :
  Finalized functions budget total built w ->
  Forall (fun fn => constantOrNoK (snd fn) true
                    && constantOrNoK (snd fn) false = true) functions ->
  exists wk,
    getOutputs k w = (wk, Returned (batchSizes budget total k)).
Proof.
  intros Hfin Hplan.
  assert (Hnever : neverThrows w = true).
  { unfold neverThrows. apply forallb_forall. intros windowFrame Hin.
    apply list_elem_of_In, list_elem_of_lookup in Hin as [i Hi].
    destruct Hfin as [Hsetup _]. unfold setup, Window_new in Hsetup.
    destruct (createWindowFunctions functions) as [[fs wfs]|e] eqn:Hfns;
      [|discriminate Hsetup].
    assert (Hwfs : windowFrames_ w = wfs).
    { unfold addInput, noMoreInput, bind, modify, get in Hsetup.
      simpl in Hsetup.
      destruct (to_int32 (0 + total) =? 0); unfold ret in Hsetup;
        injection Hsetup as <-; reflexivity. }
    rewrite Hwfs in Hi.
    destruct (createWindowFunctions_frames _ _ _ _ _ Hfns Hi)
      as [f [frame [Hf Hbuilt]]].
    rewrite Forall_forall in Hplan.
    specialize (Hplan (f, frame)
                  ltac:(apply list_elem_of_lookup; exists i; exact Hf)).
    simpl in Hplan. apply andb_true_iff in Hplan as [H1 H2].
    rewrite (constantOrNoK_resolves _ _ _ Hbuilt H1),
      (constantOrNoK_resolves _ _ _ Hbuilt H2). reflexivity. }
  destruct (Finalized_Inv _ _ _ _ _ Hfin)
    as [Hinv [Hrest [Hnr [Hro [Hpr _]]]]].
  pose proof (getOutputs_spec k w Hinv Hrest) as Hrun.
  destruct (getOutputs k w) as [wk [outs|e]].
  - destruct Hrun as [_ [_ [_ Houts]]]. exists wk. rewrite Houts, Hro.
    unfold rowsLeft. rewrite Hnr, Hpr. do 3 f_equal. lia.
  - congruence.
Qed.

Lemma getOutputs_constant_frames_return_witness :
  exists wk,
    getOutputs 4 tenRowsExample
    = (wk, Returned (batchSizes 4 10 4)).
Proof.
  apply (getOutputs_constant_frames_return
           [(sum_fn, runningFrame); (sum_fn, twoPrecedingFrame)]
           4 10 [tenRows] tenRowsExample 4).
  - exact tenRowsExample_Finalized.
  - repeat constructor.
Defined.

(** ** Validity repair: what it establishes and what it leaves alone *)

Lemma load_lookup (buf : list Z) i :
  (i < length buf)%nat -> buf !! i = Some (load buf i).
Proof.
  intros Hi. destruct (lookup_lt_is_Some_2 _ _ Hi) as [x Hx].
  unfold load. rewrite Hx. reflexivity.
Qed.

(** X4: on a partition with at least one row ([lastRow >= 0]), every row of
    the slice that validity repair leaves marked valid has a frame inside
    the partition: [0 <= frameStart <= frameEnd <= lastRow]. *)
Theorem computeValidFrames_valid_rows_inside
    (lastRow numRows : Z) (rawFrameStarts rawFrameEnds : list Z)
    (validFrames : list bool) (starts ends : list Z) (valid : list bool)
    (i : nat) :
  0 <= lastRow ->
  (Z.to_nat numRows <= length rawFrameStarts)%nat ->
  (Z.to_nat numRows <= length rawFrameEnds)%nat ->
  computeValidFrames lastRow numRows (rawFrameStarts, rawFrameEnds, validFrames)
  = (starts, ends, valid) ->
  (i < Z.to_nat numRows)%nat ->
  valid !! i = Some true ->
  0 <= load starts i /\ load starts i <= load ends i /\ load ends i <= lastRow.
Proof.
  intros Hlast Hs He Hrun Hi Hvalid.
  pose proof (computeValidFrames_repaired lastRow rawFrameStarts rawFrameEnds
                validFrames (Z.to_nat numRows) Hs He) as Hrep.
  unfold computeValidFrames in Hrun. rewrite Hrun in Hrep.
  destruct Hrep as [_ [_ Hrows]].
  destruct (Hrows i) as [Hrow _]. specialize (Hrow Hi). cbv zeta in Hrow.
  destruct (validFrame lastRow (load rawFrameStarts i) (load rawFrameEnds i))
    eqn:Htest.
  - destruct Hrow as [-> [-> _]]. apply validFrame_spec in Htest. lia.
  - destruct Hrow as [_ [_ Hv]]. rewrite Hvalid in Hv.
    destruct (validFrames !! i); discriminate Hv.
Qed.

Lemma computeValidFrames_valid_rows_inside_witness :
  computeValidFrames 3 4 ([-2; -1; 0; 4], [-3; 1; 5; 3], resizeFill 4 true)
  = ([-2; 0; 0; 4], [-3; 1; 3; 3], [false; true; true; false])
  /\ 0 <= load [-2; 0; 0; 4] 2
  /\ load [-2; 0; 0; 4] 2 <= load [-3; 1; 3; 3] 2
  /\ load [-3; 1; 3; 3] 2 <= 3.
Proof.
  split; [reflexivity|].
  apply (computeValidFrames_valid_rows_inside 3 4 [-2; -1; 0; 4] [-3; 1; 5; 3]
           (resizeFill 4 true) [-2; 0; 0; 4] [-3; 1; 3; 3]
           [false; true; true; false] 2);
    first [reflexivity | simpl; lia].
Defined.

Lemma computeValidFrames_body_frame lastRow n st :
  let '(starts, ends, valid) := st in
  let '(starts', ends', valid') := computeValidFrames_body lastRow n st in
  length starts' = length starts
  /\ length ends' = length ends
  /\ length valid' = length valid
  /\ (forall i, i <> n ->
        starts' !! i = starts !! i /\ ends' !! i = ends !! i
        /\ valid' !! i = valid !! i)
  /\ (forall i, valid !! i = Some false -> valid' !! i = Some false).
Proof.
  destruct st as [[starts ends] valid]. unfold computeValidFrames_body.
  destruct (_ && _ && _).
  - rewrite !length_insert. repeat split; try reflexivity.
    + apply list_lookup_insert_ne. congruence.
    + apply list_lookup_insert_ne. congruence.
    + auto.
  - rewrite !length_insert. repeat split; try reflexivity.
    + apply list_lookup_insert_ne. congruence.
    + intros i Hi. destruct (decide (i = n)) as [->|Hne].
      * apply list_lookup_insert_eq. apply lookup_lt_Some with false. exact Hi.
      * rewrite list_lookup_insert_ne by congruence. exact Hi.
Qed.

Lemma computeValidFrames_fold_frame lastRow n starts ends valid :
  let '(starts', ends', valid') :=
    fold_left (fun st i => computeValidFrames_body lastRow i st) (seq 0 n)
      (starts, ends, valid) in
  length starts' = length starts
  /\ length ends' = length ends
  /\ length valid' = length valid
  /\ (forall i, (n <= i)%nat ->
        starts' !! i = starts !! i /\ ends' !! i = ends !! i
        /\ valid' !! i = valid !! i)
  /\ (forall i, valid !! i = Some false -> valid' !! i = Some false).
Proof.
  induction n as [|n IH].
  - simpl. repeat split; auto.
  - rewrite seq_S, fold_left_app. simpl.
    destruct (fold_left _ (seq 0 n) _) as [[s1 e1] v1].
    pose proof (computeValidFrames_body_frame lastRow n (s1, e1, v1)) as Hstep.
    cbv beta iota in Hstep.
    destruct (computeValidFrames_body lastRow n (s1, e1, v1)) as [[s2 e2] v2].
    destruct IH as [Hl1 [Hl2 [Hl3 [Hout Hmono]]]].
    destruct Hstep as [Hm1 [Hm2 [Hm3 [Hout' Hmono']]]].
    split; [congruence|]. split; [congruence|]. split; [congruence|].
    split.
    + intros i Hi. destruct (Hout' i ltac:(lia)) as [-> [-> ->]].
      apply Hout. lia.
    + intros i Hi. apply Hmono', Hmono, Hi.
Qed.

(** X5: validity repair works in place on the rows of the slice only: the
    two raw buffers and the selector keep their lengths, every row at or
    after [numRows] is left as it was, and no row that was marked invalid
    becomes valid. *)
Theorem computeValidFrames_in_place
    (lastRow numRows : Z) (rawFrameStarts rawFrameEnds : list Z)
    (validFrames : list bool) :
  let '(starts, ends, valid) :=
    computeValidFrames lastRow numRows
      (rawFrameStarts, rawFrameEnds, validFrames) in
  length starts = length rawFrameStarts
  /\ length ends = length rawFrameEnds
  /\ length valid = length validFrames
  /\ (forall i, (Z.to_nat numRows <= i)%nat ->
        starts !! i = rawFrameStarts !! i /\ ends !! i = rawFrameEnds !! i
        /\ valid !! i = validFrames !! i)
  /\ (forall i, validFrames !! i = Some false -> valid !! i = Some false).
Proof.
  unfold computeValidFrames.
  apply (computeValidFrames_fold_frame lastRow (Z.to_nat numRows)).
Qed.

(** X6: validity repair is idempotent on a partition with at least one row:
    running it again on the buffers and the selector it produced changes
    nothing. *)
Theorem computeValidFrames_idempotent
    (lastRow numRows : Z) (rawFrameStarts rawFrameEnds : list Z)
    (validFrames : list bool) :
  0 <= lastRow ->
  (Z.to_nat numRows <= length rawFrameStarts)%nat ->
  (Z.to_nat numRows <= length rawFrameEnds)%nat ->
  computeValidFrames lastRow numRows
    (computeValidFrames lastRow numRows
       (rawFrameStarts, rawFrameEnds, validFrames))
  = computeValidFrames lastRow numRows
      (rawFrameStarts, rawFrameEnds, validFrames).
Proof.
  intros Hlast Hs He.
  pose proof (computeValidFrames_repaired lastRow rawFrameStarts rawFrameEnds
                validFrames (Z.to_nat numRows) Hs He) as Hrep1.
  unfold computeValidFrames.
  destruct (fold_left _ (seq 0 (Z.to_nat numRows))
              (rawFrameStarts, rawFrameEnds, validFrames))
    as [[s1 e1] v1].
  destruct Hrep1 as [Hls1 [Hle1 Hrows1]].
  pose proof (computeValidFrames_repaired lastRow s1 e1 v1 (Z.to_nat numRows)
                ltac:(lia) ltac:(lia)) as Hrep2.
  destruct (fold_left _ (seq 0 (Z.to_nat numRows)) (s1, e1, v1))
    as [[s2 e2] v2].
  destruct Hrep2 as [Hls2 [Hle2 Hrows2]].
  assert (Hrow : forall i,
            s2 !! i = s1 !! i /\ e2 !! i = e1 !! i /\ v2 !! i = v1 !! i).
  { intros i. destruct (Nat.lt_ge_cases i (Z.to_nat numRows)) as [Hi|Hi].
    - destruct (Hrows1 i) as [H1 _]. specialize (H1 Hi). cbv zeta in H1.
      destruct (Hrows2 i) as [H2 _]. specialize (H2 Hi). cbv zeta in H2.
      rewrite (load_lookup s2 i), (load_lookup s1 i), (load_lookup e2 i),
        (load_lookup e1 i) by lia.
      destruct (validFrame lastRow (load rawFrameStarts i) (load rawFrameEnds i))
        eqn:Htest.
      + destruct H1 as [Hs1 [He1 Hv1]]. apply validFrame_spec in Htest.
        assert (Htest' : validFrame lastRow (load s1 i) (load e1 i) = true)
          by (apply validFrame_spec; lia).
        rewrite Htest' in H2. destruct H2 as [-> [-> ->]].
        repeat split; f_equal; lia.
      + destruct H1 as [Hs1 [He1 Hv1]].
        rewrite Hs1, He1, Htest in H2. destruct H2 as [-> [-> ->]].
        rewrite Hs1, He1, Hv1. repeat split.
        destruct (validFrames !! i); reflexivity.
    - destruct (Hrows2 i) as [_ H2]. exact (H2 Hi). }
  f_equal; [f_equal|]; apply list_eq; intros i; apply Hrow.
Qed.

Lemma computeValidFrames_idempotent_witness :
  computeValidFrames 3 4
    (computeValidFrames 3 4 ([-2; -1; 0; 4], [-3; 1; 5; 3], resizeFill 4 true))
  = computeValidFrames 3 4 ([-2; -1; 0; 4], [-3; 1; 5; 3], resizeFill 4 true).
Proof.
  apply (computeValidFrames_idempotent 3 4 [-2; -1; 0; 4] [-3; 1; 5; 3]
           (resizeFill 4 true)); simpl; lia.
Defined.

(** ** Bound resolution: where it writes *)

Lemma storesBelow_stored n (m : Exec (list Z) unit) f :
  (forall buf, m buf = (stored f (seq 0 n) buf, Returned tt)) ->
  storesBelow n m.
Proof.
  intros Hm buf. rewrite Hm. simpl.
  split; [apply stored_length|]. split.
  - intros i Hi. rewrite stored_seq_lookup.
    destruct (decide (i < n /\ i < length buf)%nat); [lia | reflexivity].
  - intros e He. discriminate He.
Qed.

Lemma storesBelow_throw n e : storesBelow n (throw e).
Proof. intros buf. simpl. repeat split. Qed.

Lemma storesBelow_offsetsColumn T isKPreceding value startRow numRows :
  storesBelow (Z.to_nat numRows)
    (updateKRowsOffsetsColumn T isKPreceding value startRow numRows).
Proof.
  destruct (offsets_valid_or_first_invalid value (Z.to_nat numRows))
    as [Hall|[j [Hj [Hbad Hmin]]]].
  - apply storesBelow_stored
      with (f := fun i => narrowedBound T isKPreceding startRow
                            (offset_at value i) i).
    intros buf. apply updateKRowsOffsetsColumn_returns. exact Hall.
  - intros buf.
    rewrite (updateKRowsOffsetsColumn_throws T isKPreceding value startRow
               numRows buf j Hj Hbad Hmin).
    simpl. repeat split.
Qed.

Lemma storesBelow_updateKRowsFrameBounds p off isKPreceding arg startRow numRows :
  storesBelow (Z.to_nat numRows)
    (updateKRowsFrameBounds p off isKPreceding arg startRow numRows).
Proof.
  unfold updateKRowsFrameBounds.
  destruct (index arg =? kConstantChannel).
  - destruct (constant arg) as [c|]; [|apply storesBelow_throw].
    eapply storesBelow_stored. intros buf. apply iota_stored.
  - destruct (value arg) as [kind|]; [|apply storesBelow_throw].
    destruct (typeKind _); apply storesBelow_offsetsColumn.
Qed.

Lemma updateFrameBounds_storesBelow
    (currentPartition_ : WindowPartition) (partitionOffset_ : Z)
    (windowFrame : WindowFrame) (isStartBound : bool) (startRow numRows : Z)
    (rawPeerStarts rawPeerEnds : list Z) :
  storesBelow (Z.to_nat numRows)
    (updateFrameBounds currentPartition_ partitionOffset_ windowFrame
       isStartBound startRow numRows rawPeerStarts rawPeerEnds).
Proof.
  unfold updateFrameBounds.
  destruct (if isStartBound then wf_startType windowFrame
            else wf_endType windowFrame).
  - eapply storesBelow_stored. intros buf. apply fill_n_stored.
  - destruct (wf_type windowFrame); [apply storesBelow_throw|].
    destruct (if isStartBound then start windowFrame else end_ windowFrame);
      [apply storesBelow_updateKRowsFrameBounds | apply storesBelow_throw].
  - destruct (wf_type windowFrame).
    + eapply storesBelow_stored. intros buf. apply copy_stored.
    + eapply storesBelow_stored. intros buf. apply iota_stored.
  - destruct (wf_type windowFrame); [apply storesBelow_throw|].
    destruct (if isStartBound then start windowFrame else end_ windowFrame);
      [apply storesBelow_updateKRowsFrameBounds | apply storesBelow_throw].
  - eapply storesBelow_stored. intros buf. apply fill_n_stored.
Qed.

(** X7: whatever the frame, the side and the outcome, updateFrameBounds
    stores at the rows of the slice only: the bound buffer keeps its length,
    every row at or after [numRows] is left as it was, and when resolution
    throws nothing at all has been stored. *)
Theorem updateFrameBounds_stores_in_slice
    (currentPartition_ : WindowPartition) (partitionOffset_ : Z)
    (windowFrame : WindowFrame) (isStartBound : bool) (startRow numRows : Z)
    (rawPeerStarts rawPeerEnds rawFrameBounds : list Z) :
  let run :=
    updateFrameBounds currentPartition_ partitionOffset_ windowFrame
      isStartBound startRow numRows rawPeerStarts rawPeerEnds rawFrameBounds in
  length (fst run) = length rawFrameBounds
  /\ (forall i, (Z.to_nat numRows <= i)%nat ->
        fst run !! i = rawFrameBounds !! i)
  /\ (forall e, snd run = Thrown e -> fst run = rawFrameBounds).
Proof.
  apply (updateFrameBounds_storesBelow currentPartition_ partitionOffset_
           windowFrame isStartBound startRow numRows rawPeerStarts rawPeerEnds
           rawFrameBounds).
Qed.

(** ** Bound resolution: column offsets *)

Lemma extractColumn_lookup p channel offset numRows kind i :
  (i < Z.to_nat numRows)%nat ->
  rows (extractColumn p channel offset numRows kind) !! i
  = WindowPartition.columns p channel !! (Z.to_nat offset + i)%nat.
Proof.
  intros Hi. unfold extractColumn. simpl.
  rewrite lookup_take_lt by exact Hi. apply lookup_drop.
Qed.

Lemma extractColumn_offsetValid p channel offset numRows kind i :
  (i < Z.to_nat numRows)%nat ->
  offsetValid (extractColumn p channel offset numRows kind) i
  = match columnOffsetAt p channel offset i with
    | Some x => 0 <=? x
    | None => false
    end.
Proof.
  intros Hi. unfold offsetValid, isNullAt, offset_at, columnOffsetAt.
  rewrite (extractColumn_lookup _ _ _ _ _ _ Hi).
  destruct (WindowPartition.columns p channel !! _) as [[x|]|]; reflexivity.
Qed.

Lemma extractColumn_offset_at p channel offset numRows kind i x :
  (i < Z.to_nat numRows)%nat ->
  columnOffsetAt p channel offset i = Some x ->
  offset_at (extractColumn p channel offset numRows kind) i = x
  /\ isNullAt (extractColumn p channel offset numRows kind) i = false.
Proof.
  intros Hi. unfold isNullAt, offset_at, columnOffsetAt.
  rewrite (extractColumn_lookup _ _ _ _ _ _ Hi).
  destruct (WindowPartition.columns p channel !! _) as [[y|]|]; simpl;
    intros H; try discriminate H.
  injection H as ->. split; reflexivity.
Qed.

Lemma extractColumn_null p channel offset numRows kind i :
  (i < Z.to_nat numRows)%nat ->
  columnOffsetAt p channel offset i = None ->
  isNullAt (extractColumn p channel offset numRows kind) i = true.
Proof.
  intros Hi. unfold isNullAt, columnOffsetAt.
  rewrite (extractColumn_lookup _ _ _ _ _ _ Hi).
  destruct (WindowPartition.columns p channel !! _) as [[y|]|]; simpl;
    intros H; try discriminate H; reflexivity.
Qed.

(** With a column argument, updateKRowsFrameBounds extracts the slice of the
    column that starts at [partitionOffset_] and runs the offset template at
    the element type of the column. *)
Lemma updateKRowsFrameBounds_column p off isKPreceding arg kind startRow numRows :
  index arg <> kConstantChannel ->
  value arg = Some kind ->
  exists T,
    updateKRowsFrameBounds p off isKPreceding arg startRow numRows
    = updateKRowsOffsetsColumn T isKPreceding
        (extractColumn p (index arg) off numRows kind) startRow numRows.
Proof.
  intros Hidx Hval. unfold updateKRowsFrameBounds.
  apply Z.eqb_neq in Hidx. rewrite Hidx, Hval.
  destruct kind; simpl; eexists; reflexivity.
Qed.

(** X8: a ROWS K bound whose offset is a column reads, for row [i] of the
    slice, the offset of row [partitionOffset_ + i] of that column.  If these
    offsets are all non-null and non-negative, the bound of row [i] is
    [startRow + i - offset] (K PRECEDING) or [startRow + i + offset]
    (K FOLLOWING) reduced to 32 bits; otherwise the first row whose offset is
    null or negative gives a user error (naming the negative value) and the
    bound buffer is left as it was. *)
Theorem updateFrameBounds_rows_column_offsets
    (p : WindowPartition) (partitionOffset_ : Z) (windowFrame : WindowFrame)
    (isStartBound : bool) (arg : FrameChannelArg) (kind : TypeKind)
    (startRow numRows : Z) (rawPeerStarts rawPeerEnds buf : list Z) :
  wf_type windowFrame = kRows ->
  isKBound (boundTypeOf windowFrame isStartBound) = true ->
  (if isStartBound then start windowFrame else end_ windowFrame) = Some arg ->
  index arg <> kConstantChannel ->
  value arg = Some kind ->
  (Z.to_nat numRows <= length buf)%nat ->
  ((forall i, (i < Z.to_nat numRows)%nat ->
      exists x, columnOffsetAt p (index arg) partitionOffset_ i = Some x
                /\ 0 <= x) ->
   exists filled,
     updateFrameBounds p partitionOffset_ windowFrame isStartBound startRow
       numRows rawPeerStarts rawPeerEnds buf
     = (filled, Returned tt)
     /\ forall i x, (i < Z.to_nat numRows)%nat ->
        columnOffsetAt p (index arg) partitionOffset_ i = Some x ->
        load filled i
        = to_int32 (startRow + Z.of_nat i
                    + precedingFactor (boundTypeOf windowFrame isStartBound) * x))
  /\ (forall j, (j < Z.to_nat numRows)%nat ->
      (forall i, (i < j)%nat ->
         exists x, columnOffsetAt p (index arg) partitionOffset_ i = Some x
                   /\ 0 <= x) ->
      (columnOffsetAt p (index arg) partitionOffset_ j = None ->
       updateFrameBounds p partitionOffset_ windowFrame isStartBound startRow
         numRows rawPeerStarts rawPeerEnds buf
       = (buf, Thrown (VeloxUserError OffsetMustNotBeNull)))
      /\ (forall x,
          columnOffsetAt p (index arg) partitionOffset_ j = Some x -> x < 0 ->
          updateFrameBounds p partitionOffset_ windowFrame isStartBound startRow
            numRows rawPeerStarts rawPeerEnds buf
          = (buf, Thrown (VeloxUserError (OffsetMustNotBeNegative x))))).
Proof.
  intros Hty Hk Harg Hidx Hval Hlen.
  set (isKPreceding := match boundTypeOf windowFrame isStartBound with
                       | kPreceding => true
                       | _ => false
                       end).
  destruct (updateKRowsFrameBounds_column p partitionOffset_ isKPreceding arg kind
              startRow numRows Hidx Hval) as [T HT].
  assert (Hrun : forall b,
            updateFrameBounds p partitionOffset_ windowFrame isStartBound startRow
              numRows rawPeerStarts rawPeerEnds b
            = updateKRowsOffsetsColumn T isKPreceding
                (extractColumn p (index arg) partitionOffset_ numRows kind)
                startRow numRows b).
  { intros b. rewrite <- HT. unfold updateFrameBounds.
    fold (boundTypeOf windowFrame isStartBound). rewrite Hty, Harg.
    subst isKPreceding.
    destruct (boundTypeOf windowFrame isStartBound); try discriminate Hk;
      reflexivity. }
  assert (Hvalid : forall j,
            (j < Z.to_nat numRows)%nat ->
            (forall i, (i < j)%nat ->
               exists x, columnOffsetAt p (index arg) partitionOffset_ i = Some x
                         /\ 0 <= x) ->
            forall i, (i < j)%nat ->
              offsetValid (extractColumn p (index arg) partitionOffset_ numRows kind) i
              = true).
  { intros j Hj Hall i Hi. rewrite extractColumn_offsetValid by lia.
    destruct (Hall i Hi) as [x [-> Hx]]. apply Z.leb_le. exact Hx. }
  split.
  - intros Hall. rewrite Hrun.
    rewrite updateKRowsOffsetsColumn_returns.
    2:{ intros i Hi. rewrite extractColumn_offsetValid by lia.
        destruct (Hall i Hi) as [x [-> Hx]]. apply Z.leb_le. exact Hx. }
    eexists. split; [reflexivity|].
    intros i x Hi Hx. rewrite stored_seq_load by lia.
    destruct (extractColumn_offset_at p (index arg) partitionOffset_ numRows kind
                i x Hi Hx) as [-> _].
    rewrite narrowedBound_reduced. unfold exactBound, signedOffset.
    f_equal. subst isKPreceding.
    destruct (boundTypeOf windowFrame isStartBound); simpl; lia.
  - intros j Hj Hbefore. split.
    + intros Hnull. rewrite Hrun.
      rewrite (updateKRowsOffsetsColumn_throws T isKPreceding _ startRow numRows
                 buf j Hj).
      * unfold offsetError. rewrite extractColumn_null by assumption.
        reflexivity.
      * rewrite extractColumn_offsetValid by lia. rewrite Hnull. reflexivity.
      * apply (Hvalid j Hj Hbefore).
    + intros x Hx Hneg. rewrite Hrun.
      rewrite (updateKRowsOffsetsColumn_throws T isKPreceding _ startRow numRows
                 buf j Hj).
      * unfold offsetError.
        destruct (extractColumn_offset_at p (index arg) partitionOffset_ numRows
                    kind j x Hj Hx) as [-> ->].
        reflexivity.
      * rewrite extractColumn_offsetValid by lia. rewrite Hx.
        apply Z.leb_gt. exact Hneg.
      * apply (Hvalid j Hj Hbefore).
Qed.

Lemma updateFrameBounds_rows_column_offsets_witness :
  updateFrameBounds
    (keyedPartition [1; 2; 3; 4] (offsetColumn [Some 9; Some 1; None; Some 2]))
    1 columnPrecedingFrame true 1 3 [] [] [7; 7; 7; 7]
  = ([7; 7; 7; 7], Thrown (VeloxUserError OffsetMustNotBeNull)).
Proof.
  refine (proj1 (proj2 (updateFrameBounds_rows_column_offsets
            (keyedPartition [1; 2; 3; 4] (offsetColumn [Some 9; Some 1; None; Some 2]))
            1 columnPrecedingFrame true
            {| index := 0; value := Some BIGINT; constant := None |} BIGINT
            1 3 [] [] [7; 7; 7; 7] eq_refl eq_refl eq_refl _ eq_refl _)
            1%nat _ _) eq_refl).
  - vm_compute. intros H. discriminate H.
  - simpl. lia.
  - simpl. lia.
  - intros i Hi. assert (i = 0%nat) as -> by lia.
    exists 1. split; [reflexivity | lia].
Defined.

(** ** ROWS frames with constant offsets, through resolution and repair *)

Lemma offsetFits_bounds p windowFrame isStartBound :
  offsetFits p windowFrame isStartBound ->
  0 <= sideConstant windowFrame isStartBound
  /\ WindowPartition.numRows p + sideConstant windowFrame isStartBound
     <= 2147483647.
Proof. unfold offsetFits, max_signed. simpl. intros H. exact H. Qed.

(** The raw bounds of one side of a ROWS frame whose K offset, if any, is a
    constant that fits. *)
Lemma resolvedBounds_rows w p windowFrame isStartBound startRow numRows buf :
  wf_type windowFrame = kRows ->
  sideResolves windowFrame isStartBound = true ->
  offsetFits (snd p) windowFrame isStartBound ->
  0 <= startRow ->
  startRow + numRows <= WindowPartition.numRows (snd p) ->
  (Z.to_nat numRows <= length buf)%nat ->
  length (resolvedBounds w p windowFrame isStartBound startRow numRows buf)
  = length buf
  /\ forall r, (r < Z.to_nat numRows)%nat ->
     load (resolvedBounds w p windowFrame isStartBound startRow numRows buf) r
     = rowsBoundOf (boundTypeOf windowFrame isStartBound)
         (sideConstant windowFrame isStartBound)
         (WindowPartition.numRows (snd p) - 1) (startRow + Z.of_nat r).
Proof.
  intros Hty Hside Hfits Hstart Hend Hlen.
  apply offsetFits_bounds in Hfits as [Hc0 Hcmax].
  unfold resolvedBounds, updateFrameBounds.
  fold (boundTypeOf windowFrame isStartBound). rewrite Hty.
  unfold sideResolves in Hside. rewrite Hty in Hside.
  unfold sideConstant in *.
  destruct (boundTypeOf windowFrame isStartBound) eqn:Hbt; simpl in Hside.
  - rewrite fill_n_stored. simpl. split; [apply stored_length|].
    intros r Hr. apply stored_seq_load; assumption.
  - destruct (if isStartBound then start windowFrame else end_ windowFrame)
      as [arg|]; [|discriminate Hside].
    apply andb_true_iff in Hside as [Hidx Hc]. apply Z.eqb_eq in Hidx.
    destruct (constant arg) as [c|] eqn:Hconst; [|discriminate Hc].
    simpl in Hc0, Hcmax.
    rewrite (updateKRowsFrameBounds_constant_stored _ _ _ _ c) by assumption.
    simpl. split; [apply stored_length|].
    intros r Hr. rewrite stored_seq_load by assumption.
    unfold exactBound, signedOffset. apply to_int32_small, in_range_32. lia.
  - rewrite iota_stored. simpl. split; [apply stored_length|].
    intros r Hr. rewrite stored_seq_load by assumption.
    apply to_int32_small, in_range_32. lia.
  - destruct (if isStartBound then start windowFrame else end_ windowFrame)
      as [arg|]; [|discriminate Hside].
    apply andb_true_iff in Hside as [Hidx Hc]. apply Z.eqb_eq in Hidx.
    destruct (constant arg) as [c|] eqn:Hconst; [|discriminate Hc].
    simpl in Hc0, Hcmax.
    rewrite (updateKRowsFrameBounds_constant_stored _ _ _ _ c) by assumption.
    simpl. split; [apply stored_length|].
    intros r Hr. rewrite stored_seq_load by assumption.
    unfold exactBound, signedOffset. apply to_int32_small, in_range_32. lia.
  - rewrite fill_n_stored. simpl. split; [apply stored_length|].
    intros r Hr. rewrite stored_seq_load by assumption.
    apply to_int32_small, in_range_32. lia.
Qed.

Lemma sideResolves_no_arg windowFrame isStartBound :
  sideResolves windowFrame isStartBound = true ->
  (if isStartBound then start windowFrame else end_ windowFrame) = None ->
  isKBound (boundTypeOf windowFrame isStartBound) = false.
Proof.
  unfold sideResolves. intros H Harg. rewrite Harg in H.
  destruct (isKBound _); [|reflexivity].
  destruct (wf_type windowFrame); discriminate H.
Qed.

(** The frame buffers and the selector of function [i] after the body of the
    loop of computePeerAndFrameBuffers, for a ROWS frame with constant
    offsets. *)
Lemma computeFrameBuffers_rows w i p windowFrame startRow numRows sbuf ebuf :
  currentPartition_ w = Some p ->
  windowFrames_ w !! i = Some windowFrame ->
  wf_type windowFrame = kRows ->
  sideResolves windowFrame true = true ->
  sideResolves windowFrame false = true ->
  offsetFits (snd p) windowFrame true ->
  offsetFits (snd p) windowFrame false ->
  0 <= startRow -> 0 <= numRows ->
  startRow + numRows <= WindowPartition.numRows (snd p) ->
  frameStartBuffers_ w !! i = Some sbuf ->
  frameEndBuffers_ w !! i = Some ebuf ->
  (Z.to_nat numRows <= length sbuf)%nat ->
  (Z.to_nat numRows <= length ebuf)%nat ->
  (i < length (validFrames_ w))%nat ->
  exists w' starts ends valid,
    computeFrameBuffers i startRow numRows w = (w', Returned tt)
    /\ buffersOf i w' = (Some starts, Some ends, Some valid)
    /\ rowsFrameResolved (snd p) windowFrame startRow (Z.to_nat numRows)
         starts ends valid.
Proof.
  intros Hp Hwf Hty Hs He Hfs Hfe Hstart Hnum Hend Hsb Heb Hls Hle Hlv.
  destruct (resolvedBounds_rows w p windowFrame true startRow numRows sbuf
              Hty Hs Hfs Hstart Hend Hls) as [Hlen1 Hrow1].
  destruct (resolvedBounds_rows w p windowFrame false startRow numRows ebuf
              Hty He Hfe Hstart Hend Hle) as [Hlen2 Hrow2].
  pose proof (offsetFits_bounds _ _ _ Hfs) as [Hc0 Hcmax].
  assert (Hi1 : (i < length (frameStartBuffers_ w))%nat)
    by (apply lookup_lt_Some in Hsb; exact Hsb).
  assert (Hi2 : (i < length (frameEndBuffers_ w))%nat)
    by (apply lookup_lt_Some in Heb; exact Heb).
  destruct (computeFrameBuffers_returns w i p windowFrame startRow numRows
              Hp Hwf Hs He) as [w' Hrun].
  unfold rowsFrameResolved.
  destruct (has_value (start windowFrame) || has_value (end_ windowFrame))
    eqn:Hk.
  - destruct (computeFrameBuffers_k_repairs w w' i p windowFrame startRow numRows
                Hp Hwf Hk Hi1 Hi2 Hlv Hrun)
      as [starts [ends [valid [Hbuf Hrep]]]].
    exists w', starts, ends, valid. split; [exact Hrun|]. split; [exact Hbuf|].
    rewrite Hsb, Heb in Hrep. simpl in Hrep.
    rewrite (to_int32_small (WindowPartition.numRows (snd p) - 1)) in Hrep
      by (apply in_range_32; lia).
    pose proof (computeValidFrames_repaired
                  (WindowPartition.numRows (snd p) - 1)
                  (resolvedBounds w p windowFrame true startRow numRows sbuf)
                  (resolvedBounds w p windowFrame false startRow numRows ebuf)
                  (resizeFill numRows true) (Z.to_nat numRows)
                  ltac:(lia) ltac:(lia)) as Hrepaired.
    unfold computeValidFrames in Hrep. rewrite <- Hrep in Hrepaired.
    destruct Hrepaired as [_ [_ Hrows]].
    intros r Hr. destruct (Hrows r) as [Hrow _]. specialize (Hrow Hr).
    cbv zeta in Hrow. rewrite (Hrow1 r Hr), (Hrow2 r Hr) in Hrow.
    rewrite (resizeFill_lookup numRows true r Hr) in Hrow.
    unfold boundTypeOf in Hrow. cbv zeta.
    destruct (validFrame _ _ _); destruct Hrow as [-> [-> ->]];
      repeat split; reflexivity.
  - apply orb_false_iff in Hk as [Hns Hne].
    assert (Hsn : start windowFrame = None)
      by (destruct (start windowFrame); [discriminate Hns | reflexivity]).
    assert (Hen : end_ windowFrame = None)
      by (destruct (end_ windowFrame); [discriminate Hne | reflexivity]).
    destruct (computeFrameBuffers_no_k w i p windowFrame startRow numRows
                Hp Hwf Hsn Hen
                (sideResolves_no_arg windowFrame true Hs Hsn)
                (sideResolves_no_arg windowFrame false He Hen)
                Hi1 Hi2 Hlv) as [w'' [Hrun' Hbuf]].
    rewrite Hrun in Hrun'. injection Hrun' as <-.
    rewrite Hsb, Heb in Hbuf. simpl in Hbuf.
    eexists w', _, _, _. split; [exact Hrun|]. split; [exact Hbuf|].
    intros r Hr. cbv zeta.
    rewrite (Hrow1 r Hr), (Hrow2 r Hr), (resizeFill_lookup numRows true r Hr).
    repeat split; reflexivity.
Qed.

(** X9: for a ROWS frame whose K offsets are constants [c] with [0 <= c] and
    [n + c <= 2^31 - 1], where [n] is the number of rows of the current
    partition (so that no row index plus or minus the offset leaves the
    32-bit range), on a slice inside the current partition, the loop body of
    computePeerAndFrameBuffers
    returns and leaves, for the row [startRow + r] of the partition: with a
    frame argument on either side, the row marked valid iff its raw bounds
    [s] and [e] satisfy [s <= e], [e >= 0] and [s <= lastRow], with the
    bounds clamped to [max(s, 0)] and [min(e, lastRow)] when valid and raw
    when not; without any frame argument, the row marked valid and the raw
    bounds.  The raw bounds are 0, the last row, the row itself, the row
    minus the offset and the row plus the offset for the five bound kinds. *)
Theorem computeFrameBuffers_rows_constant_frame
    (w : Window) (i : nat) (p : nat * WindowPartition)
    (windowFrame : WindowFrame) (startRow numRows : Z) (sbuf ebuf : list Z) :
  currentPartition_ w = Some p ->
  windowFrames_ w !! i = Some windowFrame ->
  wf_type windowFrame = kRows ->
  sideResolves windowFrame true = true ->
  sideResolves windowFrame false = true ->
  offsetFits (snd p) windowFrame true ->
  offsetFits (snd p) windowFrame false ->
  0 <= startRow -> 0 <= numRows ->
  startRow + numRows <= WindowPartition.numRows (snd p) ->
  frameStartBuffers_ w !! i = Some sbuf ->
  frameEndBuffers_ w !! i = Some ebuf ->
  (Z.to_nat numRows <= length sbuf)%nat ->
  (Z.to_nat numRows <= length ebuf)%nat ->
  (i < length (validFrames_ w))%nat ->
  exists w' starts ends valid,
    computeFrameBuffers i startRow numRows w = (w', Returned tt)
    /\ buffersOf i w' = (Some starts, Some ends, Some valid)
    /\ forall r, (r < Z.to_nat numRows)%nat ->
       let lastRow := WindowPartition.numRows (snd p) - 1 in
       let row := startRow + Z.of_nat r in
       let s := rowsBoundOf (wf_startType windowFrame)
                  (sideConstant windowFrame true) lastRow row in
       let e := rowsBoundOf (wf_endType windowFrame)
                  (sideConstant windowFrame false) lastRow row in
       if has_value (start windowFrame) || has_value (end_ windowFrame) then
         valid !! r = Some (validFrame lastRow s e)
         /\ load starts r = (if validFrame lastRow s e then Z.max s 0 else s)
         /\ load ends r = (if validFrame lastRow s e then Z.min e lastRow else e)
       else
         valid !! r = Some true /\ load starts r = s /\ load ends r = e.
Proof.
  intros Hp Hwf Hty Hs He Hfs Hfe Hstart Hnum Hend Hsb Heb Hls Hle Hlv.
  exact (computeFrameBuffers_rows w i p windowFrame startRow numRows sbuf ebuf
           Hp Hwf Hty Hs He Hfs Hfe Hstart Hnum Hend Hsb Heb Hls Hle Hlv).
Qed.

Lemma slidingExample_current :
  currentPartition_ slidingExample = Some (0%nat, fiveRows)
  /\ windowFrames_ slidingExample !! 0%nat = Some twoPrecedingWindowFrame
  /\ frameStartBuffers_ slidingExample !! 0%nat = Some [0; 0; 0; 0; 0]
  /\ frameEndBuffers_ slidingExample !! 0%nat = Some [0; 0; 0; 0; 0]
  /\ length (validFrames_ slidingExample) = 1%nat.
Proof. vm_compute. repeat split; reflexivity. Qed.

Lemma twoPreceding_fits isStartBound :
  offsetFits fiveRows twoPrecedingWindowFrame isStartBound.
Proof.
  destruct isStartBound; split; vm_compute; intros H; discriminate H.
Qed.

Lemma computeFrameBuffers_rows_constant_frame_witness :
  exists w' starts ends valid,
    computeFrameBuffers 0 0 5 slidingExample = (w', Returned tt)
    /\ buffersOf 0 w' = (Some starts, Some ends, Some valid)
    /\ valid !! 0%nat = Some true
    /\ load starts 0 = 0 /\ load ends 0 = 0
    /\ load starts 4 = 2 /\ load ends 4 = 4.
Proof.
  destruct slidingExample_current as [Hp [Hwf [Hsb [Heb Hlv]]]].
  destruct (computeFrameBuffers_rows_constant_frame slidingExample 0
              (0%nat, fiveRows) twoPrecedingWindowFrame 0 5
              [0; 0; 0; 0; 0] [0; 0; 0; 0; 0] Hp Hwf eq_refl eq_refl eq_refl
              (twoPreceding_fits true) (twoPreceding_fits false)
              ltac:(lia) ltac:(lia)
              ltac:(vm_compute; intros H; discriminate H) Hsb Heb
              ltac:(simpl; lia) ltac:(simpl; lia) ltac:(rewrite Hlv; lia))
    as [w' [starts [ends [valid [Hrun [Hbuf Hrows]]]]]].
  exists w', starts, ends, valid.
  split; [exact Hrun|]. split; [exact Hbuf|].
  pose proof (Hrows 0%nat ltac:(simpl; lia)) as H0.
  pose proof (Hrows 4%nat ltac:(simpl; lia)) as H4.
  vm_compute in H0, H4.
  destruct H0 as [Hv0 [Hs0 He0]]. destruct H4 as [_ [Hs4 He4]].
  repeat split; assumption.
Defined.

(** X10: a ROWS frame whose start bound is UNBOUNDED PRECEDING, K PRECEDING
    or CURRENT ROW, whose end bound is CURRENT ROW, K FOLLOWING or UNBOUNDED
    FOLLOWING, and whose K offsets are constants [c] with [0 <= c] and
    [n + c <= 2^31 - 1], where [n] is the number of rows of the current
    partition, has no invalid row: every row of the slice is marked valid,
    and its frame contains the row and lies inside the partition, with the
    start clamped up to 0 and the end clamped down to the last row.  (Beyond
    that size the bound wraps and rows can be invalid.) *)
Theorem computeFrameBuffers_frame_around_row_valid
    (w : Window) (i : nat) (p : nat * WindowPartition)
    (windowFrame : WindowFrame) (startRow numRows : Z) (sbuf ebuf : list Z) :
  currentPartition_ w = Some p ->
  windowFrames_ w !! i = Some windowFrame ->
  wf_type windowFrame = kRows ->
  sideResolves windowFrame true = true ->
  sideResolves windowFrame false = true ->
  startsAtOrBeforeRow (wf_startType windowFrame) = true ->
  endsAtOrAfterRow (wf_endType windowFrame) = true ->
  offsetFits (snd p) windowFrame true ->
  offsetFits (snd p) windowFrame false ->
  0 <= startRow -> 0 <= numRows ->
  startRow + numRows <= WindowPartition.numRows (snd p) ->
  frameStartBuffers_ w !! i = Some sbuf ->
  frameEndBuffers_ w !! i = Some ebuf ->
  (Z.to_nat numRows <= length sbuf)%nat ->
  (Z.to_nat numRows <= length ebuf)%nat ->
  (i < length (validFrames_ w))%nat ->
  exists w' starts ends valid,
    computeFrameBuffers i startRow numRows w = (w', Returned tt)
    /\ buffersOf i w' = (Some starts, Some ends, Some valid)
    /\ forall r, (r < Z.to_nat numRows)%nat ->
       let lastRow := WindowPartition.numRows (snd p) - 1 in
       let row := startRow + Z.of_nat r in
       valid !! r = Some true
       /\ load starts r
          = Z.max (rowsBoundOf (wf_startType windowFrame)
                     (sideConstant windowFrame true) lastRow row) 0
       /\ load ends r
          = Z.min (rowsBoundOf (wf_endType windowFrame)
                     (sideConstant windowFrame false) lastRow row) lastRow
       /\ 0 <= load starts r <= row
       /\ row <= load ends r <= lastRow.
Proof.
  intros Hp Hwf Hty Hs He Hbefore Hafter Hfs Hfe Hstart Hnum Hend Hsb Heb
    Hls Hle Hlv.
  destruct (computeFrameBuffers_rows w i p windowFrame startRow numRows sbuf ebuf
              Hp Hwf Hty Hs He Hfs Hfe Hstart Hnum Hend Hsb Heb Hls Hle Hlv)
    as [w' [starts [ends [valid [Hrun [Hbuf Hrows]]]]]].
  exists w', starts, ends, valid.
  split; [exact Hrun|]. split; [exact Hbuf|].
  intros r Hr. specialize (Hrows r Hr). cbv zeta in *.
  apply offsetFits_bounds in Hfs as [Hs0 _].
  apply offsetFits_bounds in Hfe as [He0 _].
  set (lastRow := WindowPartition.numRows (snd p) - 1) in *.
  set (row := startRow + Z.of_nat r) in *.
  assert (Hrow : 0 <= row <= lastRow) by (subst row lastRow; lia).
  set (cs := sideConstant windowFrame true) in *.
  set (ce := sideConstant windowFrame false) in *.
  assert (Hsle : rowsBoundOf (wf_startType windowFrame) cs lastRow row <= row).
  { destruct (wf_startType windowFrame); try discriminate Hbefore; simpl; lia. }
  assert (Hege : row <= rowsBoundOf (wf_endType windowFrame) ce lastRow row).
  { destruct (wf_endType windowFrame); try discriminate Hafter; simpl; lia. }
  destruct (has_value (start windowFrame) || has_value (end_ windowFrame))
    eqn:Hk.
  - assert (Hvalid : validFrame lastRow
                       (rowsBoundOf (wf_startType windowFrame) cs lastRow row)
                       (rowsBoundOf (wf_endType windowFrame) ce lastRow row)
                     = true) by (apply validFrame_spec; lia).
    rewrite Hvalid in Hrows. destruct Hrows as [-> [-> ->]].
    repeat split; try reflexivity; lia.
  - apply orb_false_iff in Hk as [Hns Hne].
    assert (Hsn : start windowFrame = None)
      by (destruct (start windowFrame); [discriminate Hns | reflexivity]).
    assert (Hen : end_ windowFrame = None)
      by (destruct (end_ windowFrame); [discriminate Hne | reflexivity]).
    pose proof (sideResolves_no_arg windowFrame true Hs Hsn) as Hks.
    pose proof (sideResolves_no_arg windowFrame false He Hen) as Hke.
    unfold boundTypeOf in Hks, Hke.
    destruct Hrows as [-> [-> ->]].
    destruct (wf_startType windowFrame); try discriminate Hbefore;
      try discriminate Hks;
      destruct (wf_endType windowFrame); try discriminate Hafter;
        try discriminate Hke; simpl; repeat split; lia.
Qed.

Lemma computeFrameBuffers_frame_around_row_valid_witness :
  exists w' starts ends valid,
    computeFrameBuffers 0 0 5 slidingExample = (w', Returned tt)
    /\ buffersOf 0 w' = (Some starts, Some ends, Some valid)
    /\ forall r, (r < 5)%nat -> valid !! r = Some true.
Proof.
  destruct slidingExample_current as [Hp [Hwf [Hsb [Heb Hlv]]]].
  destruct (computeFrameBuffers_frame_around_row_valid slidingExample 0
              (0%nat, fiveRows) twoPrecedingWindowFrame 0 5
              [0; 0; 0; 0; 0] [0; 0; 0; 0; 0] Hp Hwf eq_refl eq_refl eq_refl
              eq_refl eq_refl
              (twoPreceding_fits true) (twoPreceding_fits false)
              ltac:(lia) ltac:(lia)
              ltac:(vm_compute; intros H; discriminate H) Hsb Heb
              ltac:(simpl; lia) ltac:(simpl; lia) ltac:(rewrite Hlv; lia))
    as [w' [starts [ends [valid [Hrun [Hbuf Hrows]]]]]].
  exists w', starts, ends, valid.
  split; [exact Hrun|]. split; [exact Hbuf|].
  intros r Hr. apply (Hrows r). simpl. lia.
Defined.

(** ** Runs: an invariant over successive output calls *)

(** A property that every returning output call keeps holds after any run
    of output calls. *)
Lemma getOutputs_invariant (P : Window -> Prop) :
  (forall w w' out, Inv w -> AtRest w -> P w ->
     getOutput w = (w', Returned out) -> P w') ->
  forall k w, Inv w -> AtRest w -> P w ->
  match getOutputs k w with
  | (wk, Returned _) => Inv wk /\ AtRest wk /\ sameSetup w wk /\ P wk
  | (_, Thrown _) => neverThrows w = false
  end.
Proof.
  intros Hstep. induction k as [|k IH]; intros w Hinv Hrest HP.
  - simpl. split; [exact Hinv|]. split; [exact Hrest|].
    split; [apply sameSetup_refl | exact HP].
  - cbn [getOutputs]. unfold bind at 1.
    pose proof (getOutput_spec w Hinv Hrest) as Hcall.
    destruct (getOutput w) as [w1 [out|e]] eqn:Hrun; [|exact Hcall].
    destruct Hcall as [Hinv1 [Hrest1 [Hsame1 _]]].
    specialize (IH w1 Hinv1 Hrest1 (Hstep w w1 out Hinv Hrest HP Hrun)).
    unfold bind at 1.
    destruct (getOutputs k w1) as [w' [outs|e]].
    + destruct IH as [Hinv' [Hrest' [Hsame' HP']]].
      split; [exact Hinv'|]. split; [exact Hrest'|].
      split; [apply sameSetup_trans with w1; assumption | exact HP'].
    + rewrite <- (neverThrows_sameSetup w w1 Hsame1). exact IH.
Qed.

(** ** The rows are processed in the order of the build, each once *)

Lemma take_seq_prefix c n : (c <= n)%nat -> take c (seq 0 n) = seq 0 c.
Proof.
  intros H. replace n with (c + (n - c))%nat by lia.
  rewrite seq_app. apply take_app_length'. symmetry. apply length_seq.
Qed.

Lemma map_seq_shift {A} (f : nat -> A) a n :
  map f (seq a n) = map (fun r => f (a + r)%nat) (seq 0 n).
Proof.
  revert f a. induction n as [|n IH]; intros f a; [reflexivity|].
  simpl. rewrite Nat.add_0_r. f_equal.
  rewrite (IH f (S a)), (IH (fun r => f (a + r)%nat) 1%nat).
  apply map_ext. intros r. f_equal. lia.
Qed.

Lemma rowsOfSlice_length q startRow endRow :
  length (rowsOfSlice (q, startRow, endRow)) = Z.to_nat (endRow - startRow).
Proof. unfold rowsOfSlice. rewrite length_map. apply length_seq. Qed.

Lemma rowsOfSlice_empty q startRow : rowsOfSlice (q, startRow, startRow) = [].
Proof. unfold rowsOfSlice. rewrite Z.sub_diag. reflexivity. Qed.

Lemma rowsOfSlice_app q a b c :
  a <= b -> b <= c ->
  rowsOfSlice (q, a, b) ++ rowsOfSlice (q, b, c) = rowsOfSlice (q, a, c).
Proof.
  intros Hab Hbc. unfold rowsOfSlice.
  replace (Z.to_nat (c - a)) with (Z.to_nat (b - a) + Z.to_nat (c - b))%nat
    by lia.
  rewrite seq_app, map_app. f_equal. rewrite Nat.add_0_l.
  rewrite (map_seq_shift _ (Z.to_nat (b - a))).
  apply map_ext. intros r. f_equal. lia.
Qed.

Lemma rowsOfSlice_take q n c :
  0 <= c <= n ->
  take (Z.to_nat c) (rowsOfSlice (q, 0, n)) = rowsOfSlice (q, 0, c).
Proof.
  intros H. unfold rowsOfSlice. rewrite firstn_map, !Z.sub_0_r.
  rewrite take_seq_prefix by lia. reflexivity.
Qed.

Lemma allRows_length parts q :
  Forall (fun p => 1 <= WindowPartition.numRows p) parts ->
  length (allRows parts q) = Z.to_nat (totalRows parts).
Proof.
  intros H. revert q. induction H as [|p rest Hp Hrest IH]; intros q;
    [reflexivity|].
  cbn [allRows].
  change (totalRows (p :: rest))
    with (WindowPartition.numRows p + totalRows rest).
  rewrite length_app, rowsOfSlice_length, IH, Z.sub_0_r.
  pose proof (totalRows_nonneg rest Hrest). lia.
Qed.

Lemma allRows_app parts1 parts2 q :
  allRows (parts1 ++ parts2) q
  = allRows parts1 q ++ allRows parts2 (q + length parts1).
Proof.
  revert q. induction parts1 as [|p rest IH]; intros q; simpl.
  - rewrite Nat.add_0_r. reflexivity.
  - rewrite IH, <- app_assoc. do 3 f_equal. lia.
Qed.

(** The slices of the batching rule, from the cursor [cursor] in the first
    of [parts] with [budget] rows wanted, cover the next [budget] rows of the
    build in order. *)
Lemma planSlices_rows parts :
  Forall (fun p => 1 <= WindowPartition.numRows p) parts ->
  forall q cursor budget,
    0 <= cursor <= headRows parts -> 0 <= budget ->
    cursor + budget <= totalRows parts ->
    rowsOfSlice (q, 0, cursor)
      ++ rowsOfSlices (planSlices parts q cursor budget)
    = take (Z.to_nat (cursor + budget)) (allRows parts q).
Proof.
  intros H. induction H as [|p rest Hp Hrest IH];
    intros q cursor budget Hcur Hbud Hfit.
  - simpl in Hcur, Hfit. assert (cursor = 0) as -> by lia.
    cbn [allRows planSlices rowsOfSlices flat_map].
    rewrite rowsOfSlice_empty, take_nil. reflexivity.
  - pose proof (totalRows_nonneg rest Hrest) as Hnonneg.
    change (totalRows (p :: rest))
      with (WindowPartition.numRows p + totalRows rest) in Hfit.
    cbn [headRows] in Hcur. cbn [planSlices allRows].
    destruct (Z.ltb_spec 0 budget) as [Hpos|Hzero].
    + destruct (Z.leb_spec (WindowPartition.numRows p - cursor) budget)
        as [Hfits|Hpartial].
      * cbn [rowsOfSlices flat_map]. fold (rowsOfSlices
          (planSlices rest (S q) 0
             (budget - (WindowPartition.numRows p - cursor)))).
        rewrite app_assoc, rowsOfSlice_app by lia.
        rewrite take_app_ge by (rewrite rowsOfSlice_length; lia).
        rewrite rowsOfSlice_length. f_equal.
        specialize (IH (S q) 0 (budget - (WindowPartition.numRows p - cursor))).
        rewrite rowsOfSlice_empty in IH. cbn [app] in IH. rewrite IH.
        -- f_equal. lia.
        -- destruct rest as [|p' rest']; cbn [headRows]; [lia|].
           inversion Hrest; subst. lia.
        -- lia.
        -- lia.
      * cbn [rowsOfSlices flat_map]. rewrite app_nil_r.
        rewrite rowsOfSlice_app by lia.
        rewrite take_app_le by (rewrite rowsOfSlice_length; lia).
        symmetry. apply rowsOfSlice_take. lia.
    + assert (budget = 0) as -> by lia. cbn [rowsOfSlices flat_map].
      rewrite app_nil_r, Z.add_0_r.
      rewrite take_app_le by (rewrite rowsOfSlice_length; lia).
      symmetry. apply rowsOfSlice_take. lia.
Qed.

Lemma rowsOfSlices_app slices1 slices2 :
  rowsOfSlices (slices1 ++ slices2)
  = rowsOfSlices slices1 ++ rowsOfSlices slices2.
Proof. apply flat_map_app. Qed.

(** One returning output call keeps the processed rows in the order of the
    build. *)
Lemma getOutput_rowsInOrder w w' out :
  Inv w -> AtRest w -> rowsInOrder w ->
  getOutput w = (w', Returned out) -> rowsInOrder w'.
Proof.
  intros Hinv Hrest Horder Hrun.
  pose proof (getOutput_spec w Hinv Hrest) as Hcall. rewrite Hrun in Hcall.
  destruct Hcall as [_ [_ [Hsame [_ [Hpr' [Hsl' _]]]]]].
  destruct Hsame as [_ [_ [_ [_ Hparts]]]].
  destruct (Inv_processed w Hinv) as [Hpr Hmax].
  pose proof Hinv as [_ Hne Htot _ Hbud Hnext Hcur _].
  unfold rowsInOrder in *. rewrite Hsl', Hpr', Hparts.
  rewrite rowsOfSlices_app, Horder.
  set (parts := partitions (windowBuild_ w)) in *.
  set (b := Z.min (numRowsPerOutput_ w) (rowsLeft w)).
  assert (Hb : 0 <= b <= rowsLeft w) by (unfold b, rowsLeft in *; lia).
  unfold plannedSlices. fold parts. fold b.
  (* the position of the next row *)
  assert (Hpos : exists q c,
            nextRow w = (q, c) /\ (q <= length parts)%nat
            /\ 0 <= c <= headRows (drop q parts)
            /\ numProcessedRows_ w = rowsBefore parts q + c).
  { unfold nextRow. destruct (currentPartition_ w) as [[q p]|].
    - destruct Hcur as [Hp [_ [Hoff Hprq]]].
      exists q, (partitionOffset_ w). split; [reflexivity|].
      split; [apply lookup_lt_Some in Hp; lia|].
      rewrite (drop_S _ _ _ Hp). simpl. split; assumption.
    - exists (nextIndex (windowBuild_ w)), 0. split; [reflexivity|].
      split; [exact Hnext|]. split; [|lia].
      split; [lia|].
      assert (Hd' : Forall (fun p => 1 <= WindowPartition.numRows p)
                      (drop (nextIndex (windowBuild_ w)) parts))
        by (apply Forall_drop; exact Hne).
      destruct (drop _ parts) as [|p rest]; simpl; [lia|].
      inversion Hd'; subst. lia. }
  destruct Hpos as [q [c [-> [Hq [Hc Hprq]]]]]. simpl.
  assert (Hsplit : totalRows parts = rowsBefore parts q + totalRows (drop q parts))
    by apply rowsBefore_split.
  assert (Hbefore : 0 <= rowsBefore parts q) by (apply rowsBefore_nonneg; exact Hne).
  assert (Hall : allRows parts 0
                 = allRows (take q parts) 0 ++ allRows (drop q parts) q).
  { rewrite <- (take_drop q parts) at 1. rewrite allRows_app.
    rewrite length_take_le by exact Hq. reflexivity. }
  assert (Hlen : length (allRows (take q parts) 0) = Z.to_nat (rowsBefore parts q)).
  { apply allRows_length. apply Forall_take. exact Hne. }
  assert (Hdrop : Forall (fun p => 1 <= WindowPartition.numRows p) (drop q parts))
    by (apply Forall_drop; exact Hne).
  rewrite Hall, Hprq.
  rewrite !take_app_ge by (rewrite Hlen; lia).
  rewrite Hlen, <- app_assoc. f_equal.
  replace (Z.to_nat (rowsBefore parts q + c) - Z.to_nat (rowsBefore parts q))%nat
    with (Z.to_nat (c + 0)) by lia.
  replace (Z.to_nat (rowsBefore parts q + c + b) - Z.to_nat (rowsBefore parts q))%nat
    with (Z.to_nat (c + b)) by lia.
  unfold rowsLeft in Hb.
  rewrite <- (planSlices_rows (drop q parts) Hdrop q c 0) by lia.
  rewrite planSlices_none by lia. simpl. rewrite app_nil_r.
  apply planSlices_rows; [exact Hdrop | lia | lia | lia].
Qed.

(** X11: over any run of output calls on a finalized operator, the rows of
    the slices processed so far, in the order they were processed, are
    exactly the first [numProcessedRows_] rows of the build, partition by
    partition and row by row: no row is skipped, repeated or taken out of
    order; once every row is counted as processed they are all the rows of
    the build. *)
Theorem getOutputs_rows_in_order
    (functions : list (WindowFunction * Frame)) (budget total : Z)
    (built : list WindowPartition) (w : Window) (k : nat) :
  Finalized functions budget total built w ->
  match getOutputs k w with
  | (wk, Returned _) =>
      rowsOfSlices (slicesOf (calls wk))
      = take (Z.to_nat (numProcessedRows_ wk)) (allRows built 0)
      /\ (numProcessedRows_ wk = total ->
          rowsOfSlices (slicesOf (calls wk)) = allRows built 0)
  | (_, Thrown _) => neverThrows w = false
  end.
Proof.
  intros Hfin.
  destruct (Finalized_Inv _ _ _ _ _ Hfin)
    as [Hinv [Hrest [Hnr [Hro [Hpr [Hcalls [_ [Hparts _]]]]]]]].
  assert (Hstart : rowsInOrder w).
  { unfold rowsInOrder. rewrite Hcalls, Hpr. reflexivity. }
  pose proof (getOutputs_invariant rowsInOrder getOutput_rowsInOrder k w
                Hinv Hrest Hstart) as Hrun.
  destruct (getOutputs k w) as [wk [outs|e]]; [|exact Hrun].
  destruct Hrun as [Hinvk [_ [Hsame Horder]]].
  destruct Hsame as [_ [_ [_ [_ Hpartsk]]]].
  unfold rowsInOrder in Horder. rewrite Hpartsk, Hparts in Horder.
  split; [exact Horder|].
  intros Hall. rewrite Horder, Hall. apply take_ge.
  destruct Hfin as [_ [_ [Hne [Htot _]]]].
  rewrite (allRows_length built 0 Hne), Htot. lia.
Qed.

Lemma getOutputs_rows_in_order_witness :
  rowsOfSlices (slicesOf (calls (fst (getOutputs 4 threePartitionsExample))))
  = [(0%nat, 0); (0%nat, 1); (0%nat, 2); (1%nat, 0); (1%nat, 1);
     (2%nat, 0); (2%nat, 1); (2%nat, 2); (2%nat, 3); (2%nat, 4); (2%nat, 5)].
Proof.
  assert (Hdone : numProcessedRows_ (fst (getOutputs 4 threePartitionsExample))
                  = 11) by (vm_compute; reflexivity).
  pose proof (getOutputs_rows_in_order _ _ _ _ _ 4
                threePartitionsExample_Finalized) as H.
  destruct (getOutputs 4 threePartitionsExample) as [wk [outs|e]].
  - destruct H as [_ H]. exact (H Hdone).
  - discriminate H.
Defined.

(** ** Draining the operator *)

(** The rows counted as processed after [k] output calls. *)
Lemma getOutputs_processed k :
  forall w, Inv w -> AtRest w ->
  match getOutputs k w with
  | (wk, Returned _) =>
      numProcessedRows_ wk
      = Z.min (numProcessedRows_ w + Z.of_nat k * numRowsPerOutput_ w)
          (numRows_ w)
  | (_, Thrown _) => neverThrows w = false
  end.
Proof.
  induction k as [|k IH]; intros w Hinv Hrest.
  - simpl. destruct (Inv_processed w Hinv) as [Hpr _]. lia.
  - cbn [getOutputs]. unfold bind at 1.
    pose proof (getOutput_spec w Hinv Hrest) as Hcall.
    pose proof (inv_budget w Hinv) as Hbud.
    destruct (Inv_processed w Hinv) as [Hpr _].
    destruct (getOutput w) as [w1 [out|e]]; [|exact Hcall].
    destruct Hcall as [Hinv1 [Hrest1 [Hsame1 [_ [Hpr1 _]]]]].
    specialize (IH w1 Hinv1 Hrest1). unfold bind at 1.
    destruct (getOutputs k w1) as [w' [outs|e]].
    + unfold ret. destruct Hsame1 as [_ [_ [Hnr [Hro _]]]].
      rewrite IH, Hpr1, Hnr, Hro. unfold rowsLeft.
      rewrite Nat2Z.inj_succ, Z.mul_succ_l.
      pose proof (Z.mul_nonneg_nonneg (Z.of_nat k) (numRowsPerOutput_ w)
                    ltac:(lia) Hbud).
      lia.
    + rewrite <- (neverThrows_sameSetup w w1 Hsame1). exact IH.
Qed.

(** With no rows left, an output call yields no output and leaves the
    operator as it is. *)
Lemma getOutput_idle w :
  rowsLeft w = 0 -> getOutput w = (w, Returned None).
Proof.
  intros H. unfold getOutput, bind, get. unfold rowsLeft in H.
  destruct (numRows_ w =? 0); [reflexivity|].
  rewrite H. reflexivity.
Qed.

(** With no rows left, no partition is current and the build has handed out
    all its partitions. *)
Lemma Inv_drained w :
  Inv w -> AtRest w -> rowsLeft w = 0 ->
  currentPartition_ w = None
  /\ nextIndex (windowBuild_ w) = length (partitions (windowBuild_ w)).
Proof.
  intros Hinv Hrest Hleft. unfold rowsLeft in Hleft.
  pose proof Hinv as [_ Hne Htot _ _ Hnext Hcur _].
  destruct (currentPartition_ w) as [[q p]|] eqn:Hc.
  - destruct (Inv_partition_rows w q p Hinv Hc) as [_ [_ [Hfit _]]].
    destruct Hcur as [_ [_ [_ Hpr]]]. pose proof (Hrest q p Hc). lia.
  - split; [reflexivity|].
    destruct (Nat.lt_ge_cases (nextIndex (windowBuild_ w))
                (length (partitions (windowBuild_ w)))) as [Hlt|Hge]; [|lia].
    destruct (lookup_lt_is_Some_2 _ _ Hlt) as [p Hp].
    pose proof (rowsBefore_S _ _ _ Hp) as HS.
    pose proof (rowsBefore_le _ (S (nextIndex (windowBuild_ w))) Hne) as Hle.
    rewrite Forall_forall in Hne.
    specialize (Hne p ltac:(apply list_elem_of_lookup; eauto)).
    lia.
Qed.

(** X12: with a positive output budget, [k] output calls drain a finalized
    operator as soon as [k * budget] reaches the input row count: every row
    is then counted as processed and has been processed once, in the order
    of the build; no partition is current; the build has handed out all its
    partitions; and a further output call yields no output and leaves the
    operator exactly as it is. *)
Theorem getOutputs_drains
    (functions : list (WindowFunction * Frame)) (budget total : Z)
    (built : list WindowPartition) (w : Window) (k : nat) :
  Finalized functions budget total built w ->
  0 < budget ->
  total <= Z.of_nat k * budget ->
  match getOutputs k w with
  | (wk, Returned _) =>
      numProcessedRows_ wk = total
      /\ rowsOfSlices (slicesOf (calls wk)) = allRows built 0
      /\ currentPartition_ wk = None
      /\ nextIndex (windowBuild_ wk) = length built
      /\ getOutput wk = (wk, Returned None)
  | (_, Thrown _) => neverThrows w = false
  end.
Proof.
  intros Hfin Hbudget Hk.
  destruct (Finalized_Inv _ _ _ _ _ Hfin)
    as [Hinv [Hrest [Hnr [Hro [Hpr [Hcalls [_ [Hparts _]]]]]]]].
  assert (Hstart : rowsInOrder w).
  { unfold rowsInOrder. rewrite Hcalls, Hpr. reflexivity. }
  pose proof (getOutputs_invariant rowsInOrder getOutput_rowsInOrder k w
                Hinv Hrest Hstart) as Hrun.
  pose proof (getOutputs_processed k w Hinv Hrest) as Hdone.
  destruct (getOutputs k w) as [wk [outs|e]]; [|exact Hrun].
  destruct Hrun as [Hinvk [Hrestk [Hsame Horder]]].
  destruct Hsame as [_ [_ [Hnrk [_ Hpartsk]]]].
  rewrite Hpr, Hro, Hnr in Hdone.
  assert (Hall : numProcessedRows_ wk = total) by lia.
  assert (Hleft : rowsLeft wk = 0) by (unfold rowsLeft; lia).
  destruct (Inv_drained wk Hinvk Hrestk Hleft) as [Hc Hn].
  split; [exact Hall|]. split.
  - unfold rowsInOrder in Horder. rewrite Hpartsk, Hparts in Horder.
    rewrite Horder, Hall. apply take_ge.
    destruct Hfin as [_ [_ [Hne [Htot _]]]].
    rewrite (allRows_length built 0 Hne), Htot. lia.
  - split; [exact Hc|]. split; [congruence|].
    apply getOutput_idle. exact Hleft.
Qed.

Lemma getOutputs_drains_witness :
  numProcessedRows_ (fst (getOutputs 3 threePartitionsExample)) = 11
  /\ currentPartition_ (fst (getOutputs 3 threePartitionsExample)) = None.
Proof.
  pose proof (getOutputs_drains _ _ _ _ _ 3 threePartitionsExample_Finalized
                ltac:(lia) ltac:(lia)) as H.
  destruct (getOutputs 3 threePartitionsExample) as [wk [outs|e]].
  - destruct H as [H1 [_ [H2 _]]]. split; assumption.
  - discriminate H.
Defined.

(** ** No input *)

Lemma getOutputs_unchanged k w :
  getOutput w = (w, Returned None) ->
  getOutputs k w = (w, Returned (replicate k None)).
Proof.
  intros H. induction k as [|k IH]; [reflexivity|].
  cbn [getOutputs]. unfold bind at 1. rewrite H.
  unfold bind at 1. rewrite IH. reflexivity.
Qed.

(** X13: an operator that has taken in no rows does not finalize its window
    build at noMoreInput, and every output call after that yields no output
    and leaves the operator exactly as it is: no partition is asked for and
    no function is reset or applied. *)
Theorem no_input_no_output
    (w : Window) (built : list WindowPartition) (k : nat) :
  numRows_ w = 0 ->
  (noMoreInput built ;;; getOutputs k) w = (w, Returned (replicate k None)).
Proof.
  intros H. unfold noMoreInput, bind at 1. unfold bind at 1, get at 1.
  rewrite H. simpl. apply getOutputs_unchanged.
  unfold getOutput, bind, get. rewrite H. reflexivity.
Qed.

Lemma no_input_no_output_witness :
  (noMoreInput [tenRows] ;;; getOutputs 3) emptyWindow
  = (emptyWindow, Returned [None; None; None]).
Proof. apply (no_input_no_output emptyWindow [tenRows] 3). reflexivity. Defined.

(** ** What a failed slice leaves behind *)

(** X14: when processing a slice throws (bound resolution is the only step
    that can), the slice is not counted: the processed-row count, the cursor,
    the current partition and the window build are as before and no function
    was applied; but the peer computation of the slice has been made, is in
    the log, and the peer continuation pair and the peer buffers hold its
    results. *)
Theorem callApplyForPartitionRows_throw_state
    (w w' : Window) (p : nat * WindowPartition) (startRow endRow off : Z)
    (e : VeloxError) :
  currentPartition_ w = Some p ->
  callApplyForPartitionRows startRow endRow off w = (w', Thrown e) ->
  numProcessedRows_ w' = numProcessedRows_ w
  /\ partitionOffset_ w' = partitionOffset_ w
  /\ currentPartition_ w' = Some p
  /\ windowBuild_ w' = windowBuild_ w
  /\ calls w'
     = calls w ++ [ComputePeerBuffers (fst p) startRow endRow
                     (peerStartRow_ w) (peerEndRow_ w)
                     (peerStartRow_ w') (peerEndRow_ w')]
  /\ (peerStartRow_ w', peerEndRow_ w', (peerStartBuffer_ w', peerEndBuffer_ w'))
     = WindowPartition.computePeerBuffers (snd p) startRow endRow
         (peerStartRow_ w) (peerEndRow_ w)
         (peerStartBuffer_ w) (peerEndBuffer_ w).
Proof.
  intros Hp. unfold callApplyForPartitionRows. unfold bind at 1.
  pose proof (computePeerAndFrameBuffers_core w p startRow endRow Hp) as Hcore.
  destruct (afterPeers_fields w p startRow endRow)
    as [Hf0 [Hwf0 [Hb0 [Hc0 [Hn0 [Hr0 [Hpr0 [Ho0 _]]]]]]]].
  pose proof (afterPeers_calls w p startRow endRow) as Hcalls0. simpl in Hcalls0.
  pose proof (afterPeers_peers w p startRow endRow) as Hpeers0. simpl in Hpeers0.
  destruct (computePeerAndFrameBuffers startRow endRow w) as [w1 [[]|err]].
  - simpl in Hcore. unfold core in Hcore.
    injection Hcore as Hf Hwf Hb Hc Hn Hr Hpr Ho Hps Hpe Hpsb Hpeb Hcalls.
    unfold currentPartition, bind, get. rewrite Hc, Hc0, Hp. simpl.
    unfold for_loop, numFuncs. rewrite Nat2Z.id, for_each_log. simpl.
    intros H. discriminate H.
  - intros H. injection H as <- <-. simpl in Hcore. unfold core in Hcore.
    injection Hcore as Hf Hwf Hb Hc Hn Hr Hpr Ho Hps Hpe Hpsb Hpeb Hcalls.
    rewrite Hpr, Hpr0, Ho, Ho0, Hc, Hc0, Hb, Hb0, Hcalls, Hcalls0, Hps, Hpe,
      Hpsb, Hpeb.
    repeat split; try reflexivity; assumption.
Qed.

Lemma callApplyForPartitionRows_throw_state_witness :
  snd (callApplyForPartitionRows 0 3 0 nullOffsetExample)
  = Thrown (VeloxUserError OffsetMustNotBeNull)
  /\ numProcessedRows_ (fst (callApplyForPartitionRows 0 3 0 nullOffsetExample))
     = numProcessedRows_ nullOffsetExample
  /\ partitionOffset_ (fst (callApplyForPartitionRows 0 3 0 nullOffsetExample))
     = partitionOffset_ nullOffsetExample.
Proof.
  split; [vm_compute; reflexivity|].
  assert (Hrun : callApplyForPartitionRows 0 3 0 nullOffsetExample
                 = (fst (callApplyForPartitionRows 0 3 0 nullOffsetExample),
                    Thrown (VeloxUserError OffsetMustNotBeNull)))
    by (vm_compute; reflexivity).
  destruct (callApplyForPartitionRows_throw_state nullOffsetExample _
              (0%nat, keyedPartition [1; 2; 3]
                        (offsetColumn [Some 1; None; Some 2]))
              0 3 0 _ eq_refl Hrun) as [H1 [H2 _]].
  split; assumption.
Defined.

(** ** Where the slices of one output call go in the result *)

Lemma appliesOf_app tr1 tr2 :
  appliesOf (tr1 ++ tr2) = appliesOf tr1 ++ appliesOf tr2.
Proof. apply List.filter_app. Qed.

Lemma appliesOf_applies numFuncs q startRow endRow off :
  appliesOf (applies numFuncs q startRow endRow off)
  = applies numFuncs q startRow endRow off.
Proof.
  unfold appliesOf, applies. induction (seq 0 numFuncs) as [|i l IH];
    [reflexivity|].
  simpl. rewrite IH. reflexivity.
Qed.

Lemma appliesOf_resets numFuncs q : appliesOf (resets numFuncs q) = [].
Proof.
  unfold appliesOf, resets. induction (seq 0 numFuncs) as [|i l IH];
    [reflexivity|].
  simpl. exact IH.
Qed.

Lemma resetState_applies w :
  appliesOf (calls (resetState w)) = appliesOf (calls w).
Proof.
  unfold resetState.
  destruct (partitions (windowBuild_ w) !! nextIndex (windowBuild_ w));
    simpl; [|reflexivity].
  rewrite appliesOf_app, appliesOf_resets, app_nil_r. reflexivity.
Qed.

(** The loop of callApplyLoop applies the functions to the slices of the
    batching rule at consecutive result rows, from [resultIndex] on. *)
Lemma callApplyLoop_while_applies fuel :
  forall w resultIndex left q p,
    Inv w -> AtRest w ->
    currentPartition_ w = Some (q, p) ->
    0 <= left ->
    numProcessedRows_ w + left <= numRows_ w ->
    (partitionsLeft (windowBuild_ w) < fuel)%nat ->
    0 <= resultIndex -> resultIndex + left <= 2147483647 ->
    match callApplyLoop_while fuel resultIndex left w with
    | (w', Returned _) =>
        appliesOf (calls w')
        = appliesOf (calls w)
          ++ appliesFor (length (windowFunctions_ w)) resultIndex
               (planSlices (drop q (partitions (windowBuild_ w))) q
                  (partitionOffset_ w) left)
    | (_, Thrown _) => True
    end.
Proof.
  induction fuel as [|fuel IH]; intros w resultIndex left q p Hinv Hrest Hc
    Hleft Hfit Hfuel Hri Hrimax; [lia|].
  destruct (Z.eq_dec left 0) as [->|Hpos].
  { cbn [callApplyLoop_while]. simpl.
    rewrite planSlices_none, app_nil_r by lia. reflexivity. }
  rewrite (callApplyLoop_while_step fuel resultIndex left w q p Hc) by lia.
  destruct (Inv_partition_rows w q p Hinv Hc) as [Hrows [Hbefore [Hpfit Hmax]]].
  pose proof Hinv as [Hfr Hne Htot _ _ Hnext Hcur _].
  rewrite Hc in Hcur. destruct Hcur as [Hp [Hn [Hoff Hpr]]].
  pose proof (Hrest q p Hc) as Hinside.
  assert (Hdrop : drop q (partitions (windowBuild_ w))
                  = p :: drop (S q) (partitions (windowBuild_ w)))
    by (apply drop_S; exact Hp).
  cbv zeta.
  rewrite (to_int32_small (WindowPartition.numRows p - partitionOffset_ w))
    by (apply in_range_32; lia).
  rewrite Hdrop. cbn [planSlices].
  destruct (Z.ltb_spec 0 left) as [_|]; [|lia].
  destruct (Z.leb_spec (WindowPartition.numRows p - partitionOffset_ w) left)
    as [Hfits|Hpartial].
  - replace (partitionOffset_ w + (WindowPartition.numRows p - partitionOffset_ w))
      with (WindowPartition.numRows p) by lia.
    rewrite (to_int32_small (WindowPartition.numRows p)) by (apply in_range_32; lia).
    pose proof (callApplyForPartitionRows_effect w (q, p) (partitionOffset_ w)
                  (WindowPartition.numRows p) resultIndex Hc Hfr) as Heff.
    destruct (callApplyForPartitionRows (partitionOffset_ w)
                (WindowPartition.numRows p) resultIndex w)
      as [w1 [[]|e]] eqn:Hrun; [|exact I].
    destruct Heff as [_ [_ [_ [_ [_ [Hcalls1 _]]]]]].
    destruct (slice_Inv w q p (WindowPartition.numRows p) resultIndex w1
                Hinv Hc ltac:(lia) Hrun)
      as [Hinv1 [Hsame1 [Hb1 [Hc1 [Ho1 [Hpr1 Hsl1]]]]]].
    destruct (resetState_Inv w1 Hinv1) as [Hinv2 [Hrest2 [Hsame2 [Hpr2 [Hsl2 Hnextp]]]]].
    { intros q' p' Hc'. rewrite Hc1 in Hc'. injection Hc' as <- <-. exact Ho1. }
    rewrite Hb1, Hn in Hnextp.
    pose proof (sameSetup_trans _ _ _ Hsame1 Hsame2) as Hsame.
    assert (Happ1 : appliesOf (calls (resetState w1))
                    = appliesOf (calls w)
                      ++ applies (length (windowFunctions_ w)) q
                           (partitionOffset_ w) (WindowPartition.numRows p)
                           resultIndex).
    { rewrite resetState_applies, Hcalls1, appliesOf_app. simpl.
      unfold appliesOf at 2. cbn [List.filter isApply].
      fold (appliesOf (applies (length (windowFunctions_ w)) q
                         (partitionOffset_ w) (WindowPartition.numRows p)
                         resultIndex)).
      rewrite appliesOf_applies. reflexivity. }
    cbn [appliesFor].
    destruct (partitions (windowBuild_ w) !! S q) as [p'|] eqn:Hp'.
    + destruct Hnextp as [Hc2 [Ho2 Hn2]]. rewrite Hc2.
      rewrite (to_int32_small (left - _)) by (apply in_range_32; lia).
      rewrite (to_int32_small (resultIndex + _)) by (apply in_range_32; lia).
      specialize (IH (resetState w1)
                    (resultIndex
                     + (WindowPartition.numRows p - partitionOffset_ w))
                    (left - (WindowPartition.numRows p - partitionOffset_ w))
                    (S q) p' Hinv2 Hrest2 Hc2 ltac:(lia)).
      destruct Hsame as [Hfs [_ [Hnr [_ Hparts]]]].
      rewrite Hpr2, Hpr1, Hnr in IH. specialize (IH ltac:(lia)).
      unfold partitionsLeft in IH, Hfuel. rewrite Hn2, Hparts in IH.
      rewrite Hn in Hfuel. apply lookup_lt_Some in Hp'.
      specialize (IH ltac:(lia) ltac:(lia) ltac:(lia)).
      destruct (callApplyLoop_while fuel _ _ (resetState w1)) as [w' [[]|e]];
        [|exact I].
      rewrite IH, Happ1, Ho2, Hfs, <- app_assoc. reflexivity.
    + destruct Hnextp as [Hnextp Hb2]. rewrite Hnextp.
      rewrite Happ1, drop_ge by (apply lookup_ge_None in Hp'; lia).
      simpl. rewrite app_nil_r. reflexivity.
  - rewrite (to_int32_small (partitionOffset_ w + left)) by (apply in_range_32; lia).
    pose proof (callApplyForPartitionRows_effect w (q, p) (partitionOffset_ w)
                  (partitionOffset_ w + left) resultIndex Hc Hfr) as Heff.
    destruct (callApplyForPartitionRows (partitionOffset_ w)
                (partitionOffset_ w + left) resultIndex w)
      as [w1 [[]|e]] eqn:Hrun; [|exact I].
    destruct Heff as [_ [_ [_ [_ [_ [Hcalls1 _]]]]]].
    rewrite Hcalls1, appliesOf_app. cbn [appliesFor]. rewrite app_nil_r.
    f_equal. unfold appliesOf at 1. cbn [List.filter isApply].
    apply appliesOf_applies.
Qed.

(** One output call applies the functions to its slices at consecutive
    result rows, from row 0 on. *)
Lemma getOutput_applies w :
  Inv w -> AtRest w ->
  match getOutput w with
  | (w', Returned _) =>
      appliesOf (calls w')
      = appliesOf (calls w)
        ++ appliesFor (length (windowFunctions_ w)) 0 (plannedSlices w)
  | (_, Thrown _) => True
  end.
Proof.
  intros Hinv Hrest.
  destruct (Inv_processed w Hinv) as [Hpr Hmax].
  pose proof (inv_budget w Hinv) as Hbud.
  assert (Hidle : rowsLeft w = 0 ->
            appliesOf (calls w)
            = appliesOf (calls w)
              ++ appliesFor (length (windowFunctions_ w)) 0 (plannedSlices w)).
  { intros H0. unfold plannedSlices. rewrite H0.
    rewrite planSlices_none by lia. simpl. rewrite app_nil_r. reflexivity. }
  unfold getOutput. unfold bind at 1. unfold get at 1.
  destruct (Z.eqb_spec (numRows_ w) 0) as [Hzero|Hsome].
  { apply Hidle. unfold rowsLeft. lia. }
  fold (rowsLeft w). rewrite (to_int32_small (rowsLeft w))
    by (apply in_range_32; unfold rowsLeft; lia).
  destruct (Z.eqb_spec (rowsLeft w) 0) as [Hnone|Hleft].
  { apply Hidle. exact Hnone. }
  assert (Hpos : 0 < rowsLeft w) by (unfold rowsLeft in *; lia).
  assert (Hcurrent : exists w1 q p,
            (match currentPartition_ w with
             | Some _ => ret tt
             | None => callResetPartition
             end) w = (w1, Returned tt)
            /\ Inv w1 /\ AtRest w1 /\ sameSetup w w1
            /\ currentPartition_ w1 = Some (q, p)
            /\ numProcessedRows_ w1 = numProcessedRows_ w
            /\ appliesOf (calls w1) = appliesOf (calls w)
            /\ (q, partitionOffset_ w1) = nextRow w).
  { unfold nextRow. destruct (currentPartition_ w) as [[q p]|] eqn:Hc.
    - exists w, q, p. split; [reflexivity|].
      split; [exact Hinv|]. split; [exact Hrest|]. split; [apply sameSetup_refl|].
      repeat split; assumption.
    - rewrite callResetPartition_eq.
      destruct (resetState_Inv w Hinv) as [Hinv1 [Hrest1 [Hsame1 [Hpr1 [_ Hnextp]]]]].
      { intros q p Hc'. rewrite Hc in Hc'. discriminate Hc'. }
      pose proof Hinv as [_ Hne Htot _ _ _ Hcur _]. rewrite Hc in Hcur.
      assert (Hq : (nextIndex (windowBuild_ w) < length (partitions (windowBuild_ w)))%nat).
      { apply rowsBefore_lt_total; [exact Hne|]. unfold rowsLeft in Hpos. lia. }
      destruct (lookup_lt_is_Some_2 _ _ Hq) as [p Hp]. rewrite Hp in Hnextp.
      destruct Hnextp as [Hc1 [Ho1 _]].
      exists (resetState w), (nextIndex (windowBuild_ w)), p.
      split; [reflexivity|]. split; [exact Hinv1|]. split; [exact Hrest1|].
      split; [exact Hsame1|]. split; [exact Hc1|]. split; [exact Hpr1|].
      split; [apply resetState_applies|]. rewrite Ho1. reflexivity. }
  destruct Hcurrent as [w1 [q [p [Hstep [Hinv1 [Hrest1 [Hsame1 [Hc1 [Hpr1 [Hap1 Hrow]]]]]]]]]].
  unfold bind at 1. rewrite Hstep. unfold bind at 1. unfold get at 1.
  rewrite Hc1.
  pose proof Hsame1 as [Hfs [_ [Hnr [Hro Hparts]]]].
  rewrite Hro.
  unfold bind at 1. unfold callApplyLoop. unfold bind at 1.
  unfold currentPartition at 1. unfold bind at 1. unfold get at 1. rewrite Hc1.
  unfold ret at 1. unfold bind at 1. unfold get at 1.
  pose proof (callApplyLoop_while_applies (S (partitionsLeft (windowBuild_ w1))) w1 0
                (Z.min (numRowsPerOutput_ w) (rowsLeft w)) q p Hinv1 Hrest1 Hc1
                ltac:(lia)) as Hloop.
  rewrite Hpr1, Hnr in Hloop. unfold rowsLeft in Hloop at 1.
  specialize (Hloop ltac:(lia) ltac:(lia) ltac:(lia)
                ltac:(unfold rowsLeft; lia)).
  destruct (callApplyLoop_while _ 0 _ w1) as [w' [[]|e]]; [|exact I].
  unfold ret. rewrite Hloop, Hap1, Hfs. unfold plannedSlices.
  rewrite <- Hrow, Hparts. reflexivity.
Qed.

(** The slices of the batching rule have [budget] rows in all. *)
Lemma planSlices_total parts :
  Forall (fun p => 1 <= WindowPartition.numRows p) parts ->
  forall q cursor budget,
    0 <= cursor <= headRows parts -> 0 <= budget ->
    cursor + budget <= totalRows parts ->
    sliceRows (planSlices parts q cursor budget) = budget.
Proof.
  intros H. induction H as [|p rest Hp Hrest IH];
    intros q cursor budget Hcur Hbud Hfit.
  - simpl in *. lia.
  - pose proof (totalRows_nonneg rest Hrest) as Hnonneg.
    change (totalRows (p :: rest))
      with (WindowPartition.numRows p + totalRows rest) in Hfit.
    cbn [headRows] in Hcur. cbn [planSlices].
    destruct (Z.ltb_spec 0 budget) as [Hpos|Hzero].
    + destruct (Z.leb_spec (WindowPartition.numRows p - cursor) budget)
        as [Hfits|Hpartial].
      * unfold sliceRows. cbn [fold_right fst snd].
        fold (sliceRows (planSlices rest (S q) 0
                           (budget - (WindowPartition.numRows p - cursor)))).
        rewrite IH; [lia | | lia | lia].
        destruct rest as [|p' rest']; cbn [headRows]; [lia|].
        inversion Hrest; subst. lia.
      * unfold sliceRows. simpl. lia.
    + simpl. lia.
Qed.

(** The partition and the row the next slice starts at. *)
Lemma Inv_nextRow w :
  Inv w ->
  (fst (nextRow w) <= length (partitions (windowBuild_ w)))%nat
  /\ 0 <= snd (nextRow w)
       <= headRows (drop (fst (nextRow w)) (partitions (windowBuild_ w)))
  /\ numProcessedRows_ w
     = rowsBefore (partitions (windowBuild_ w)) (fst (nextRow w))
       + snd (nextRow w).
Proof.
  intros Hinv. pose proof Hinv as [_ Hne Htot _ Hbud Hnext Hcur _].
  unfold nextRow. destruct (currentPartition_ w) as [[q p]|]; simpl.
  - destruct Hcur as [Hp [_ [Hoff Hprq]]].
    split; [apply lookup_lt_Some in Hp; lia|].
    rewrite (drop_S _ _ _ Hp). simpl. split; assumption.
  - split; [exact Hnext|]. split; [|lia].
    split; [lia|].
    assert (Hd' : Forall (fun p => 1 <= WindowPartition.numRows p)
                    (drop (nextIndex (windowBuild_ w))
                       (partitions (windowBuild_ w))))
      by (apply Forall_drop; exact Hne).
    destruct (drop _ _) as [|p rest]; simpl; [lia|].
    inversion Hd'; subst. lia.
Qed.

(** The slices one output call has to process have as many rows as the call
    outputs. *)
Lemma plannedSlices_total w :
  Inv w ->
  sliceRows (plannedSlices w) = Z.min (numRowsPerOutput_ w) (rowsLeft w).
Proof.
  intros Hinv. destruct (Inv_nextRow w Hinv) as [Hq [Hc Hpr]].
  destruct (Inv_processed w Hinv) as [Hdone _].
  pose proof Hinv as [_ Hne Htot _ Hbud _ _ _].
  pose proof (rowsBefore_split (partitions (windowBuild_ w)) (fst (nextRow w)))
    as Hsplit.
  unfold plannedSlices. apply planSlices_total.
  - apply Forall_drop. exact Hne.
  - exact Hc.
  - unfold rowsLeft. lia.
  - unfold rowsLeft. lia.
Qed.

(** X15: in every output call of a run on a finalized operator, the
    functions are applied slice by slice at consecutive result rows: the
    [apply] calls the call adds to the log are, for each slice of the
    batching rule in order, one call per function in function order, at the
    result row where the slices before it end, starting at row 0; and the
    slices have as many rows in all as the call outputs, so they fill the
    result exactly. *)
Theorem getOutput_fills_result_in_order
    (functions : list (WindowFunction * Frame)) (budget total : Z)
    (built : list WindowPartition) (w : Window) (k : nat) :
  Finalized functions budget total built w ->
  match getOutputs k w with
  | (wk, Returned _) =>
      match getOutput wk with
      | (w', Returned _) =>
          appliesOf (calls w')
          = appliesOf (calls wk)
            ++ appliesFor (length functions) 0 (plannedSlices wk)
          /\ sliceRows (plannedSlices wk) = Z.min budget (rowsLeft wk)
      | (_, Thrown _) => neverThrows w = false
      end
  | (_, Thrown _) => neverThrows w = false
  end.
Proof.
  intros Hfin.
  destruct (Finalized_Inv _ _ _ _ _ Hfin)
    as [Hinv [Hrest [Hnr [Hro [Hpr [_ [_ [_ Hlen]]]]]]]].
  pose proof (getOutputs_spec k w Hinv Hrest) as Hrun.
  destruct (getOutputs k w) as [wk [outs|e]]; [|exact Hrun].
  destruct Hrun as [Hinvk [Hrestk [Hsamek _]]].
  pose proof (getOutput_spec wk Hinvk Hrestk) as Hcall.
  pose proof (getOutput_applies wk Hinvk Hrestk) as Happ.
  destruct (getOutput wk) as [w' [out|e]].
  - destruct Hsamek as [Hfs [_ [_ [Hrok _]]]].
    rewrite Happ, Hfs, Hlen. split; [reflexivity|].
    rewrite (plannedSlices_total wk Hinvk), Hrok, Hro. reflexivity.
  - rewrite <- (neverThrows_sameSetup w wk Hsamek). exact Hcall.
Qed.

Lemma getOutput_fills_result_in_order_witness :
  appliesOf (calls (fst (getOutput (fst (getOutputs 1 threePartitionsExample)))))
  = appliesOf (calls (fst (getOutputs 1 threePartitionsExample)))
    ++ [Apply 0 1 1 2 0; Apply 1 1 1 2 0; Apply 0 2 0 3 1; Apply 1 2 0 3 1].
Proof.
  assert (Hplan : appliesFor 2 0
                    (plannedSlices (fst (getOutputs 1 threePartitionsExample)))
                  = [Apply 0 1 1 2 0; Apply 1 1 1 2 0;
                     Apply 0 2 0 3 1; Apply 1 2 0 3 1])
    by (vm_compute; reflexivity).
  pose proof (getOutput_fills_result_in_order _ _ _ _ _ 1
                threePartitionsExample_Finalized) as H.
  destruct (getOutputs 1 threePartitionsExample) as [wk [outs|e]].
  - simpl in Hplan |- *. destruct (getOutput wk) as [w' [out|e]].
    + destruct H as [H _]. simpl in H. rewrite <- Hplan. exact H.
    + discriminate H.
  - discriminate H.
Defined.

(** ** The frame buffers keep their size, and every slice fits in them *)

Lemma fmap_length_insert (l : list (list Z)) i buf :
  length buf = length (default [] (l !! i)) ->
  length <$> <[i := buf]> l = length <$> l.
Proof.
  intros H. rewrite list_fmap_insert.
  destruct (l !! i) as [x|] eqn:Hx; simpl in H.
  - rewrite H. apply list_insert_id. rewrite list_lookup_fmap, Hx. reflexivity.
  - apply list_insert_ge. rewrite length_fmap. apply lookup_ge_None. exact Hx.
Qed.

Lemma on_frameStartBuffer_sizes {A} i (m : Exec (list Z) A) :
  (forall buf, length (fst (m buf)) = length buf) ->
  preserves frameSizes (on_frameStartBuffer i m).
Proof.
  intros Hm w. unfold on_frameStartBuffer.
  pose proof (Hm (default [] (frameStartBuffers_ w !! i))) as Hlen.
  destruct (m _) as [buf r]. unfold frameSizes. simpl in *.
  rewrite fmap_length_insert by exact Hlen. reflexivity.
Qed.

Lemma on_frameEndBuffer_sizes {A} i (m : Exec (list Z) A) :
  (forall buf, length (fst (m buf)) = length buf) ->
  preserves frameSizes (on_frameEndBuffer i m).
Proof.
  intros Hm w. unfold on_frameEndBuffer.
  pose proof (Hm (default [] (frameEndBuffers_ w !! i))) as Hlen.
  destruct (m _) as [buf r]. unfold frameSizes. simpl in *.
  rewrite fmap_length_insert by exact Hlen. reflexivity.
Qed.

Lemma computeFrameBuffers_sizes i startRow numRows :
  preserves frameSizes (computeFrameBuffers i startRow numRows).
Proof.
  unfold computeFrameBuffers.
  apply preserves_bind; [apply currentPartition_preserves|]. intros p.
  apply preserves_bind; [apply preserves_get|]. intros w.
  destruct (windowFrames_ w !! i) as [windowFrame|]; [|apply preserves_throw].
  apply preserves_bind; [apply preserves_modify; reflexivity|]. intros _.
  apply preserves_bind.
  { apply on_frameStartBuffer_sizes. intros buf.
    apply (updateFrameBounds_storesBelow (snd p) (partitionOffset_ w)
             windowFrame true startRow numRows (peerStartBuffer_ w)
             (peerEndBuffer_ w) buf). }
  intros _.
  apply preserves_bind.
  { apply on_frameEndBuffer_sizes. intros buf.
    apply (updateFrameBounds_storesBelow (snd p) (partitionOffset_ w)
             windowFrame false startRow numRows (peerStartBuffer_ w)
             (peerEndBuffer_ w) buf). }
  intros _.
  destruct (has_value _ || has_value _); [|apply preserves_ret].
  apply preserves_modify. intros s.
  pose proof (computeValidFrames_fold_frame
                (to_int32 (WindowPartition.numRows (snd p) - 1))
                (Z.to_nat numRows)
                (default [] (frameStartBuffers_ s !! i))
                (default [] (frameEndBuffers_ s !! i))
                (default [] (validFrames_ s !! i))) as Hframe.
  unfold computeValidFrames.
  destruct (fold_left _ _ _) as [[starts ends] valid].
  destruct Hframe as [Hl1 [Hl2 _]].
  unfold frameSizes. simpl.
  rewrite !fmap_length_insert by assumption. reflexivity.
Qed.

Lemma computePeerAndFrameBuffers_sizes startRow endRow :
  preserves frameSizes (computePeerAndFrameBuffers startRow endRow).
Proof.
  unfold computePeerAndFrameBuffers.
  apply preserves_bind; [apply currentPartition_preserves|]. intros p.
  apply preserves_bind; [apply preserves_get|]. intros w.
  destruct (WindowPartition.computePeerBuffers _ _ _ _ _ _ _)
    as [[newPeerStart newPeerEnd] [rawPeerStarts rawPeerEnds]].
  repeat (apply preserves_bind;
          [apply preserves_modify; reflexivity | intros _]).
  apply preserves_for_each. intros i _. apply computeFrameBuffers_sizes.
Qed.

Lemma callApplyForPartitionRows_sizes startRow endRow off :
  preserves frameSizes (callApplyForPartitionRows startRow endRow off).
Proof.
  unfold callApplyForPartitionRows.
  apply preserves_bind; [apply computePeerAndFrameBuffers_sizes|]. intros _.
  apply preserves_bind; [apply currentPartition_preserves|]. intros p.
  apply preserves_bind; [apply preserves_get|]. intros w.
  apply preserves_bind.
  { apply preserves_for_each. intros i _. apply preserves_modify. reflexivity. }
  intros _.
  apply preserves_bind; [apply preserves_modify; reflexivity|]. intros _.
  apply preserves_modify. reflexivity.
Qed.

Lemma callResetPartition_sizes : preserves frameSizes callResetPartition.
Proof.
  intros w. rewrite callResetPartition_eq. unfold resetState. simpl.
  destruct (partitions (windowBuild_ w) !! nextIndex (windowBuild_ w));
    reflexivity.
Qed.

Lemma callApplyLoop_while_sizes fuel resultIndex left :
  preserves frameSizes (callApplyLoop_while fuel resultIndex left).
Proof.
  revert resultIndex left. induction fuel as [|fuel IH]; intros resultIndex left;
    cbn [callApplyLoop_while].
  - destruct (0 <? left); [apply preserves_throw | apply preserves_ret].
  - destruct (0 <? left); [|apply preserves_ret].
    apply preserves_bind; [apply currentPartition_preserves|]. intros p.
    apply preserves_bind; [apply preserves_get|]. intros w. cbv zeta.
    destruct (_ <=? left); [|apply callApplyForPartitionRows_sizes].
    apply preserves_bind; [apply callApplyForPartitionRows_sizes|]. intros _.
    apply preserves_bind; [apply callResetPartition_sizes|]. intros _.
    apply preserves_bind; [apply preserves_get|]. intros w'.
    destruct (currentPartition_ w'); [apply IH | apply preserves_ret].
Qed.

Lemma getOutput_sizes : preserves frameSizes getOutput.
Proof.
  unfold getOutput.
  apply preserves_bind; [apply preserves_get|]. intros w.
  destruct (numRows_ w =? 0); [apply preserves_ret|]. cbv zeta.
  destruct (_ =? 0); [apply preserves_ret|].
  apply preserves_bind.
  { destruct (currentPartition_ w) as [cur|];
      [apply preserves_ret | apply callResetPartition_sizes]. }
  intros _.
  apply preserves_bind; [apply preserves_get|]. intros w'.
  destruct (currentPartition_ w') as [cur|]; [|apply preserves_ret].
  apply preserves_bind; [|intros _; apply preserves_ret].
  unfold callApplyLoop.
  apply preserves_bind; [apply currentPartition_preserves|]. intros p.
  apply preserves_bind; [apply preserves_get|]. intros w''.
  apply callApplyLoop_while_sizes.
Qed.

Lemma getOutputs_sizes k : preserves frameSizes (getOutputs k).
Proof.
  induction k as [|k IH]; cbn [getOutputs]; [apply preserves_ret|].
  apply preserves_bind; [apply getOutput_sizes|]. intros out.
  apply preserves_bind; [apply IH|]. intros outs. apply preserves_ret.
Qed.

(** No slice of the batching rule has more rows than the budget. *)
Lemma planSlices_fit parts :
  Forall (fun p => 1 <= WindowPartition.numRows p) parts ->
  forall q cursor budget,
    0 <= cursor <= headRows parts -> 0 <= budget ->
    Forall (fun s => snd s - snd (fst s) <= budget)
      (planSlices parts q cursor budget).
Proof.
  intros H. induction H as [|p rest Hp Hrest IH];
    intros q cursor budget Hcur Hbud; [constructor|].
  cbn [headRows] in Hcur. cbn [planSlices].
  destruct (Z.ltb_spec 0 budget) as [Hpos|Hzero]; [|constructor].
  destruct (Z.leb_spec (WindowPartition.numRows p - cursor) budget)
    as [Hfits|Hpartial].
  - constructor; [simpl; lia|].
    eapply Forall_impl.
    + apply (IH (S q) 0 (budget - (WindowPartition.numRows p - cursor)));
        [|lia].
      destruct rest as [|p' rest']; cbn [headRows]; [lia|].
      inversion Hrest; subst. lia.
    + intros s Hs. simpl in Hs. lia.
  - constructor; [simpl; lia | constructor].
Qed.

Lemma getOutput_slicesFit w w' out :
  Inv w -> AtRest w -> slicesFit w ->
  getOutput w = (w', Returned out) -> slicesFit w'.
Proof.
  intros Hinv Hrest Hfit Hrun.
  pose proof (getOutput_spec w Hinv Hrest) as Hcall. rewrite Hrun in Hcall.
  destruct Hcall as [_ [_ [Hsame [_ [_ [Hsl' _]]]]]].
  destruct Hsame as [_ [_ [_ [Hro _]]]].
  destruct (Inv_nextRow w Hinv) as [_ [Hc _]].
  destruct (Inv_processed w Hinv) as [Hdone _].
  pose proof Hinv as [_ Hne _ _ Hbud _ _ _].
  unfold slicesFit in *. rewrite Hsl', Hro. apply Forall_app. split; [exact Hfit|].
  unfold plannedSlices. eapply Forall_impl.
  - apply planSlices_fit; [apply Forall_drop; exact Hne | exact Hc|].
    unfold rowsLeft. lia.
  - intros s Hs. simpl in Hs. lia.
Qed.

Lemma Finalized_sizes functions budget total built w :
  Finalized functions budget total built w ->
  frameSizes w
  = (replicate (length functions) (Z.to_nat budget),
     replicate (length functions) (Z.to_nat budget)).
Proof.
  intros [Hsetup _]. unfold setup, Window_new in Hsetup.
  destruct (createWindowFunctions functions) as [[fs wfs]|e] eqn:Hfns;
    [|discriminate Hsetup].
  destruct (createWindowFunctions_lengths _ _ _ Hfns) as [_ Hlen].
  unfold addInput, noMoreInput, bind, modify, get in Hsetup. simpl in Hsetup.
  destruct (to_int32 (0 + total) =? 0); unfold ret in Hsetup;
    injection Hsetup as <-; unfold frameSizes; simpl;
    rewrite fmap_replicate, length_replicate, Hlen; reflexivity.
Qed.

(** X16: on a finalized operator the frame buffers are one start buffer and
    one end buffer per function, each of [budget] entries, and they stay so
    over any run of output calls, also one that ends in a throw; and every
    slice a returning run has processed has at most [budget] rows, so every
    bound of a slice is stored inside its buffer. *)
Theorem frame_buffers_fit_every_slice
    (functions : list (WindowFunction * Frame)) (budget total : Z)
    (built : list WindowPartition) (w : Window) (k : nat) :
  Finalized functions budget total built w ->
  length <$> frameStartBuffers_ (fst (getOutputs k w))
  = replicate (length functions) (Z.to_nat budget)
  /\ length <$> frameEndBuffers_ (fst (getOutputs k w))
     = replicate (length functions) (Z.to_nat budget)
  /\ match getOutputs k w with
     | (wk, Returned _) =>
         Forall (fun s => snd s - snd (fst s) <= budget) (slicesOf (calls wk))
     | (_, Thrown _) => neverThrows w = false
     end.
Proof.
  intros Hfin.
  pose proof (getOutputs_sizes k w) as Hsizes.
  rewrite (Finalized_sizes _ _ _ _ _ Hfin) in Hsizes.
  unfold frameSizes in Hsizes. injection Hsizes as Hs He.
  split; [exact Hs|]. split; [exact He|].
  destruct (Finalized_Inv _ _ _ _ _ Hfin)
    as [Hinv [Hrest [_ [Hro [_ [Hcalls _]]]]]].
  assert (Hstart : slicesFit w).
  { unfold slicesFit. rewrite Hcalls. constructor. }
  pose proof (getOutputs_invariant slicesFit getOutput_slicesFit k w
                Hinv Hrest Hstart) as Hrun.
  destruct (getOutputs k w) as [wk [outs|e]]; [|exact Hrun].
  destruct Hrun as [_ [_ [Hsame Hfit]]].
  destruct Hsame as [_ [_ [_ [Hrok _]]]].
  unfold slicesFit in Hfit. rewrite Hrok, Hro in Hfit. exact Hfit.
Qed.

Lemma frame_buffers_fit_every_slice_witness :
  length <$> frameStartBuffers_ (fst (getOutputs 2 threePartitionsExample))
  = [4%nat; 4%nat]
  /\ Forall (fun s => snd s - snd (fst s) <= 4)
       (slicesOf (calls (fst (getOutputs 2 threePartitionsExample)))).
Proof.
  pose proof (frame_buffers_fit_every_slice _ _ _ _ _ 2
                threePartitionsExample_Finalized) as [Hs [_ H]].
  split; [exact Hs|].
  destruct (getOutputs 2 threePartitionsExample) as [wk [outs|e]].
  - exact H.
  - discriminate H.
Defined.

(** ** Construction of the operator *)

Lemma createWindowFunctions_all functions :
  Forall functionBuilt functions ->
  exists wfs,
    createWindowFunctions functions = Returned (fst <$> functions, wfs)
    /\ Forall2 (fun fn windowFrame =>
                  createWindowFrame (snd fn) = Returned windowFrame)
         functions wfs.
Proof.
  induction 1 as [|[f frame] rest [[args [Hargs Hfn]] [wf Hwf]] Hrest
                    [wfs [IH1 IH2]]].
  - exists []. split; [reflexivity | constructor].
  - exists (wf :: wfs). cbn [createWindowFunctions]. simpl in *.
    rewrite Hargs, Hfn, Hwf, IH1.
    split; [reflexivity|]. constructor; assumption.
Qed.

Lemma createWindowFunctions_built functions fs wfs :
  createWindowFunctions functions = Returned (fs, wfs) ->
  Forall functionBuilt functions.
Proof.
  revert fs wfs. induction functions as [|[f frame] rest IH]; intros fs wfs H;
    [constructor|].
  apply createWindowFunctions_cons in H
    as [args [wf [fs' [wfs' [Hargs [Hfn [Hwf [Hrest _]]]]]]]].
  constructor; [|apply (IH fs' wfs' Hrest)].
  split; [exists args; split; assumption | exists wf; exact Hwf].
Qed.

(** The construction fails with the first failure, in the order of the plan
    node and, for one function, instance before frame. *)
Lemma createWindowFunctions_first_error before f frame after e :
  Forall functionBuilt before ->
  (functionFails f e
   \/ (functionCreated f /\ createWindowFrame frame = Thrown e)) ->
  createWindowFunctions (before ++ (f, frame) :: after) = Thrown e.
Proof.
  intros Hbefore Hbad.
  induction Hbefore as [|[f' frame'] rest [[args [Hargs Hfn]] [wf Hwf]] Hrest IH].
  - cbn [app createWindowFunctions].
    destruct Hbad as [[Hargs|[args [Hargs Hfn]]]|[[args [Hargs Hfn]] Hwf]].
    + rewrite Hargs. reflexivity.
    + rewrite Hargs, Hfn. reflexivity.
    + rewrite Hargs, Hfn, Hwf. reflexivity.
  - simpl in Hargs, Hfn, Hwf. cbn [app createWindowFunctions].
    fold (rest ++ (f, frame) :: after).
    rewrite Hargs, Hfn, Hwf, IH. reflexivity.
Qed.

(** X17: the constructor handles the functions of the plan node in order
    and is all-or-nothing.  For each function it gathers the arguments of
    the call and creates the function instance, and then builds the frame.
    It returns an operator exactly when every instance is created and every
    frame accepted; the operator then holds the functions in the order of
    the plan with the frame built for each, no rows, no current partition
    and no call made.  Otherwise it fails with the first failure in that
    order: for the first function that fails, the error of creating the
    instance (a name that is not registered, no signature for the argument
    types) if that fails, else the error of its frame, whatever comes after
    it. *)
Theorem Window_new_builds_frames_in_order
    (functions : list (WindowFunction * Frame)) (numRowsPerOutput : Z) :
  (Forall functionBuilt functions ->
   exists w,
     Window_new functions numRowsPerOutput = Returned w
     /\ windowFunctions_ w = fst <$> functions
     /\ Forall2 (fun fn windowFrame =>
                   createWindowFrame (snd fn) = Returned windowFrame)
          functions (windowFrames_ w)
     /\ numRowsPerOutput_ w = numRowsPerOutput
     /\ numRows_ w = 0 /\ numProcessedRows_ w = 0
     /\ currentPartition_ w = None /\ calls w = [])
  /\ (forall w, Window_new functions numRowsPerOutput = Returned w ->
      Forall functionBuilt functions)
  /\ (forall before f frame after e,
        functions = before ++ (f, frame) :: after ->
        Forall functionBuilt before ->
        (functionFails f e ->
         Window_new functions numRowsPerOutput = Thrown e)
        /\ (functionCreated f -> createWindowFrame frame = Thrown e ->
            Window_new functions numRowsPerOutput = Thrown e)).
Proof.
  split; [|split].
  - intros Hall. destruct (createWindowFunctions_all functions Hall)
      as [wfs [Hfns Hframes]].
    unfold Window_new. rewrite Hfns. eexists. split; [reflexivity|].
    simpl. repeat split; try reflexivity. exact Hframes.
  - intros w. unfold Window_new.
    destruct (createWindowFunctions functions) as [[fs wfs]|e] eqn:Hfns;
      [|discriminate].
    intros _. apply (createWindowFunctions_built _ _ _ Hfns).
  - intros before f frame after e -> Hbefore. split.
    + intros Hbad. unfold Window_new.
      rewrite (createWindowFunctions_first_error before f frame after e
                 Hbefore (or_introl Hbad)).
      reflexivity.
    + intros Hfn Hbad. unfold Window_new.
      rewrite (createWindowFunctions_first_error before f frame after e
                 Hbefore (or_intror (conj Hfn Hbad))).
      reflexivity.
Qed.

Lemma sum_fn_built frame windowFrame :
  createWindowFrame frame = Returned windowFrame ->
  functionBuilt (sum_fn, frame).
Proof.
  intros H. split; [|exists windowFrame; exact H].
  eexists. split; reflexivity.
Qed.

Lemma Window_new_builds_frames_in_order_witness :
  Window_new [(sum_fn, runningFrame); (unknown_fn, negativeFrame)] 4
  = Thrown (VeloxUserError (WindowFunctionNotRegistered 7))
  /\ Window_new [(sum_fn, runningFrame); (mistyped_fn, negativeFrame)] 4
     = Thrown (VeloxUserError (WindowFunctionSignatureNotSupported 0 [VARCHAR]))
  /\ Window_new [(sum_fn, runningFrame); (sum_fn, negativeFrame);
                 (unknown_fn, runningFrame)] 4
     = Thrown (VeloxUserError (OffsetMustNotBeNegative (-3)))
  /\ exists w,
       Window_new [(sum_fn, runningFrame); (sum_fn, twoPrecedingFrame)] 4
       = Returned w
       /\ windowFunctions_ w = [sum_fn; sum_fn]
       /\ length (windowFrames_ w) = 2%nat
       /\ calls w = [].
Proof.
  assert (Hfirst : Forall functionBuilt [(sum_fn, runningFrame)]).
  { constructor; [|constructor]. eapply sum_fn_built. reflexivity. }
  split; [|split; [|split]]; cycle 3.
  { destruct (proj1 (Window_new_builds_frames_in_order
                       [(sum_fn, runningFrame); (sum_fn, twoPrecedingFrame)] 4))
      as [w [Hrun [Hfns [Hframes [_ [_ [_ [_ Hcalls]]]]]]]].
    - constructor; [|constructor; [|constructor]];
        eapply sum_fn_built; reflexivity.
    - exists w. split; [exact Hrun|]. split; [exact Hfns|].
      split; [|exact Hcalls].
      symmetry. exact (Forall2_length _ _ _ Hframes). }
  - apply (proj1 (proj2 (proj2 (Window_new_builds_frames_in_order _ 4))
                    [(sum_fn, runningFrame)] unknown_fn negativeFrame [] _
                    eq_refl Hfirst)).
    right. exists []. split; reflexivity.
  - apply (proj1 (proj2 (proj2 (Window_new_builds_frames_in_order _ 4))
                    [(sum_fn, runningFrame)] mistyped_fn negativeFrame [] _
                    eq_refl Hfirst)).
    right. eexists. split; reflexivity.
  - apply (proj2 (proj2 (proj2 (Window_new_builds_frames_in_order _ 4))
                    [(sum_fn, runningFrame)] sum_fn negativeFrame
                    [(unknown_fn, runningFrame)] _ eq_refl Hfirst)).
    + eexists. split; reflexivity.
    + reflexivity.
Defined.

(** ** The functions do not interfere *)

Lemma lookup_insert_congr {A} (l1 l0 : list A) i x :
  l1 !! i = l0 !! i -> <[i := x]> l1 !! i = <[i := x]> l0 !! i.
Proof.
  intros H. destruct (l0 !! i) as [y|] eqn:H0.
  - rewrite !list_lookup_insert_eq; [reflexivity | |].
    + apply lookup_lt_Some with y. exact H0.
    + apply lookup_lt_Some with y. exact H.
  - rewrite !list_insert_ge; [congruence | |].
    + apply lookup_ge_None. exact H0.
    + apply lookup_ge_None. exact H.
Qed.

(** The loop body for function [i] reads the operator state outside the
    frame buffers and the buffers of function [i] only. *)
Lemma computeFrameBuffers_depends w1 w0 i startRow numRows :
  core w1 = core w0 ->
  buffersOf i w1 = buffersOf i w0 ->
  buffersOf i (fst (computeFrameBuffers i startRow numRows w1))
  = buffersOf i (fst (computeFrameBuffers i startRow numRows w0))
  /\ snd (computeFrameBuffers i startRow numRows w1)
     = snd (computeFrameBuffers i startRow numRows w0).
Proof.
  intros Hcore Hbuf. unfold core in Hcore.
  injection Hcore as _ Hwf _ Hc _ _ _ Hoff _ _ Hps Hpe _.
  unfold buffersOf in Hbuf. injection Hbuf as Hs He Hv.
  unfold computeFrameBuffers, currentPartition, bind, get, modify.
  rewrite Hc. destruct (currentPartition_ w0) as [p|]; simpl;
    [|unfold buffersOf; split; [congruence | reflexivity]].
  rewrite Hwf. destruct (windowFrames_ w0 !! i) as [windowFrame|]; simpl;
    [|unfold buffersOf; split; [congruence | reflexivity]].
  unfold on_frameStartBuffer. simpl. rewrite Hs, Hoff, Hps, Hpe.
  destruct (updateFrameBounds (snd p) (partitionOffset_ w0) windowFrame true
              startRow numRows (peerStartBuffer_ w0) (peerEndBuffer_ w0)
              (default [] (frameStartBuffers_ w0 !! i)))
    as [sb [[]|e]]; simpl.
  2:{ unfold buffersOf. simpl.
      rewrite (lookup_insert_congr _ _ i sb Hs),
        (lookup_insert_congr _ _ i (resizeFill numRows true) Hv), He.
      split; reflexivity. }
  unfold on_frameEndBuffer. simpl. rewrite He.
  destruct (updateFrameBounds (snd p) (partitionOffset_ w0) windowFrame false
              startRow numRows (peerStartBuffer_ w0) (peerEndBuffer_ w0)
              (default [] (frameEndBuffers_ w0 !! i)))
    as [eb [[]|e]]; simpl.
  2:{ unfold buffersOf. simpl.
      rewrite (lookup_insert_congr _ _ i sb Hs),
        (lookup_insert_congr _ _ i eb He),
        (lookup_insert_congr _ _ i (resizeFill numRows true) Hv).
      split; reflexivity. }
  destruct (has_value (start windowFrame) || has_value (end_ windowFrame));
    simpl.
  - rewrite (lookup_insert_congr _ _ i sb Hs),
      (lookup_insert_congr _ _ i eb He),
      (lookup_insert_congr _ _ i (resizeFill numRows true) Hv).
    destruct (computeValidFrames _ numRows _) as [[starts ends] valid].
    unfold buffersOf. simpl.
    rewrite (lookup_insert_congr _ _ i starts
               (lookup_insert_congr _ _ i sb Hs)),
      (lookup_insert_congr _ _ i ends (lookup_insert_congr _ _ i eb He)),
      (lookup_insert_congr _ _ i valid
         (lookup_insert_congr _ _ i (resizeFill numRows true) Hv)).
    split; reflexivity.
  - unfold buffersOf. simpl.
    rewrite (lookup_insert_congr _ _ i sb Hs),
      (lookup_insert_congr _ _ i eb He),
      (lookup_insert_congr _ _ i (resizeFill numRows true) Hv).
    split; reflexivity.
Qed.

(** X18: the frames of the functions are computed independently of one
    another.  When computePeerAndFrameBuffers returns, the frame buffers and
    the selector of each function are what the loop body for that function
    alone computes from the state right after the peer computation: the
    bounds and the validity of one function never depend on the frames of
    the others. *)
Theorem computePeerAndFrameBuffers_per_function
    (w w' : Window) (p : nat * WindowPartition) (i : nat)
    (startRow endRow : Z) :
  currentPartition_ w = Some p ->
  (i < length (windowFunctions_ w))%nat ->
  computePeerAndFrameBuffers startRow endRow w = (w', Returned tt) ->
  buffersOf i w'
  = buffersOf i
      (fst (computeFrameBuffers i startRow (to_int32 (endRow - startRow))
              (afterPeers w p startRow endRow))).
Proof.
  intros Hp Hi Hrun.
  rewrite (computePeerAndFrameBuffers_unfold w p) in Hrun by exact Hp.
  set (w0 := afterPeers w p startRow endRow) in *.
  set (numRows := to_int32 (endRow - startRow)) in *.
  set (body := fun j => computeFrameBuffers j startRow numRows) in *.
  destruct (for_each_at body _ i w0 w' Hi Hrun) as [w1 [w2 [H1 [H2 H3]]]].
  assert (Hcore : core w1 = core w0).
  { replace w1 with (fst (for_each (seq 0 i) body w0)) by (rewrite H1; reflexivity).
    apply preserves_for_each. intros j _. apply computeFrameBuffers_core. }
  assert (Hbufs : buffersOf i w1 = buffersOf i w0).
  { replace w1 with (fst (for_each (seq 0 i) body w0)) by (rewrite H1; reflexivity).
    apply preserves_for_each. intros j Hj. apply in_seq in Hj.
    apply computeFrameBuffers_others. lia. }
  assert (Hafter : buffersOf i w' = buffersOf i w2).
  { replace w' with (fst (for_each (seq (S i) (length (windowFunctions_ w) - S i))
                            body w2)) by (rewrite H3; reflexivity).
    apply preserves_for_each. intros j Hj. apply in_seq in Hj.
    apply computeFrameBuffers_others. lia. }
  rewrite Hafter.
  destruct (computeFrameBuffers_depends w1 w0 i startRow numRows Hcore Hbufs)
    as [Hdep _].
  unfold body in H2. rewrite H2 in Hdep. exact Hdep.
Qed.

Lemma computePeerAndFrameBuffers_per_function_witness :
  buffersOf 0 (fst (computePeerAndFrameBuffers 0 5 twoFunctionsExample))
  = buffersOf 0
      (fst (computeFrameBuffers 0 0 (to_int32 (5 - 0))
              (afterPeers twoFunctionsExample (0%nat, fiveRows) 0 5)))
  /\ buffersOf 1 (fst (computePeerAndFrameBuffers 0 5 twoFunctionsExample))
     = buffersOf 1
         (fst (computeFrameBuffers 1 0 (to_int32 (5 - 0))
                 (afterPeers twoFunctionsExample (0%nat, fiveRows) 0 5)))
  /\ buffersOf 0 (fst (computePeerAndFrameBuffers 0 5 twoFunctionsExample))
     = (Some [0; 0; 0; 0; 0], Some [0; 1; 2; 3; 4],
        Some [true; true; true; true; true])
  /\ buffersOf 1 (fst (computePeerAndFrameBuffers 0 5 twoFunctionsExample))
     = (Some [0; 0; 0; 1; 2], Some [0; 1; 2; 3; 4],
        Some [true; true; true; true; true]).
Proof.
  assert (Hrun : computePeerAndFrameBuffers 0 5 twoFunctionsExample
                 = (fst (computePeerAndFrameBuffers 0 5 twoFunctionsExample),
                    Returned tt)) by (vm_compute; reflexivity).
  split; [|split; [|split; vm_compute; reflexivity]].
  - apply (computePeerAndFrameBuffers_per_function twoFunctionsExample _
             (0%nat, fiveRows) 0 0 5 eq_refl ltac:(simpl; lia) Hrun).
  - apply (computePeerAndFrameBuffers_per_function twoFunctionsExample _
             (0%nat, fiveRows) 1 0 5 eq_refl ltac:(simpl; lia) Hrun).
Defined.

(** ** A bad column offset in the first batch *)

Lemma updateFrameBounds_column_throws p off windowFrame isStartBound arg kind
    startRow numRows rawPeerStarts rawPeerEnds buf j :
  wf_type windowFrame = kRows ->
  isKBound (boundTypeOf windowFrame isStartBound) = true ->
  (if isStartBound then start windowFrame else end_ windowFrame) = Some arg ->
  index arg <> kConstantChannel ->
  value arg = Some kind ->
  (j < Z.to_nat numRows)%nat ->
  (forall r, (r < j)%nat ->
     exists x, columnOffsetAt p (index arg) off r = Some x /\ 0 <= x) ->
  offendingOffset (columnOffsetAt p (index arg) off j) ->
  updateFrameBounds p off windowFrame isStartBound startRow numRows
    rawPeerStarts rawPeerEnds buf
  = (buf, Thrown (columnOffsetError (columnOffsetAt p (index arg) off j))).
Proof.
  intros Hty Hk Harg Hidx Hval Hj Hbefore Hbad.
  set (isKPreceding := match boundTypeOf windowFrame isStartBound with
                       | kPreceding => true
                       | _ => false
                       end).
  destruct (updateKRowsFrameBounds_column p off isKPreceding arg kind
              startRow numRows Hidx Hval) as [T HT].
  assert (Hrun : updateFrameBounds p off windowFrame isStartBound startRow
                   numRows rawPeerStarts rawPeerEnds buf
                 = updateKRowsOffsetsColumn T isKPreceding
                     (extractColumn p (index arg) off numRows kind)
                     startRow numRows buf).
  { rewrite <- HT. unfold updateFrameBounds.
    fold (boundTypeOf windowFrame isStartBound). rewrite Hty, Harg.
    subst isKPreceding.
    destruct (boundTypeOf windowFrame isStartBound); try discriminate Hk;
      reflexivity. }
  rewrite Hrun.
  rewrite (updateKRowsOffsetsColumn_throws T isKPreceding _ startRow numRows
             buf j Hj).
  - unfold offsetError.
    destruct (columnOffsetAt p (index arg) off j) as [x|] eqn:Hx.
    + destruct (extractColumn_offset_at p (index arg) off numRows kind j x Hj Hx)
        as [-> ->].
      reflexivity.
    + rewrite extractColumn_null by assumption. reflexivity.
  - rewrite extractColumn_offsetValid by lia.
    destruct (columnOffsetAt p (index arg) off j) as [x|]; [|reflexivity].
    simpl in Hbad. apply Z.leb_gt. exact Hbad.
  - intros r Hr. rewrite extractColumn_offsetValid by lia.
    destruct (Hbefore r Hr) as [x [-> Hx]]. apply Z.leb_le. exact Hx.
Qed.

Lemma computeFrameBuffers_start_throws w i p windowFrame startRow numRows e :
  currentPartition_ w = Some p ->
  windowFrames_ w !! i = Some windowFrame ->
  (forall rawPeerStarts rawPeerEnds buf,
     updateFrameBounds (snd p) (partitionOffset_ w) windowFrame true startRow
       numRows rawPeerStarts rawPeerEnds buf
     = (buf, Thrown e)) ->
  exists w', computeFrameBuffers i startRow numRows w = (w', Thrown e).
Proof.
  intros Hp Hwf Hthrow.
  unfold computeFrameBuffers, currentPartition, bind, get, modify.
  rewrite Hp. simpl. rewrite Hwf. unfold on_frameStartBuffer. simpl.
  rewrite Hthrow. eexists. reflexivity.
Qed.

Lemma computePeerAndFrameBuffers_start_throws w p i windowFrame startRow endRow e :
  currentPartition_ w = Some p ->
  length (windowFrames_ w) = length (windowFunctions_ w) ->
  windowFrames_ w !! i = Some windowFrame ->
  (forall j windowFrame', (j < i)%nat ->
     windowFrames_ w !! j = Some windowFrame' ->
     sideResolves windowFrame' true && sideResolves windowFrame' false = true) ->
  (forall rawPeerStarts rawPeerEnds buf,
     updateFrameBounds (snd p) (partitionOffset_ w) windowFrame true startRow
       (to_int32 (endRow - startRow)) rawPeerStarts rawPeerEnds buf
     = (buf, Thrown e)) ->
  exists w', computePeerAndFrameBuffers startRow endRow w = (w', Thrown e).
Proof.
  intros Hp Hlen Hwf Hbefore Hthrow.
  rewrite (computePeerAndFrameBuffers_unfold w p) by exact Hp.
  set (w0 := afterPeers w p startRow endRow).
  set (numRows := to_int32 (endRow - startRow)) in *.
  destruct (afterPeers_fields w p startRow endRow)
    as [_ [Hframes [_ [Hcur [_ [_ [_ [Hoff0 _]]]]]]]].
  fold w0 in Hframes, Hcur, Hoff0.
  assert (Hi : (i < length (windowFunctions_ w))%nat)
    by (rewrite <- Hlen; apply lookup_lt_Some with windowFrame; exact Hwf).
  destruct (for_each_returns (fun s => core s = core w0) (seq 0 i)
              (fun j => computeFrameBuffers j startRow numRows))
    with (s := w0) as [w1 [Hprefix Hcore]]; [|reflexivity|].
  { intros j s Hj Hcore. apply in_seq in Hj. pose proof Hcore as Hcore'.
    unfold core in Hcore. injection Hcore as _ Hwfs _ Hc _ _ _ _ _ _ _ _ _.
    destruct (lookup_lt_is_Some_2 (windowFrames_ w) j ltac:(lia)) as [wfj Hwfj].
    pose proof (Hbefore j wfj ltac:(lia) Hwfj) as Hres.
    apply andb_true_iff in Hres as [Hs He].
    destruct (computeFrameBuffers_returns s j p wfj startRow numRows)
      as [s' Hs']; try assumption; try congruence.
    exists s'. split; [exact Hs'|].
    replace s' with (fst (computeFrameBuffers j startRow numRows s))
      by (rewrite Hs'; reflexivity).
    rewrite computeFrameBuffers_core. exact Hcore'. }
  unfold core in Hcore. injection Hcore as _ Hwfs _ Hc _ _ _ Hoff _ _ _ _ _.
  assert (Hc1 : currentPartition_ w1 = Some p) by congruence.
  assert (Hwf1 : windowFrames_ w1 !! i = Some windowFrame) by congruence.
  destruct (computeFrameBuffers_start_throws w1 i p windowFrame startRow numRows e
              Hc1 Hwf1)
    as [w2 Hthrow2].
  { intros ps pe buf. rewrite Hoff, Hoff0. apply Hthrow. }
  exists w2.
  apply (for_each_throws_at _ _ i w0 w1 w2); assumption.
Qed.

(** The first output call of a finalized operator fails with the error of
    its first slice, when that slice fails. *)
Lemma getOutput_first_slice_throws functions budget total built w p w' e :
  Finalized functions budget total built w ->
  0 < budget ->
  built !! 0%nat = Some p ->
  callApplyForPartitionRows 0
    (Z.min (WindowPartition.numRows p) budget) 0 (resetState w)
  = (w', Thrown e) ->
  getOutput w = (w', Thrown e).
Proof.
  intros Hfin Hbudget Hp0 Hslice.
  destruct (Finalized_Inv _ _ _ _ _ Hfin)
    as [Hinv [Hrest [Hnr [Hro [Hpr [_ [Hcur [Hparts _]]]]]]]].
  pose proof Hinv as [Hlen Hne Htot _ _ _ Hcur' _]. rewrite Hcur in Hcur'.
  destruct (resetState_Inv w Hinv) as [Hinv1 [Hrest1 [Hsame1 [Hpr1 [_ Hnextp]]]]].
  { intros q p' Hc. rewrite Hcur in Hc. discriminate Hc. }
  assert (Hp1 : 1 <= WindowPartition.numRows p).
  { rewrite Forall_forall in Hne. apply Hne. rewrite Hparts.
    apply list_elem_of_lookup. eauto. }
  assert (Hfit : WindowPartition.numRows p <= total).
  { pose proof (rowsBefore_le (partitions (windowBuild_ w)) 1 Hne) as Hle.
    rewrite Hparts in Hle.
    rewrite (rowsBefore_S built 0 p Hp0) in Hle.
    unfold rowsBefore in Hle. rewrite take_0 in Hle. simpl in Hle.
    destruct Hfin as [_ [_ [_ [Htot' _]]]]. lia. }
  assert (Hn0 : nextIndex (windowBuild_ w) = 0%nat).
  { rewrite Hpr in Hcur'.
    destruct (nextIndex (windowBuild_ w)) as [|n] eqn:Hn; [reflexivity|].
    exfalso. rewrite Hparts in Hcur'.
    assert (Hmono : rowsBefore built 1 <= rowsBefore built (S n)).
    { unfold rowsBefore.
      rewrite <- (take_drop 1 (take (S n) built)), totalRows_app.
      rewrite take_take. replace (Nat.min 1 (S n)) with 1%nat by lia.
      pose proof (totalRows_nonneg (drop 1 (take (S n) built))
                    ltac:(apply Forall_drop, Forall_take;
                          rewrite <- Hparts; exact Hne)).
      lia. }
    rewrite (rowsBefore_S built 0 p Hp0) in Hmono.
    unfold rowsBefore in Hmono at 1. rewrite take_0 in Hmono. simpl in Hmono.
    lia. }
  rewrite Hn0, Hparts, Hp0 in Hnextp. destruct Hnextp as [Hc1 [Ho1 _]].
  set (w1 := resetState w) in *.
  destruct Hsame1 as [Hf1 [Hwf1 [Hnr1 [Hro1 Hparts1]]]].
  unfold getOutput. unfold bind at 1. unfold get at 1.
  destruct (Z.eqb_spec (numRows_ w) 0) as [|_]; [lia|].
  rewrite Hnr, Hpr. replace (total - 0) with total by lia.
  rewrite (to_int32_small total)
    by (apply in_range_32; pose proof (inv_max w Hinv) as Hmax;
        unfold max_signed in Hmax; simpl in Hmax; lia).
  destruct (Z.eqb_spec total 0) as [|_]; [lia|].
  rewrite Hcur. unfold bind at 1. rewrite callResetPartition_eq. fold w1.
  unfold bind at 1. unfold get at 1. rewrite Hc1, Hro1, Hro.
  unfold bind at 1. unfold callApplyLoop. unfold bind at 1.
  unfold currentPartition at 1. unfold bind at 1. unfold get at 1. rewrite Hc1.
  unfold ret at 1. unfold bind at 1. unfold get at 1.
  rewrite (callApplyLoop_while_step _ 0 (Z.min budget total) w1 _ p Hc1) by lia.
  cbv zeta. rewrite Ho1.
  pose proof (inv_max w Hinv) as Hmax. unfold max_signed in Hmax.
  simpl in Hmax. rewrite Hnr in Hmax.
  rewrite (to_int32_small (WindowPartition.numRows p - 0))
    by (apply in_range_32; lia).
  destruct (Z.leb_spec (WindowPartition.numRows p - 0) (Z.min budget total)).
  - replace (to_int32 (0 + (WindowPartition.numRows p - 0)))
      with (Z.min (WindowPartition.numRows p) budget)
      by (rewrite to_int32_small by (apply in_range_32; lia); lia).
    rewrite <- Ho1 at 1. rewrite Ho1, Hslice. reflexivity.
  - replace (to_int32 (0 + Z.min budget total))
      with (Z.min (WindowPartition.numRows p) budget)
      by (rewrite to_int32_small by (apply in_range_32; lia); lia).
    rewrite Hslice. reflexivity.
Qed.

Lemma createWindowFrame_column_start frame windowFrame kind channel :
  createWindowFrame frame = Returned windowFrame ->
  startValue frame = Some (FieldAccessTypedExpr kind channel) ->
  channel <> kConstantChannel ->
  start windowFrame
  = Some {| index := channel; value := Some kind; constant := None |}.
Proof.
  unfold createWindowFrame. intros H Hs Hch. rewrite Hs in H.
  destruct (match type frame with kRange => _ | kRows => _ end);
    [|discriminate H].
  simpl in H. apply Z.eqb_neq in Hch. rewrite Hch in H.
  destruct (createFrameChannelArg (endValue frame)); [|discriminate H].
  injection H as <-. reflexivity.
Qed.

(** The state of a finalized operator once its first partition is current. *)
Lemma Finalized_first_partition functions budget total built w p :
  Finalized functions budget total built w ->
  built !! 0%nat = Some p ->
  currentPartition_ (resetState w) = Some (0%nat, p)
  /\ partitionOffset_ (resetState w) = 0
  /\ numProcessedRows_ (resetState w) = 0
  /\ windowFrames_ (resetState w) = windowFrames_ w
  /\ length (windowFrames_ (resetState w))
     = length (windowFunctions_ (resetState w))
  /\ appliesOf (calls (resetState w)) = []
  /\ 1 <= WindowPartition.numRows p <= total
  /\ total <= 2147483647.
Proof.
  intros Hfin Hp0.
  destruct (Finalized_Inv _ _ _ _ _ Hfin)
    as [Hinv [Hrest [Hnr [Hro [Hpr [Hcalls [Hcur [Hparts _]]]]]]]].
  pose proof Hinv as [Hlen Hne Htot Hmax _ _ Hcur' _]. rewrite Hcur in Hcur'.
  destruct (resetState_Inv w Hinv) as [Hinv1 [_ [Hsame1 [Hpr1 [_ Hnextp]]]]].
  { intros q p' Hc. rewrite Hcur in Hc. discriminate Hc. }
  assert (Hp1 : 1 <= WindowPartition.numRows p).
  { rewrite Forall_forall in Hne. apply Hne. rewrite Hparts.
    apply list_elem_of_lookup. eauto. }
  assert (Hfit : WindowPartition.numRows p <= total).
  { pose proof (rowsBefore_le (partitions (windowBuild_ w)) 1 Hne) as Hle.
    rewrite Hparts in Hle.
    rewrite (rowsBefore_S built 0 p Hp0) in Hle.
    unfold rowsBefore in Hle. rewrite take_0 in Hle. simpl in Hle.
    destruct Hfin as [_ [_ [_ [Htot' _]]]]. lia. }
  assert (Hn0 : nextIndex (windowBuild_ w) = 0%nat).
  { rewrite Hpr in Hcur'.
    destruct (nextIndex (windowBuild_ w)) as [|n] eqn:Hn; [reflexivity|].
    exfalso. rewrite Hparts in Hcur'.
    assert (Hmono : rowsBefore built 1 <= rowsBefore built (S n)).
    { unfold rowsBefore.
      rewrite <- (take_drop 1 (take (S n) built)), totalRows_app.
      rewrite take_take. replace (Nat.min 1 (S n)) with 1%nat by lia.
      pose proof (totalRows_nonneg (drop 1 (take (S n) built))
                    ltac:(apply Forall_drop, Forall_take;
                          rewrite <- Hparts; exact Hne)).
      lia. }
    rewrite (rowsBefore_S built 0 p Hp0) in Hmono.
    unfold rowsBefore in Hmono at 1. rewrite take_0 in Hmono. simpl in Hmono.
    lia. }
  rewrite Hn0, Hparts, Hp0 in Hnextp. destruct Hnextp as [Hc1 [Ho1 _]].
  destruct Hsame1 as [_ [Hwf1 _]].
  split; [exact Hc1|]. split; [exact Ho1|]. split; [congruence|].
  split; [exact Hwf1|]. split; [apply (inv_frames _ Hinv1)|].
  split; [rewrite resetState_applies, Hcalls; reflexivity|].
  split; [lia|].
  unfold max_signed in Hmax. simpl in Hmax. lia.
Qed.

(** X19: when the offset column of a ROWS K start bound holds a null or a
    negative value in the first batch of a finalized operator (the first
    [min(rows of the first partition, budget)] rows), and the frames of the
    functions before it cannot fail, the first output call fails with the
    user error of the first such row (null, or the negative value) and
    nothing is counted as processed, the cursor stays at row 0 and no
    function has been applied. *)
Theorem getOutput_first_batch_bad_column_offset
    (functions : list (WindowFunction * Frame)) (budget total : Z)
    (built : list WindowPartition) (w : Window) (p : WindowPartition)
    (i : nat) (f : WindowFunction) (frame : Frame) (kind : TypeKind)
    (channel : Z) (j : nat) :
  Finalized functions budget total built w ->
  0 < budget ->
  built !! 0%nat = Some p ->
  functions !! i = Some (f, frame) ->
  type frame = kRows ->
  isKBound (startType frame) = true ->
  startValue frame = Some (FieldAccessTypedExpr kind channel) ->
  channel <> kConstantChannel ->
  (forall i' windowFrame', (i' < i)%nat ->
     windowFrames_ w !! i' = Some windowFrame' ->
     sideResolves windowFrame' true && sideResolves windowFrame' false = true) ->
  (j < Z.to_nat (Z.min (WindowPartition.numRows p) budget))%nat ->
  (forall r, (r < j)%nat ->
     exists x, columnOffsetAt p channel 0 r = Some x /\ 0 <= x) ->
  offendingOffset (columnOffsetAt p channel 0 j) ->
  exists w',
    getOutput w
    = (w', Thrown (columnOffsetError (columnOffsetAt p channel 0 j)))
    /\ numProcessedRows_ w' = 0
    /\ partitionOffset_ w' = 0
    /\ appliesOf (calls w') = [].
Proof.
  intros Hfin Hbudget Hp0 Hi Hrows Hk Hstart Hch Hbefore Hj Hvalid Hbad.
  destruct (Finalized_frames _ _ _ _ _ _ _ _ Hfin Hi) as [windowFrame [Hwf Hbuilt]].
  destruct (createWindowFrame_types _ _ Hbuilt) as [Ht [Hst _]].
  pose proof (createWindowFrame_column_start _ _ _ _ Hbuilt Hstart Hch) as Harg.
  destruct (Finalized_first_partition _ _ _ _ _ _ Hfin Hp0)
    as [Hc1 [Ho1 [Hpr1 [Hwf1 [Hlen1 [Happ1 [Hp1 Hmax]]]]]]].
  set (w1 := resetState w) in *.
  set (endRow := Z.min (WindowPartition.numRows p) budget) in *.
  assert (Hnum : to_int32 (endRow - 0) = endRow)
    by (rewrite Z.sub_0_r; apply to_int32_small, in_range_32; subst endRow;
        lia).
  destruct (computePeerAndFrameBuffers_start_throws w1 (0%nat, p) i windowFrame
              0 endRow (columnOffsetError (columnOffsetAt p channel 0 j)))
    as [w' Hthrow]; try assumption.
  - rewrite Hwf1. exact Hwf.
  - intros i' wf' Hi' Hwf'. apply (Hbefore i' wf' Hi'). rewrite <- Hwf1.
    exact Hwf'.
  - intros ps pe buf. rewrite Ho1, Hnum. simpl.
    apply (updateFrameBounds_column_throws p 0 windowFrame true
             {| index := channel; value := Some kind; constant := None |} kind
             0 endRow ps pe buf j); try assumption; try reflexivity.
    + rewrite Ht. exact Hrows.
    + unfold boundTypeOf. rewrite Hst. exact Hk.
  - exists w'.
    assert (Hslice : callApplyForPartitionRows 0 endRow 0 w1
                     = (w', Thrown (columnOffsetError
                                      (columnOffsetAt p channel 0 j)))).
    { unfold callApplyForPartitionRows, bind. rewrite Hthrow. reflexivity. }
    split; [apply (getOutput_first_slice_throws _ _ _ _ _ _ _ _ Hfin Hbudget
                     Hp0 Hslice)|].
    pose proof (computePeerAndFrameBuffers_core w1 (0%nat, p) 0 endRow Hc1)
      as Hcore.
    rewrite Hthrow in Hcore. simpl in Hcore.
    destruct (afterPeers_fields w1 (0%nat, p) 0 endRow)
      as [_ [_ [_ [_ [_ [_ [Hpr0 [Ho0 _]]]]]]]].
    pose proof (afterPeers_calls w1 (0%nat, p) 0 endRow) as Hcalls0.
    simpl in Hcalls0.
    unfold core in Hcore.
    injection Hcore as _ _ _ _ _ _ Hpr Ho _ _ _ _ Hcalls.
    split; [congruence|]. split; [congruence|].
    rewrite Hcalls, Hcalls0, appliesOf_app, Happ1. reflexivity.
Qed.

Lemma nullOffsetReady_Finalized :
  Finalized nullOffsetFunctions 4 3 [nullOffsetPartition] nullOffsetReady.
Proof.
  split; [reflexivity|]. split; [lia|]. split.
  - repeat constructor; simpl; lia.
  - split; [reflexivity|]. unfold max_signed. simpl. lia.
Qed.

Lemma getOutput_first_batch_bad_column_offset_witness :
  exists w',
    getOutput nullOffsetReady
    = (w', Thrown (VeloxUserError OffsetMustNotBeNull))
    /\ numProcessedRows_ w' = 0.
Proof.
  destruct (getOutput_first_batch_bad_column_offset
              nullOffsetFunctions 4 3 [nullOffsetPartition] nullOffsetReady
              nullOffsetPartition 0 sum_fn
              (rowsFrame kPreceding kCurrentRow
                 (Some (FieldAccessTypedExpr BIGINT 0)) None)
              BIGINT 0 1
              nullOffsetReady_Finalized ltac:(lia) eq_refl eq_refl eq_refl
              eq_refl eq_refl)
    as [w' [Hrun [Hpr _]]].
  - vm_compute. intros H. discriminate H.
  - intros i' wf' Hi'. lia.
  - vm_compute. lia.
  - intros r Hr. assert (r = 0%nat) as -> by lia.
    exists 1. split; [reflexivity | lia].
  - exact I.
  - exists w'. split; [exact Hrun | exact Hpr].
Defined.
